(** * Realtime synchronisation subsystem of the social feed client

    A shallow embedding of the client-side realtime code:

    - [Feed]: the [Feed] component: its post list, its paginated fetch
      and its handlers for pushed events;
    - [Post]: the [Post] component: the optimistic like toggle of a single
      post card;
    - [WebSocketService]: the [WebSocketService] class: the push transport
      with its reconnect policy and its listener registry.

    JavaScript numbers that hold ids, counters and millisecond delays are
    modelled as [Z]; React state is passed explicitly, an [async] function
    being split at its [await]; the [Map] of [Set]s of listeners is a
    [gmap] from event names to insertion-ordered lists of listener
    references. *)

From Stdlib Require Import ZArith Lia Sorted.
From stdpp Require Import base list gmap strings.

Local Open Scope Z_scope.

(** ** Records exchanged with the server *)

Module Data.

(** A post snapshot as returned by the REST API and pushed by the server. *)
Record post := mkPost {
  id : Z;
  author_id : Z;
  content : string;
  likes_count : Z;
  comments_count : Z;
  is_liked : bool
}.

(** The authenticated viewer ([user] of [useAuth]) and the actor carried
    by a like event ([data.user]); only the id is ever inspected. *)
Record user := mkUser { user_id : Z }.

(** Payload of the normalised [like_update] bus event. *)
Record like_update := mkLikeUpdate {
  lu_post_id : Z;
  lu_likes_count : Z;
  lu_user : option user;
  isLike : bool
}.

Definition ids (l : list post) : list Z := map id l.

End Data.

(** ** The feed component *)

Module Feed.
Import Data.

(** React state of the component ([useState] cells). *)
Record state := mkState {
  posts : list post;
  loading : bool;
  loadingMore : bool;
  error : option string;
  page : Z;
  hasMore : bool;
  newPostsCount : Z
}.

(** What the handlers read besides the state: the [userId] prop ([None]
    stands for [null], [undefined] and [NaN]), the viewer, the mounted
    flag and the vertical scroll offset in whole pixels. *)
Record ctx := mkCtx {
  userId : option Z;
  viewer : option user;
  isMounted : bool;
  scrollY : Z
}.

(** Initial state, as given to the [useState] calls. *)
Definition init : state :=
  mkState [] true false None 1 true 0.

(** JavaScript truthiness of the [userId] prop: [null] and [0] are falsy. *)
Definition truthy (u : option Z) : bool :=
  match u with
  | Some n => negb (n =? 0)
  | None => false
  end.

(** [x === userId] for a numeric [x]. *)
Definition strict_eq (x : Z) (u : option Z) : bool :=
  match u with
  | Some n => x =? n
  | None => false
  end.

(** Body of a successful REST response. *)
Record response := mkResponse {
  r_posts : list post;
  has_more : bool
}.

(** [fetchPosts], up to the [await]. *)
Definition fetchPosts_begin (pageNum : Z) (st : state) : state :=
  let st1 :=
    if pageNum =? 1
    then mkState (posts st) true (loadingMore st) (error st) (page st)
                 (hasMore st) (newPostsCount st)
    else mkState (posts st) (loading st) true (error st) (page st)
                 (hasMore st) (newPostsCount st) in
  mkState (posts st1) (loading st1) (loadingMore st1) None (page st1)
          (hasMore st1) (newPostsCount st1).

(** The [finally] block. *)
Definition fetchPosts_finally (c : ctx) (st : state) : state :=
  if isMounted c
  then mkState (posts st) false false (error st) (page st) (hasMore st)
               (newPostsCount st)
  else st.

(** [fetchPosts], after the request resolved. *)
Definition fetchPosts_resolve (c : ctx) (pageNum : Z) (append : bool)
    (r : response) (st : state) : state :=
  if negb (isMounted c) then fetchPosts_finally c st
  else
    let posts' := if append then posts st ++ r_posts r else r_posts r in
    fetchPosts_finally c
      (mkState posts' (loading st) (loadingMore st) (error st) pageNum
               (has_more r) (newPostsCount st)).

(** [fetchPosts], after the request was rejected with [message]. *)
Definition fetchPosts_reject (c : ctx) (message : string) (st : state)
    : state :=
  if negb (isMounted c) then fetchPosts_finally c st
  else
    fetchPosts_finally c
      (mkState (posts st) (loading st) (loadingMore st) (Some message)
               (page st) (hasMore st) (newPostsCount st)).

(** [loadNewPosts] (the banner's click handler), up to the [await] of
    the [fetchPosts(1, false)] it starts. *)
Definition loadNewPosts_begin (st : state) : state :=
  fetchPosts_begin 1
    (mkState (posts st) (loading st) (loadingMore st) (error st) (page st)
             (hasMore st) 0).

(** [shouldAdd] of the [new_post] handler. *)
Definition shouldAdd (c : ctx) (data : post) : bool :=
  negb (truthy (userId c))
  || (truthy (userId c) && strict_eq (author_id data) (userId c)).

(** [prev.some((p) => p.id === x)]. *)
Definition exists_id (x : Z) (prev : list post) : bool :=
  existsb (fun p => id p =? x) prev.

(** Handler subscribed to [new_post]. *)
Definition on_new_post (c : ctx) (data : post) (st : state) : state :=
  if negb (isMounted c) then st
  else if negb (shouldAdd c data) then st
  else if exists_id (id data) (posts st) then st
  else if scrollY c <? 100 then
    mkState (data :: posts st) (loading st) (loadingMore st) (error st)
            (page st) (hasMore st) (newPostsCount st)
  else
    mkState (posts st) (loading st) (loadingMore st) (error st)
            (page st) (hasMore st) (newPostsCount st + 1).

(** [user && data.user?.id === user.id]. *)
Definition same_actor (c : ctx) (data : like_update) : bool :=
  match viewer c, lu_user data with
  | Some u, Some a => user_id a =? user_id u
  | _, _ => false
  end.

(** The object built for a post hit by a [like_update]. *)
Definition apply_like (c : ctx) (data : like_update) (p : post) : post :=
  mkPost (id p) (author_id p) (content p) (lu_likes_count data)
         (comments_count p)
         (if same_actor c data then isLike data else is_liked p).

(** Callback given to [prev.map] by the [like_update] handler. *)
Definition like_mapper (c : ctx) (data : like_update) (p : post) : post :=
  if id p =? lu_post_id data then apply_like c data p else p.

(** Handler subscribed to [like_update]. *)
Definition on_like_update (c : ctx) (data : like_update) (st : state)
    : state :=
  if negb (isMounted c) then st
  else
    mkState (map (like_mapper c data) (posts st)) (loading st)
            (loadingMore st) (error st) (page st) (hasMore st)
            (newPostsCount st).

(** Handler subscribed to [post_deleted]. *)
Definition on_post_deleted (c : ctx) (post_id : Z) (st : state) : state :=
  if negb (isMounted c) then st
  else
    mkState (filter (fun p => id p ≠ post_id) (posts st)) (loading st)
            (loadingMore st) (error st) (page st) (hasMore st)
            (newPostsCount st).

(** [handleLocalPostCreated]: the post the viewer just created. *)
Definition handleLocalPostCreated (newPost : post) (st : state) : state :=
  if exists_id (id newPost) (posts st) then st
  else
    mkState (newPost :: posts st) (loading st) (loadingMore st) (error st)
            (page st) (hasMore st) (newPostsCount st).

(** A run of [new_post] events, each seen under its own context (the
    scroll position may change between events). *)
Definition on_new_posts (evs : list (ctx * post)) (st : state) : state :=
  fold_left (fun s e => on_new_post (fst e) (snd e) s) evs st.

(** The view is scoped to a user other than the author of [data]: the
    [userId] prop is a non-zero number different from [data.author_id]. *)
Definition scoped_elsewhere (c : ctx) (data : post) : Prop :=
  exists u, userId c = Some u /\ u <> 0 /\ author_id data <> u.

(** The actor of a like event is the current viewer. *)
Definition actor_is_viewer (c : ctx) (data : like_update) : Prop :=
  exists u a,
    viewer c = Some u /\ lu_user data = Some a /\ user_id a = user_id u.

(** Sample posts used in the examples below. *)
Definition sample (i : Z) : post := mkPost i 7 "hello" 0 0 false.

Definition at_top : ctx := mkCtx None (Some (mkUser 7)) true 0.
Definition scrolled : ctx := mkCtx None (Some (mkUser 7)) true 450.

Definition with_posts (l : list post) : state :=
  mkState l false false None 1 true 0.

End Feed.

(** ** The post card *)

Module Post.

(** React state of one post card. *)
Record state := mkState {
  isLiked : bool;
  likesCount : Z;
  commentsCount : Z;
  isLiking : bool;
  likeAnimation : bool
}.

(** Initial state, from the [post] prop. *)
Definition init (p : Data.post) : state :=
  mkState (Data.is_liked p) (Data.likes_count p) (Data.comments_count p)
          false false.

(** The effect that follows a change of the [post] prop. *)
Definition sync (p : Data.post) (st : state) : state :=
  mkState (Data.is_liked p) (Data.likes_count p) (Data.comments_count p)
          (isLiking st) (likeAnimation st).

(** Outcome of the awaited [likesAPI.toggleLike] call. *)
Inductive api_result := Resolved | Rejected.

(** [handleLike] up to the [await]: [None] when the guard returns early,
    otherwise the state after the optimistic update together with the
    captured pair [(previousIsLiked, previousCount)]. The values read are
    those of the render that created the closure, i.e. of [st]. *)
Definition handleLike_start (st : state) : option (state * (bool * Z)) :=
  if isLiking st then None
  else
    let previousIsLiked := isLiked st in
    let previousCount := likesCount st in
    Some (mkState (negb (isLiked st))
                  (if isLiked st then likesCount st - 1
                   else likesCount st + 1)
                  (commentsCount st)
                  true
                  (if negb (isLiked st) then true else likeAnimation st),
          (previousIsLiked, previousCount)).

(** [handleLike] after the [await], run on the state current at that
    time; the second component is the toast shown, if any. *)
Definition handleLike_settle (r : api_result) (previous : bool * Z)
    (st : state) : state * option string :=
  match r with
  | Resolved =>
      (mkState (isLiked st) (likesCount st) (commentsCount st) false
               (likeAnimation st), None)
  | Rejected =>
      (mkState (fst previous) (snd previous) (commentsCount st) false
               (likeAnimation st),
       Some "Failed to update like"%string)
  end.

(** A whole [handleLike] call with nothing happening during the request. *)
Definition handleLike (r : api_result) (st : state)
    : state * option string :=
  match handleLike_start st with
  | None => (st, None)
  | Some (st1, previous) => handleLike_settle r previous st1
  end.

End Post.

(** ** The push transport and its listener registry *)

Module WebSocketService.

(** Objects passed to listeners. *)
Inductive payload :=
| PConnected
| PDisconnected (code : Z) (reason : string)
| PError
| PEmpty
| PData (fields : list (string * Z)).

(** Result of calling a listener: it returns or throws, and in both cases
    may have changed the application state it closes over. *)
Inductive outcome (W : Type) :=
| Returned (w : W)
| Threw (w : W).
Arguments Returned {W} w.
Arguments Threw {W} w.

(** What the service does to its surroundings, in program order.
    [Emit] and [Called] record the entry into [emit] and each listener
    invocation. Console lines are recorded by their fixed text, without
    the values interpolated into them. *)
Inductive effect :=
| Emit (event : string) (p : payload)
| Called (event : string) (h : nat) (p : payload)
| ConsoleLog (msg : string)
| ConsoleError (msg : string)
| SetTimeout (delay : Z)
| NewWebSocket (url : string)
| WsClose (args : option (Z * string))
| SetInterval (period : Z)
| ClearInterval.

(** The closure returned by [subscribe]: it captures the event name and
    the callback. *)
Record unsubscriber := mkUnsub { u_event : string; u_callback : nat }.

(** A JavaScript [Set] of function references, in insertion order.
    Listeners are identified by reference ([nat]). [add] of a member
    changes nothing, also not its position; [delete] takes the member
    out. *)
Definition set_add (h : nat) (s : list nat) : list nat :=
  if decide (h ∈ s) then s else s ++ [h].

Definition set_delete (h : nat) (s : list nat) : list nat :=
  filter (fun x => x ≠ h) s.

Section Service.

(** Application state the listeners act on, and what each listener
    does when called. Listeners do not call back into the service. *)
Context {W : Type}.
Variable behaviour : nat -> payload -> W -> outcome W.

(** [window.location]: whether the page was served over https, and
    its host. *)
Variable secure : bool.
Variable host : string.

(** The fields of the service object, followed by its surroundings:
    the application state, the delays of the pending reconnect
    timeouts (oldest first) and the effects performed so far. *)
Record state := mkState {
  ws : option string;
  listeners : gmap string (list nat);
  reconnectAttempts : Z;
  maxReconnectAttempts : Z;
  reconnectDelay : Z;
  isConnected : bool;
  token : option string;
  pingInterval : bool;
  world : W;
  timers : list Z;
  log : list effect
}.

Definition constructor (w : W) : state :=
  mkState None ∅ 0 5 1000 false None false w [] [].

Definition set_ws (x : option string) (s : state) : state :=
  mkState x (listeners s) (reconnectAttempts s) (maxReconnectAttempts s)
    (reconnectDelay s) (isConnected s) (token s) (pingInterval s)
    (world s) (timers s) (log s).

Definition set_listeners (x : gmap string (list nat)) (s : state)
    : state :=
  mkState (ws s) x (reconnectAttempts s) (maxReconnectAttempts s)
    (reconnectDelay s) (isConnected s) (token s) (pingInterval s)
    (world s) (timers s) (log s).

Definition set_reconnectAttempts (x : Z) (s : state) : state :=
  mkState (ws s) (listeners s) x (maxReconnectAttempts s)
    (reconnectDelay s) (isConnected s) (token s) (pingInterval s)
    (world s) (timers s) (log s).

Definition set_isConnected (x : bool) (s : state) : state :=
  mkState (ws s) (listeners s) (reconnectAttempts s)
    (maxReconnectAttempts s) (reconnectDelay s) x (token s)
    (pingInterval s) (world s) (timers s) (log s).

Definition set_token (x : option string) (s : state) : state :=
  mkState (ws s) (listeners s) (reconnectAttempts s)
    (maxReconnectAttempts s) (reconnectDelay s) (isConnected s) x
    (pingInterval s) (world s) (timers s) (log s).

Definition set_pingInterval (x : bool) (s : state) : state :=
  mkState (ws s) (listeners s) (reconnectAttempts s)
    (maxReconnectAttempts s) (reconnectDelay s) (isConnected s)
    (token s) x (world s) (timers s) (log s).

Definition set_world (x : W) (s : state) : state :=
  mkState (ws s) (listeners s) (reconnectAttempts s)
    (maxReconnectAttempts s) (reconnectDelay s) (isConnected s)
    (token s) (pingInterval s) x (timers s) (log s).

Definition set_timers (x : list Z) (s : state) : state :=
  mkState (ws s) (listeners s) (reconnectAttempts s)
    (maxReconnectAttempts s) (reconnectDelay s) (isConnected s)
    (token s) (pingInterval s) (world s) x (log s).

(** Append one effect to the log. *)
Definition push (e : effect) (s : state) : state :=
  mkState (ws s) (listeners s) (reconnectAttempts s)
    (maxReconnectAttempts s) (reconnectDelay s) (isConnected s)
    (token s) (pingInterval s) (world s) (timers s) (log s ++ [e]).

(** The handlers registered for [event], in the order [forEach]
    visits them. *)
Definition registered (event : string) (s : state) : list nat :=
  default [] (listeners s !! event).

(** [subscribe(event, callback)]. *)
Definition subscribe (event : string) (callback : nat) (s : state)
    : state * unsubscriber :=
  let l1 :=
    match listeners s !! event with
    | Some _ => listeners s
    | None => <[event := []]> (listeners s)
    end in
  let l2 := <[event := set_add callback (default [] (l1 !! event))]> l1 in
  (set_listeners l2 s, mkUnsub event callback).

(** [unsubscribe(event, callback)]. *)
Definition unsubscribe (event : string) (callback : nat) (s : state)
    : state :=
  match listeners s !! event with
  | Some hs =>
      set_listeners (<[event := set_delete callback hs]> (listeners s)) s
  | None => s
  end.

(** Calling the closure returned by [subscribe]. *)
Definition invoke (u : unsubscriber) (s : state) : state :=
  unsubscribe (u_event u) (u_callback u) s.

(** One iteration of the [forEach] in [emit]: the call and its
    [try]/[catch]. *)
Definition call_listener (event : string) (p : payload) (s : state)
    (h : nat) : state :=
  let s1 := push (Called event h p) s in
  match behaviour h p (world s1) with
  | Returned w => set_world w s1
  | Threw w =>
      push (ConsoleError ("Error in WebSocket listener for " +:+ event +:+ ":"))
           (set_world w s1)
  end.

(** [emit(event, data)]. *)
Definition emit (event : string) (p : payload) (s : state) : state :=
  let s0 := push (Emit event p) s in
  match listeners s0 !! event with
  | Some hs => fold_left (call_listener event p) hs s0
  | None => s0
  end.

(** [stopPingInterval()] and [startPingInterval()]. *)
Definition stopPingInterval (s : state) : state :=
  if pingInterval s then set_pingInterval false (push ClearInterval s)
  else s.

Definition startPingInterval (s : state) : state :=
  set_pingInterval true (push (SetInterval 30000) (stopPingInterval s)).

(** [scheduleReconnect()]. The exponent is at least 0 because the
    counter has just been incremented from a value that is never
    negative. *)
Definition scheduleReconnect (s : state) : state :=
  if maxReconnectAttempts s <=? reconnectAttempts s then
    emit "max_reconnect_attempts" PEmpty
         (push (ConsoleLog "Max reconnection attempts reached") s)
  else
    let s1 := set_reconnectAttempts (reconnectAttempts s + 1) s in
    let delay := reconnectDelay s1 * 2 ^ (reconnectAttempts s1 - 1) in
    let s2 := push (ConsoleLog "Scheduling reconnect attempt") s1 in
    set_timers (timers s2 ++ [delay]) (push (SetTimeout delay) s2).

(** Truthiness of the token: [null] and the empty string are falsy. *)
Definition token_truthy (tok : option string) : bool :=
  match tok with
  | Some t => negb (String.eqb t EmptyString)
  | None => false
  end.

Definition wsUrl (tok : option string) : string :=
  let protocol := if secure then "wss:" else "ws:" in
  let base := protocol +:+ "//" +:+ host +:+ "/ws/feed" in
  match tok with
  | Some t => if token_truthy tok then base +:+ "?token=" +:+ t else base
  | None => base
  end.

(** [connect(token)]. [ctor_ok] tells whether [new WebSocket(wsUrl)]
    returns ([true]) or throws ([false]). *)
Definition connect (tok : option string) (ctor_ok : bool) (s : state)
    : state :=
  let s1 := set_token tok s in
  let s2 :=
    match ws s1 with
    | Some _ => push (WsClose None) s1
    | None => s1
    end in
  if ctor_ok then
    set_ws (Some (wsUrl tok)) (push (NewWebSocket (wsUrl tok)) s2)
  else
    scheduleReconnect (push (ConsoleError "WebSocket connection error:") s2).

(** The handlers installed by [setupEventHandlers()]. *)
Definition onopen (s : state) : state :=
  let s1 := push (ConsoleLog "WebSocket connected") s in
  let s2 := set_isConnected true s1 in
  let s3 := set_reconnectAttempts 0 s2 in
  startPingInterval (emit "connected" PConnected s3).

Definition onclose (code : Z) (reason : string) (s : state) : state :=
  let s1 := push (ConsoleLog "WebSocket disconnected:") s in
  let s2 := set_isConnected false s1 in
  let s3 := stopPingInterval s2 in
  let s4 := emit "disconnected" (PDisconnected code reason) s3 in
  if negb (code =? 1000) then scheduleReconnect s4 else s4.

Definition onerror (s : state) : state :=
  emit "error" PError (push (ConsoleError "WebSocket error:") s).

(** The callback given to [setTimeout] by [scheduleReconnect]. *)
Definition reconnect_callback (ctor_ok : bool) (s : state) : state :=
  if negb (isConnected s) then connect (token s) ctor_ok s else s.

(** [disconnect()]. *)
Definition disconnect (s : state) : state :=
  let s1 := stopPingInterval s in
  let s2 :=
    match ws s1 with
    | Some _ =>
        set_ws None
          (push (WsClose (Some (1000, "User disconnect"%string))) s1)
    | None => s1
    end in
  set_listeners ∅ (set_isConnected false s2).

(** What can happen to the service: calls by the application, socket
    events, and the pending timeout at position [i] firing. *)
Inductive event :=
| Connect (tok : option string) (ctor_ok : bool)
| Disconnect
| Subscribe (ev : string) (h : nat)
| Unsubscribe (ev : string) (h : nat)
| EmitEvent (ev : string) (p : payload)
| OnOpen
| OnClose (code : Z) (reason : string)
| OnError
| TimerFires (i : nat) (ctor_ok : bool).

Definition step (s : state) (e : event) : state :=
  match e with
  | Connect tok ok => connect tok ok s
  | Disconnect => disconnect s
  | Subscribe ev h => fst (subscribe ev h s)
  | Unsubscribe ev h => unsubscribe ev h s
  | EmitEvent ev p => emit ev p s
  | OnOpen => onopen s
  | OnClose code reason => onclose code reason s
  | OnError => onerror s
  | TimerFires i ok =>
      match timers s !! i with
      | Some _ => reconnect_callback ok (set_timers (delete i (timers s)) s)
      | None => s
      end
  end.

Definition run (es : list event) (s : state) : state :=
  fold_left step es s.

(** Projections of the effect log. *)
Definition delays (l : list effect) : list Z :=
  omap (fun e => match e with SetTimeout d => Some d | _ => None end) l.

Definition calls (event : string) (l : list effect) : list nat :=
  omap (fun e => match e with
                 | Called ev h _ => if String.eqb ev event then Some h else None
                 | _ => None
                 end) l.

Definition emitted (event : string) (l : list effect) : list payload :=
  omap (fun e => match e with
                 | Emit ev p => if String.eqb ev event then Some p else None
                 | _ => None
                 end) l.

Definition sockets (l : list effect) : list string :=
  omap (fun e => match e with NewWebSocket u => Some u | _ => None end) l.

(** Number of times listener [h] was called for [event]. *)
Definition invocations (event : string) (h : nat) (l : list effect)
    : nat :=
  length (filter (fun x => x = h) (calls event l)).

(** Messages written with [console.error]. *)
Definition console_errors (l : list effect) : list string :=
  omap (fun e => match e with ConsoleError m => Some m | _ => None end) l.

(** The application state a listener call leaves behind. *)
Definition after (o : outcome W) : W :=
  match o with
  | Returned w => w
  | Threw w => w
  end.

Definition throws (o : outcome W) : bool :=
  match o with
  | Returned _ => false
  | Threw _ => true
  end.

(** The [forEach] of [emit] unrolled over the listeners [hs]: the
    application state it ends in, the effects it performs and the
    listeners that threw. *)
Fixpoint listeners_world (p : payload) (hs : list nat) (w : W) : W :=
  match hs with
  | [] => w
  | h :: hs' => listeners_world p hs' (after (behaviour h p w))
  end.

Fixpoint listeners_effects (event : string) (p : payload)
    (hs : list nat) (w : W) : list effect :=
  match hs with
  | [] => []
  | h :: hs' =>
      Called event h p ::
      (if throws (behaviour h p w)
       then [ConsoleError ("Error in WebSocket listener for " +:+ event +:+ ":")]
       else [])
      ++ listeners_effects event p hs' (after (behaviour h p w))
  end.

Fixpoint throwers (p : payload) (hs : list nat) (w : W) : list nat :=
  match hs with
  | [] => []
  | h :: hs' =>
      (if throws (behaviour h p w) then [h] else [])
      ++ throwers p hs' (after (behaviour h p w))
  end.

(** Subscribing the callbacks [hs] for [event], one after the other. *)
Definition subscribe_all (event : string) (hs : list nat) (s : state)
    : state :=
  fold_left (fun s h => fst (subscribe event h s)) hs s.

(** Every listener set holds each reference once, as a [Set] does. *)
Definition wf (s : state) : Prop :=
  forall ev hs, listeners s !! ev = Some hs -> NoDup hs.

(** The constants given by the constructor. *)
Definition settings_ok (s : state) : Prop :=
  maxReconnectAttempts s = 5 /\ reconnectDelay s = 1000.

(** No reconnect in progress: the counter is 0, no timeout is pending
    and the service does not consider itself connected. *)
Definition idle (s : state) : Prop :=
  reconnectAttempts s = 0 /\ timers s = [] /\ isConnected s = false.

(** The budget is used up. *)
Definition exhausted (s : state) : Prop :=
  maxReconnectAttempts s <= reconnectAttempts s.

(** The delays of the first five reconnect attempts. *)
Definition backoff : list Z := [1000; 2000; 4000; 8000; 16000].

(** How a connection attempt fails: the socket closes with the given
    code and reason, or [new WebSocket] throws. *)
Inductive failure :=
| ClosedAbnormally (code : Z) (reason : string)
| ConstructorThrew.

Definition abnormal (f : failure) : Prop :=
  match f with
  | ClosedAbnormally code _ => code <> 1000
  | ConstructorThrew => True
  end.

(** The events of a failing attempt made by an explicit [connect]
    call, and of one made by the oldest pending timeout. *)
Definition first_failure (tok : option string) (f : failure)
    : list event :=
  match f with
  | ClosedAbnormally code reason => [Connect tok true; OnClose code reason]
  | ConstructorThrew => [Connect tok false]
  end.

Definition retry_failure (f : failure) : list event :=
  match f with
  | ClosedAbnormally code reason =>
      [TimerFires 0 true; OnClose code reason]
  | ConstructorThrew => [TimerFires 0 false]
  end.

(** A session in which every attempt fails: the explicit [connect],
    then each automatic attempt in turn. *)
Definition failing_session (tok : option string) (fs : list failure)
    : list event :=
  match fs with
  | [] => []
  | f :: rest => first_failure tok f ++ concat (map retry_failure rest)
  end.

(** How a run of consecutive failures begins: the open connection is
    lost (its socket closes), or an explicit [connect] fails. *)
Inductive onset :=
| ConnectionLost (code : Z) (reason : string)
| ConnectFailed (tok : option string) (f : failure).

Definition onset_abnormal (o : onset) : Prop :=
  match o with
  | ConnectionLost code _ => code <> 1000
  | ConnectFailed _ f => abnormal f
  end.

Definition onset_events (o : onset) : list event :=
  match o with
  | ConnectionLost code reason => [OnClose code reason]
  | ConnectFailed tok f => first_failure tok f
  end.

(** The timeout scheduled by a [connect] whose constructor throws makes
    its attempt only if the service does not consider itself connected
    when it fires; the other onsets clear the flag themselves. *)
Definition onset_ready (o : onset) (s : state) : Prop :=
  match o with
  | ConnectFailed _ ConstructorThrew => isConnected s = false
  | _ => True
  end.

(** Consecutive failures: the onset, then each automatic attempt failing
    in turn; [S (length fs)] failures in all. *)
Definition failures (o : onset) (fs : list failure) : list event :=
  onset_events o ++ concat (map retry_failure fs).

(** One step of the reconnect counter: either the counter and the
    scheduled delays are as before, or the counter was below the limit,
    went up by one and one timeout was scheduled. *)
Definition advances (s s' : state) : Prop :=
  maxReconnectAttempts s' = maxReconnectAttempts s /\
  reconnectDelay s' = reconnectDelay s /\
  ((reconnectAttempts s' = reconnectAttempts s /\
    delays (log s') = delays (log s)) \/
   (reconnectAttempts s < maxReconnectAttempts s /\
    reconnectAttempts s' = reconnectAttempts s + 1 /\
    delays (log s') =
      delays (log s) ++ [reconnectDelay s * 2 ^ reconnectAttempts s])).

(** The part of the state that the reconnect policy reads and writes, and
    the policy's footprint in the effect log: the delays passed to
    [setTimeout], the payloads emitted as [max_reconnect_attempts] and the
    number of sockets created. *)
Record view := mkView {
  v_max : Z;
  v_delay : Z;
  v_attempts : Z;
  v_connected : bool;
  v_timers : list Z;
  v_delays : list Z;
  v_given_up : list payload;
  v_sockets : nat
}.

Definition view_of (s : state) : view :=
  mkView (maxReconnectAttempts s) (reconnectDelay s) (reconnectAttempts s)
         (isConnected s) (timers s) (delays (log s))
         (emitted "max_reconnect_attempts" (log s))
         (length (sockets (log s))).

(** The policy on views: what each operation does to the part above. *)
Definition v_schedule (v : view) : view :=
  if v_max v <=? v_attempts v then
    mkView (v_max v) (v_delay v) (v_attempts v) (v_connected v) (v_timers v)
           (v_delays v) (v_given_up v ++ [PEmpty]) (v_sockets v)
  else
    mkView (v_max v) (v_delay v) (v_attempts v + 1) (v_connected v)
           (v_timers v ++ [v_delay v * 2 ^ v_attempts v])
           (v_delays v ++ [v_delay v * 2 ^ v_attempts v])
           (v_given_up v) (v_sockets v).

Definition v_connect (ok : bool) (v : view) : view :=
  if ok then
    mkView (v_max v) (v_delay v) (v_attempts v) (v_connected v) (v_timers v)
           (v_delays v) (v_given_up v) (S (v_sockets v))
  else v_schedule v.

Definition v_set_connected (b : bool) (v : view) : view :=
  mkView (v_max v) (v_delay v) (v_attempts v) b (v_timers v) (v_delays v)
         (v_given_up v) (v_sockets v).

Definition v_onclose (code : Z) (v : view) : view :=
  if negb (code =? 1000) then v_schedule (v_set_connected false v)
  else v_set_connected false v.

Definition v_onopen (v : view) : view :=
  mkView (v_max v) (v_delay v) 0 true (v_timers v) (v_delays v)
         (v_given_up v) (v_sockets v).

Definition v_step (v : view) (e : event) : view :=
  match e with
  | Connect _ ok => v_connect ok v
  | Disconnect => v_set_connected false v
  | Subscribe _ _ => v
  | Unsubscribe _ _ => v
  | EmitEvent ev p =>
      if String.eqb ev "max_reconnect_attempts" then
        mkView (v_max v) (v_delay v) (v_attempts v) (v_connected v)
               (v_timers v) (v_delays v) (v_given_up v ++ [p]) (v_sockets v)
      else v
  | OnOpen => v_onopen v
  | OnClose code _ => v_onclose code v
  | OnError => v
  | TimerFires i ok =>
      match v_timers v !! i with
      | Some _ =>
          let v1 := mkView (v_max v) (v_delay v) (v_attempts v)
                           (v_connected v) (delete i (v_timers v))
                           (v_delays v) (v_given_up v) (v_sockets v) in
          if negb (v_connected v) then v_connect ok v1 else v1
      | None => v
      end
  end.

Definition v_run (es : list event) (v : view) : view :=
  fold_left v_step es v.

(** From [s] to [s'] the listener sets stayed as they were and listener
    [h] was not called for [event]. *)
Definition quiet (event : string) (h : nat) (s s' : state) : Prop :=
  listeners s' = listeners s /\
  invocations event h (log s') = invocations event h (log s).

End Service.

(** Two concrete sets of listeners for the examples: listeners that do
    nothing, and listeners that append their own reference to a list,
    listener 2 throwing after it has done so. *)
Definition silent (h : nat) (p : payload) (w : unit) : outcome unit :=
  Returned w.

Definition recorder (h : nat) (p : payload) (w : list nat)
    : outcome (list nat) :=
  if Nat.eqb h 2 then Threw (w ++ [h]) else Returned (w ++ [h]).

(** Six failures in a row: closes with codes other than 1000 and, in
    between, a constructor that throws. *)
Definition six_failures : list failure :=
  [ClosedAbnormally 1006 "Connection lost";
   ClosedAbnormally 1006 "Connection lost";
   ConstructorThrew; ClosedAbnormally 1011 "Internal error";
   ClosedAbnormally 1006 "Connection lost";
   ClosedAbnormally 1006 "Connection lost"].

(** A service whose budget is used up. *)
Definition worn_out : @state unit :=
  mkState None ∅ 5 5 1000 false (Some "t0k3n"%string) false tt [] [].

(** A service whose connection is open, and five failing retries. *)
Definition opened : @state unit :=
  run silent true "localhost" [Connect (Some "t0k3n"%string) true; OnOpen]
      (constructor tt).

Definition five_retries : list failure :=
  [ClosedAbnormally 1006 "Connection lost";
   ConstructorThrew; ClosedAbnormally 1011 "Internal error";
   ClosedAbnormally 1006 "Connection lost";
   ClosedAbnormally 1006 "Connection lost"].

End WebSocketService.

(** ** The remaining handlers of the feed component *)

Module FeedEvents.
Import Data Feed.

(** [x || d] on numbers: [0] is falsy. *)
Definition js_or (x d : Z) : Z := if x =? 0 then d else x.

(** [{ ...post, comments_count: n }]. *)
Definition with_comments_count (n : Z) (p : post) : post :=
  mkPost (id p) (author_id p) (content p) (likes_count p) n (is_liked p).

(** [{ ...post, ...updatedPost }]: every field of the record is present
    in [updatedPost], so each one is taken from it. *)
Definition merge (p updatedPost : post) : post :=
  mkPost (id updatedPost) (author_id updatedPost) (content updatedPost)
         (likes_count updatedPost) (comments_count updatedPost)
         (is_liked updatedPost).

(** [setPosts(l)] on its own. *)
Definition set_posts (l : list post) (st : state) : state :=
  mkState l (loading st) (loadingMore st) (error st) (page st) (hasMore st)
          (newPostsCount st).

(** Callbacks given to [prev.map] by the comment handlers. The payload's
    [post_id] is [None] when the frame carried none. *)
Definition new_comment_mapper (post_id : option Z) (p : post) : post :=
  if strict_eq (id p) post_id
  then with_comments_count (js_or (comments_count p) 0 + 1) p
  else p.

Definition comment_deleted_mapper (post_id : option Z) (p : post) : post :=
  if strict_eq (id p) post_id
  then with_comments_count (Z.max 0 (js_or (comments_count p) 1 - 1)) p
  else p.

(** Handlers subscribed to [new_comment] and [comment_deleted]. *)
Definition on_new_comment (c : ctx) (post_id : option Z) (st : state)
    : state :=
  if negb (isMounted c) then st
  else set_posts (map (new_comment_mapper post_id) (posts st)) st.

Definition on_comment_deleted (c : ctx) (post_id : option Z) (st : state)
    : state :=
  if negb (isMounted c) then st
  else set_posts (map (comment_deleted_mapper post_id) (posts st)) st.

(** [handlePostDeleted] and [handlePostUpdated], called by a post card. *)
Definition handlePostDeleted (postId : Z) (st : state) : state :=
  set_posts (filter (fun p => id p ≠ postId) (posts st)) st.

Definition handlePostUpdated (updatedPost : post) (st : state) : state :=
  set_posts
    (map (fun p => if id p =? id updatedPost then merge p updatedPost else p)
         (posts st))
    st.

(** Everything that changes the state of a feed. *)
Inductive event :=
| NewPost (c : ctx) (data : post)
| LikeUpdate (c : ctx) (data : like_update)
| PostDeleted (c : ctx) (post_id : Z)
| NewComment (c : ctx) (post_id : option Z)
| CommentDeleted (c : ctx) (post_id : option Z)
| LocalPostCreated (p : post)
| LocalPostDeleted (postId : Z)
| LocalPostUpdated (p : post)
| LoadNewPosts
| FetchStarted (pageNum : Z)
| FetchResolved (c : ctx) (pageNum : Z) (append : bool) (r : response)
| FetchRejected (c : ctx) (message : string).

Definition step (st : state) (e : event) : state :=
  match e with
  | NewPost c data => on_new_post c data st
  | LikeUpdate c data => on_like_update c data st
  | PostDeleted c post_id => on_post_deleted c post_id st
  | NewComment c post_id => on_new_comment c post_id st
  | CommentDeleted c post_id => on_comment_deleted c post_id st
  | LocalPostCreated p => handleLocalPostCreated p st
  | LocalPostDeleted postId => handlePostDeleted postId st
  | LocalPostUpdated p => handlePostUpdated p st
  | LoadNewPosts => loadNewPosts_begin st
  | FetchStarted pageNum => fetchPosts_begin pageNum st
  | FetchResolved c pageNum append r => fetchPosts_resolve c pageNum append r st
  | FetchRejected c message => fetchPosts_reject c message st
  end.

Definition run (es : list event) (st : state) : state :=
  fold_left step es st.

(** The events that cannot bring in a second copy of an id: all of them
    but a fetch that appends, or that replaces the list by a page which
    repeats an id. *)
Definition keeps_ids_unique (e : event) : Prop :=
  match e with
  | FetchResolved _ _ append r => append = false /\ NoDup (ids (r_posts r))
  | _ => True
  end.

(** The events whose code starts with the mounted check, seen by an
    unmounted component. *)
Definition after_unmount (e : event) : Prop :=
  match e with
  | NewPost c _ | LikeUpdate c _ | PostDeleted c _ | NewComment c _
  | CommentDeleted c _ | FetchResolved c _ _ _ | FetchRejected c _ =>
      isMounted c = false
  | _ => False
  end.

(** A [new_post] event that reaches the counter branch: mounted, meant
    for this view, scrolled away from the top. *)
Definition held_back (e : ctx * post) : Prop :=
  isMounted (fst e) = true /\ shouldAdd (fst e) (snd e) = true /\
  100 <= scrollY (fst e).

End FeedEvents.

(** ** The comment section of a post card *)

Module CommentSection.

Record comment := mkComment {
  c_id : Z;
  c_author_id : Z;
  c_content : string
}.

(** React state of the section. *)
Record state := mkState {
  comments : list comment;
  newComment : string;
  isLoading : bool;
  isSubmitting : bool;
  activeMenu : option Z
}.

Definition comment_ids (l : list comment) : list Z := map c_id l.

(** [setCommentsCount(updater)] of the parent card. *)
Definition update_count (f : Z -> Z) (parent : Post.state) : Post.state :=
  Post.mkState (Post.isLiked parent) (Post.likesCount parent)
               (f (Post.commentsCount parent)) (Post.isLiking parent)
               (Post.likeAnimation parent).

(** [loadComments] after the request resolved with the list [l]. *)
Definition loadComments_resolved (l : list comment) (st : state) : state :=
  mkState l (newComment st) false (isSubmitting st) (activeMenu st).

(** [handleSubmit] after [createComment] resolved with the new comment,
    and after it was rejected. *)
Definition handleSubmit_resolved (created : comment) (st : state)
    (parent : Post.state) : state * Post.state :=
  (mkState (comments st ++ [created]) EmptyString (isLoading st) false
           (activeMenu st),
   update_count (fun prev => prev + 1) parent).

Definition handleSubmit_rejected (st : state) (parent : Post.state)
    : state * Post.state :=
  (mkState (comments st) (newComment st) (isLoading st) false
           (activeMenu st),
   parent).

(** [handleDelete] after [deleteComment] resolved. *)
Definition handleDelete_resolved (commentId : Z) (st : state)
    (parent : Post.state) : state * Post.state :=
  (mkState (filter (fun c => c_id c ≠ commentId) (comments st))
           (newComment st) (isLoading st) (isSubmitting st) None,
   update_count (fun prev => Z.max 0 (prev - 1)) parent).

(** The count shown on the card is the number of comments listed. *)
Definition in_step (st : state) (parent : Post.state) : Prop :=
  Post.commentsCount parent = Z.of_nat (length (comments st)).

End CommentSection.

(** ** Inbound frames *)

Module Inbound.

(** JavaScript values carried by a frame, objects as lists of properties
    in insertion order. *)
#[warnings="-register-all"] Inductive jsval :=
| Undefined
| Null
| Bool (b : bool)
| Num (n : Z)
| Str (s : string)
| Obj (fields : list (string * jsval)).

(** [o.k]: [undefined] when [o] has no property [k]. *)
Fixpoint get (k : string) (o : list (string * jsval)) : jsval :=
  match o with
  | [] => Undefined
  | (k', v) :: o' => if String.eqb k' k then v else get k o'
  end.

(** [{ ...o, k: v }]: the property is replaced where it stands, or added
    at the end. *)
Fixpoint set (k : string) (v : jsval) (o : list (string * jsval))
    : list (string * jsval) :=
  match o with
  | [] => [(k, v)]
  | (k', v') :: o' =>
      if String.eqb k' k then (k, v) :: o' else (k', v') :: set k v o'
  end.

(** A parsed frame [{ type, data, post_id }] whose [type] is a string and
    whose [data], when present, is an object ([None]: the frame has no
    [data]). *)
Record message := mkMessage {
  m_type : string;
  m_data : option (list (string * jsval));
  m_post_id : jsval
}.

(** Own properties of [data] as the spread [...data] copies them. *)
Definition spread (data : option (list (string * jsval)))
    : list (string * jsval) :=
  default [] data.

(** What [handleMessage] passes to [emit], if it calls it. *)
Inductive emission :=
| EmitAs (event : string) (data : option (list (string * jsval)))
| NoEmission.

(** [handleMessage(message)]: the [switch] on [type]. *)
Definition handleMessage (m : message) : emission :=
  let type := m_type m in
  let data := m_data m in
  if String.eqb type "connected" then EmitAs "authenticated" data
  else if String.eqb type "new_post" then EmitAs "new_post" data
  else if String.eqb type "new_comment" then
    EmitAs "new_comment" (Some (set "post_id" (m_post_id m) (spread data)))
  else if String.eqb type "new_like" || String.eqb type "unlike" then
    EmitAs "like_update"
      (Some (set "isLike" (Bool (String.eqb type "new_like")) (spread data)))
  else if String.eqb type "post_deleted" then EmitAs "post_deleted" data
  else if String.eqb type "comment_deleted" then
    EmitAs "comment_deleted" data
  else if String.eqb type "pong" then NoEmission
  else EmitAs type data.

(** [ws.onmessage]: [None] stands for a frame on which [JSON.parse]
    throws or which parses to [null]; both end in the [catch]. The second
    component tells whether the error line was written. *)
Definition onmessage (frame : option message) : emission * bool :=
  match frame with
  | Some m => (handleMessage m, false)
  | None => (NoEmission, true)
  end.

(** The types that [handleMessage] names in a [case]. *)
Definition known_types : list string :=
  ["connected"; "new_post"; "new_comment"; "new_like"; "unlike";
   "post_deleted"; "comment_deleted"; "pong"]%string.

(** Sample frames. *)
Definition like_frame : message :=
  mkMessage "new_like"
    (Some [("post_id", Num 4); ("likes_count", Num 9);
           ("isLike", Bool false)]%string)
    Undefined.

End Inbound.

(** ** The provider of the connection status *)

Module StatusProvider.
Import WebSocketService.

(** React state of [WebSocketProvider]. *)
Record status := mkStatus {
  p_isConnected : bool;
  connectionStatus : string
}.

Definition init : status := mkStatus false "disconnected".

(** References of the four listeners the provider registers. *)
Definition handleConnected : nat := 0.
Definition handleDisconnected : nat := 1.
Definition handleError : nat := 2.
Definition handleMaxReconnectAttempts : nat := 3.

(** What the listeners do to the provider's state; listeners of other
    components leave it alone. *)
Definition behaviour (h : nat) (p : payload) (w : status) : outcome status :=
  match h with
  | 0%nat => Returned (mkStatus true "connected")
  | 1%nat => Returned (mkStatus false "disconnected")
  | 2%nat => Returned (mkStatus (p_isConnected w) "error")
  | 3%nat => Returned (mkStatus (p_isConnected w) "failed")
  | _ => Returned w
  end.

(** The effect with dependencies [[isAuthenticated, token]]: the calls
    its body makes, given the provider's [isConnected] of that render,
    and the call its cleanup makes. *)
Definition connect_effect (isAuthenticated : bool) (tok : option string)
    (isConn : bool) (ctor_ok : bool) : list event :=
  if isAuthenticated && token_truthy tok then [Connect tok ctor_ok]
  else if isConn then [Disconnect]
  else [].

Definition connect_cleanup : list event := [Disconnect].

(** The effect with no dependencies: its body and its cleanup. *)
Definition status_effect : list event :=
  [Subscribe "connected" handleConnected;
   Subscribe "disconnected" handleDisconnected;
   Subscribe "error" handleError;
   Subscribe "max_reconnect_attempts" handleMaxReconnectAttempts].

Definition status_cleanup : list event :=
  [Unsubscribe "connected" handleConnected;
   Unsubscribe "disconnected" handleDisconnected;
   Unsubscribe "error" handleError;
   Unsubscribe "max_reconnect_attempts" handleMaxReconnectAttempts].

(** Mounting runs both bodies in order; a render in which the first
    effect's dependencies changed runs its cleanup and then its body. *)
Definition mount (isAuthenticated : bool) (tok : option string)
    (ctor_ok : bool) : list event :=
  connect_effect isAuthenticated tok false ctor_ok ++ status_effect.

Definition rerender (isAuthenticated : bool) (tok : option string)
    (isConn : bool) (ctor_ok : bool) : list event :=
  connect_cleanup ++ connect_effect isAuthenticated tok isConn ctor_ok.

(** [reconnect()]: [disconnect()] at once, [connect(token)] 100 ms later
    when authenticated. *)
Definition reconnect (isAuthenticated : bool) (tok : option string)
    (ctor_ok : bool) : list event :=
  Disconnect ::
  (if isAuthenticated && token_truthy tok then [Connect tok ctor_ok] else []).

(** The four listeners are registered, each for its event. *)
Definition wired (s : @state status) : Prop :=
  handleConnected ∈ registered "connected" s /\
  handleDisconnected ∈ registered "disconnected" s /\
  handleError ∈ registered "error" s /\
  handleMaxReconnectAttempts ∈ registered "max_reconnect_attempts" s.

(** Events that come from the socket, its timeouts and [connect]. *)
Definition transport_event (e : event) : Prop :=
  match e with
  | Connect _ _ | OnOpen | OnClose _ _ | OnError | TimerFires _ _ => True
  | _ => False
  end.

End StatusProvider.

(** ** Counting the resources the service holds *)

Module ServiceLog.
Import WebSocketService.

Definition interval_sets (l : list effect) : nat :=
  length (omap (fun e => match e with SetInterval n => Some n | _ => None end) l).

Definition interval_clears (l : list effect) : nat :=
  length (omap (fun e => match e with ClearInterval => Some tt | _ => None end) l).

Definition closes (l : list effect) : nat :=
  length (omap (fun e => match e with WsClose a => Some a | _ => None end) l).

(** Intervals set and not cleared: one while the service holds an
    interval id, none otherwise. *)
Definition one_heartbeat {W : Type} (s : @state W) : Prop :=
  interval_sets (log s)
  = (interval_clears (log s) + if pingInterval s then 1 else 0)%nat.

(** Every socket created has been told to close, but at most the one the
    service holds. *)
Definition one_socket {W : Type} (s : @state W) : Prop :=
  (length (sockets (log s))
   <= closes (log s) + match ws s with Some _ => 1 | None => 0 end)%nat.

(** No listener is registered for any event. *)
Definition deaf {W : Type} (s : @state W) : Prop :=
  forall ev, registered ev s = [].

(** Neither a subscription nor a direct call of a listener set. *)
Definition not_subscribe (e : event) : Prop :=
  match e with
  | Subscribe _ _ => False
  | _ => True
  end.

End ServiceLog.

(** ** The HTTP client's interceptors *)

Module Api.

(** The browser state the interceptors touch: [localStorage], the path
    of the page, and the address assigned to [window.location.href], if
    one was. *)
Record browser := mkBrowser {
  localStorage : gmap string string;
  pathname : string;
  href : option string
}.

(** A request configuration: its headers and whether its body is a
    [FormData]. *)
Record config := mkConfig {
  headers : gmap string string;
  form_data : bool
}.

(** The instance's default headers, and [createAuthConfig(token)] merged
    into them. *)
Definition default_config (form : bool) : config :=
  mkConfig {[ "Content-Type"%string := "application/json"%string ]} form.

Definition createAuthConfig (tok : string) (form : bool) : config :=
  mkConfig (<[ "Authorization"%string := ("Bearer " +:+ tok)%string ]>
              (headers (default_config form))) form.

(** Truthiness of a stored string: a missing key and the empty string are
    falsy. *)
Definition truthy (v : option string) : bool :=
  match v with
  | Some t => negb (String.eqb t EmptyString)
  | None => false
  end.

(** The request interceptor. *)
Definition request_interceptor (b : browser) (c : config) : config :=
  let token := localStorage b !! "token"%string in
  let h1 :=
    match token with
    | Some t =>
        if truthy token
        then <[ "Authorization"%string := ("Bearer " +:+ t)%string ]> (headers c)
        else headers c
    | None => headers c
    end in
  let h2 := if form_data c then delete "Content-Type"%string h1 else h1 in
  mkConfig h2 (form_data c).

(** A failed request: the response, if one arrived, with its status, its
    [retry-after] header and the [detail] of its body. *)
Record response := mkResponse {
  status : Z;
  retry_after : option string;
  detail : option string
}.

(** What the returned promise is rejected with: a response-shaped object
    whose status is absent for a network error. *)
Record rejection := mkRejection {
  r_status : option Z;
  r_detail : option string
}.

Definition on_auth_page (b : browser) : bool :=
  String.eqb (pathname b) "/login" || String.eqb (pathname b) "/register".

(** The error handler of the response interceptor. *)
Definition response_error_interceptor (e : option response) (b : browser)
    : rejection * browser :=
  match e with
  | None =>
      (mkRejection None
         (Some "Network error. Please check your connection."%string), b)
  | Some r =>
      let b1 :=
        if (status r =? 401) && negb (on_auth_page b)
        then mkBrowser (delete "user"%string
                          (delete "token"%string (localStorage b)))
                       (pathname b) (Some "/login"%string)
        else b in
      let detail1 :=
        if status r =? 429
        then Some ("Too many requests. Please try again "
                   +:+ (match retry_after r with
                        | Some t =>
                            if truthy (retry_after r)
                            then "in " +:+ t +:+ " seconds"
                            else "later"
                        | None => "later"
                        end)
                   +:+ ".")%string
        else detail r in
      (mkRejection (Some (status r)) detail1, b1)
  end.

(** [err.response?.data?.detail || fallback], as the callers read the
    rejection. *)
Definition message_of (rj : rejection) (fallback : string) : string :=
  match r_detail rj with
  | Some d => if truthy (r_detail rj) then d else fallback
  | None => fallback
  end.

End Api.

(** ** The authentication provider *)

Module Auth.

Section Provider.

(** [JSON.stringify] on a user record. *)
Variable stringify : Data.user -> string.

(** React state of [AuthProvider], and [localStorage]. *)
Record state := mkState {
  user : option Data.user;
  token : option string;
  loading : bool;
  error : option string;
  localStorage : gmap string string
}.

(** The first render: the token is read from [localStorage]. *)
Definition init (storage : gmap string string) : state :=
  mkState None (storage !! "token"%string) true None storage.

(** [isAuthenticated: !!token && !!user]. *)
Definition isAuthenticated (st : state) : bool :=
  Api.truthy (token st) && bool_decide (is_Some (user st)).

Definition store_user (u : Data.user) (storage : gmap string string)
    : gmap string string :=
  <[ "user"%string := stringify u ]> storage.

Definition clear_credentials (storage : gmap string string)
    : gmap string string :=
  delete "user"%string (delete "token"%string storage).

(** What happens to the provider: each [async] function is cut at its
    [await]s. *)
Inductive event :=
| LoadUserSkipped
| LoadUserResolved (u : Data.user)
| LoadUserRejected
| LoginStarted
| LoginTokenReceived (access_token : string)
| LoginUserLoaded (u : Data.user)
| LoginFailed (message : string)
| Logout
| UpdateStarted
| UpdateResolved (u : Data.user)
| UpdateRejected (message : string)
| ClearError.

Definition step (st : state) (e : event) : state :=
  match e with
  | LoadUserSkipped =>
      mkState (user st) (token st) false (error st) (localStorage st)
  | LoadUserResolved u =>
      mkState (Some u) (token st) false (error st)
              (store_user u (localStorage st))
  | LoadUserRejected =>
      mkState None None false (error st)
              (clear_credentials (localStorage st))
  | LoginStarted =>
      mkState (user st) (token st) true None (localStorage st)
  | LoginTokenReceived access_token =>
      mkState (user st) (Some access_token) (loading st) (error st)
              (<[ "token"%string := access_token ]> (localStorage st))
  | LoginUserLoaded u =>
      mkState (Some u) (token st) false (error st)
              (store_user u (localStorage st))
  | LoginFailed message =>
      mkState (user st) (token st) false (Some message) (localStorage st)
  | Logout =>
      mkState None None (loading st) None
              (clear_credentials (localStorage st))
  | UpdateStarted =>
      mkState (user st) (token st) (loading st) None (localStorage st)
  | UpdateResolved u =>
      mkState (Some u) (token st) (loading st) (error st)
              (store_user u (localStorage st))
  | UpdateRejected message =>
      mkState (user st) (token st) (loading st) (Some message)
              (localStorage st)
  | ClearError =>
      mkState (user st) (token st) (loading st) None (localStorage st)
  end.

Definition run (es : list event) (st : state) : state :=
  fold_left step es st.

(** How the request of [loadUser] ends. *)
Inductive loaded :=
| UserLoaded (u : Data.user)
| UserRejected.

(** The effect with dependency [token]. It runs [loadUser] after a
    render whose token differs from that of the render before. With a
    truthy token [loadUser] awaits [getMe]; a rejection sets the token to
    [null], which runs the effect once more, now for a falsy token. *)
Definition token_effect (before : option string) (t : string) (o : loaded)
    : list event :=
  if decide (before = Some t) then []
  else if Api.truthy (Some t) then
    match o with
    | UserLoaded u => [LoadUserResolved u]
    | UserRejected => [LoadUserRejected; LoadUserSkipped]
    end
  else [LoadUserSkipped].

(** A login whose first request gives the token [t] and whose second
    request, [getMe(t)], is rejected. [setToken(t)] starts the effect
    above while the second request is out; [i] of the effect's steps
    have happened when the rejection arrives. *)
Definition login_fails_late (st : state) (t message : string) (o : loaded)
    (i : nat) : list event :=
  [LoginStarted; LoginTokenReceived t]
  ++ take i (token_effect (token st) t o)
  ++ [LoginFailed message]
  ++ drop i (token_effect (token st) t o).

(** The browser as the interceptors see it while the provider is in
    state [st]. *)
Definition browser_of (path : string) (st : state) : Api.browser :=
  Api.mkBrowser (localStorage st) path None.

End Provider.

End Auth.

(** ** From a frame to the feed *)

Module Wire.
Import Inbound.

(** The value a feed handler compares with [post.id] by [===]: only a
    number can be equal to one. *)
Definition post_id_of (v : jsval) : option Z :=
  match v with
  | Num n => Some n
  | _ => None
  end.

(** A comment handler called with [undefined]: an unmounted feed
    returns at once, and on an empty list the callback given to
    [prev.map] never runs, so in both cases the result is that of an
    event without [post_id]; on a mounted feed with at least one post the
    callback reads [post_id] of [undefined] and throws ([None]). *)
Definition undefined_payload (handler : option Z -> Feed.state -> Feed.state)
    (c : Feed.ctx) (st : Feed.state) : option Feed.state :=
  if Feed.isMounted c
     && match Feed.posts st with [] => false | _ :: _ => true end
  then None
  else Some (handler None st).

(** The feed's reaction to what [handleMessage] emits for a frame, for
    the two comment events; other emissions are not its concern here. *)
Definition feed_reaction (c : Feed.ctx) (m : message) (st : Feed.state)
    : option Feed.state :=
  match handleMessage m with
  | EmitAs ev payload =>
      if String.eqb ev "new_comment"
      then match payload with
           | Some d =>
               Some (FeedEvents.on_new_comment c
                       (post_id_of (get "post_id" d)) st)
           | None => undefined_payload (FeedEvents.on_new_comment c) c st
           end
      else if String.eqb ev "comment_deleted"
      then match payload with
           | Some d =>
               Some (FeedEvents.on_comment_deleted c
                       (post_id_of (get "post_id" d)) st)
           | None => undefined_payload (FeedEvents.on_comment_deleted c) c st
           end
      else Some st
  | NoEmission => Some st
  end.

(** Sample frames: the post id beside [data], and inside it. *)
Definition comment_frame_outer : message :=
  mkMessage "new_comment" (Some [("id", Num 70)]%string) (Num 1).

Definition comment_frame_inner : message :=
  mkMessage "new_comment"
    (Some [("id", Num 70); ("post_id", Num 1)]%string) Undefined.

End Wire.


(** ** Listeners that leave the application state alone *)

Module Lifecycle.
Import WebSocketService.

Section Inert.

Context {W : Type}.
Variable behaviour : nat -> payload -> W -> outcome W.

(** Listener [h] returns without changing the application state. *)
Definition inert (h : nat) : Prop :=
  forall p w, behaviour h p w = Returned w.

(** Every registered listener is inert. *)
Definition all_inert (s : @state W) : Prop :=
  forall ev h, h ∈ registered ev s -> inert h.

End Inert.

(** What the heartbeat bookkeeping reads and writes: the interval slot,
    the connected flag, and the numbers of intervals set and cleared. *)
Definition heartbeat {W : Type} (s : @state W) : bool * bool * nat * nat :=
  (pingInterval s, isConnected s, ServiceLog.interval_sets (log s),
   ServiceLog.interval_clears (log s)).

(** The interval runs exactly while the service considers itself
    connected, and it is the only one not cleared. *)
Definition heartbeat_ok {W : Type} (s : @state W) : Prop :=
  pingInterval s = isConnected s /\ ServiceLog.one_heartbeat s.

(** The event each of the provider's listeners is meant for. *)
Definition own_event (h : nat) : option string :=
  match h with
  | 0%nat => Some "connected"%string
  | 1%nat => Some "disconnected"%string
  | 2%nat => Some "error"%string
  | 3%nat => Some "max_reconnect_attempts"%string
  | _ => None
  end.

(** The provider's listeners are registered for their own event only. *)
Definition exclusive (s : @state StatusProvider.status) : Prop :=
  forall ev h name,
    h ∈ registered ev s -> own_event h = Some name -> ev = name.

(** None of the provider's listeners is subscribed by [es]. *)
Definition foreign_subscriptions (es : list event) : Prop :=
  forall ev h, Subscribe ev h ∈ es -> own_event h = None.

(** A page served over http from [localhost]: the provider mounted
    without a session, and a service with a reconnect pending. *)
Definition mounted : @state StatusProvider.status :=
  run StatusProvider.behaviour false "localhost"
      (StatusProvider.mount false None true)
      (constructor StatusProvider.init).

Definition reconnecting : @state unit :=
  mkState None ∅ 1 5 1000 false (Some "t0k3n"%string) false tt [1000] [].

End Lifecycle.


(** ** The form that creates a post *)

Module CreatePost.

(** A selected file: its MIME type and its size in bytes. *)
Record file := mkFile { f_type : string; f_size : Z }.

(** React state of the form. *)
Record state := mkState {
  content : string;
  image : option file;
  imagePreview : option string;
  isSubmitting : bool
}.

Definition init : state := mkState EmptyString None None false.

Definition MAX_CONTENT_LENGTH : Z := 500.

(** [s.length]. A string of the form is modelled code unit by code
    unit, each character standing for one UTF-16 code unit; the
    characters of the model reach the code units below 256 only, so the
    model speaks of Latin-1 text. *)
Definition len (s : string) : Z := Z.of_nat (String.length s).

Definition remainingChars (st : state) : Z :=
  MAX_CONTENT_LENGTH - len (content st).

Definition allowedTypes : list string :=
  ["image/jpeg"; "image/png"; "image/gif"; "image/webp"]%string.

Definition maxSize : Z := 5 * 1024 * 1024.

(** [l.includes(x)]. *)
Definition includes (x : string) (l : list string) : bool :=
  existsb (String.eqb x) l.

(** [handleImageSelect]: [f] is [e.target.files?.[0]]; the second
    component is the error toast, if one is shown. *)
Definition handleImageSelect (f : option file) (st : state)
    : state * option string :=
  match f with
  | None => (st, None)
  | Some file =>
      if negb (includes (f_type file) allowedTypes)
      then (st, Some "Please select a valid image file (JPEG, PNG, GIF, or WebP)"%string)
      else if maxSize <? f_size file
      then (st, Some "Image must be less than 5MB"%string)
      else (mkState (content st) (Some file) (imagePreview st)
                    (isSubmitting st), None)
  end.

(** [reader.onloadend]. *)
Definition onloadend (result : string) (st : state) : state :=
  mkState (content st) (image st) (Some result) (isSubmitting st).

Definition removeImage (st : state) : state :=
  mkState (content st) None None (isSubmitting st).

Definition setContent (v : string) (st : state) : state :=
  mkState v (image st) (imagePreview st) (isSubmitting st).

(** What [postsAPI.createPost] is called with. *)
Record request := mkRequest { r_content : string; r_image : option file }.

(** [handleSubmit] up to the [await]: an error toast, or the request and
    the state while it is out. *)
Inductive submission :=
| Refused (toast : string)
| Sent (rq : request) (st : state).

Section Form.

(** [String.prototype.trim]. *)
Variable trim : string -> string.

Definition handleSubmit_start (st : state) : submission :=
  let trimmedContent := trim (content st) in
  if String.eqb trimmedContent EmptyString
  then Refused "Please enter some content"
  else if MAX_CONTENT_LENGTH <? len trimmedContent
  then Refused "Content must be 500 characters or less"
  else Sent (mkRequest trimmedContent (image st))
            (mkState (content st) (image st) (imagePreview st) true).

(** The [disabled] attribute of the submit button, negated. *)
Definition submit_enabled (st : state) : bool :=
  negb (String.eqb (trim (content st)) EmptyString
        || (remainingChars st <? 0)
        || isSubmitting st).

End Form.

(** [handleSubmit] after the request resolved, and after it was
    rejected. *)
Definition handleSubmit_resolved (st : state) : state :=
  let st1 := removeImage (setContent EmptyString st) in
  mkState (content st1) (image st1) (imagePreview st1) false.

Definition handleSubmit_rejected (st : state) : state :=
  mkState (content st) (image st) (imagePreview st) false.

(** What happens to the form. *)
Inductive event :=
| ContentChanged (v : string)
| ImageSelected (f : option file)
| ImageLoaded (result : string)
| ImageRemoved
| SubmitStarted
| SubmitResolved
| SubmitRejected.

Definition step (trim : string -> string) (st : state) (e : event)
    : state :=
  match e with
  | ContentChanged v => setContent v st
  | ImageSelected f => fst (handleImageSelect f st)
  | ImageLoaded result => onloadend result st
  | ImageRemoved => removeImage st
  | SubmitStarted =>
      match handleSubmit_start trim st with
      | Sent _ st' => st'
      | Refused _ => st
      end
  | SubmitResolved => handleSubmit_resolved st
  | SubmitRejected => handleSubmit_rejected st
  end.

Definition run (trim : string -> string) (es : list event) (st : state)
    : state :=
  fold_left (step trim) es st.

(** A file the form accepts. *)
Definition acceptable (f : file) : Prop :=
  f_type f ∈ allowedTypes /\ f_size f <= 5242880.

(** A [trim] for the examples: it removes the blanks at both ends. *)
Fixpoint drop_blanks (s : string) : string :=
  match s with
  | String c s' =>
      if Ascii.eqb c (Ascii.ascii_of_nat 32) then drop_blanks s' else s
  | EmptyString => EmptyString
  end.

Fixpoint rev_onto (s acc : string) : string :=
  match s with
  | String c s' => rev_onto s' (String c acc)
  | EmptyString => acc
  end.

Definition trim_blanks (s : string) : string :=
  rev_onto (drop_blanks (rev_onto (drop_blanks s) EmptyString)) EmptyString.

End CreatePost.

(** ** Loading further pages while scrolling *)

Module InfiniteScroll.
Import Feed.

(** The effect installs an observer unless a fetch is running or nothing
    is left to load. *)
Definition observing (st : state) : bool :=
  negb (loading st || negb (hasMore st) || loadingMore st).

(** The observer's callback: the page it asks for and the state after
    the part of [fetchPosts] that precedes the [await], or [None] when
    it does nothing. *)
Definition on_intersect (c : ctx) (isIntersecting : bool) (st : state)
    : option (Z * state) :=
  if observing st && isIntersecting && hasMore st && negb (loadingMore st)
     && isMounted c
  then Some (page st + 1, fetchPosts_begin (page st + 1) st)
  else None.

End InfiniteScroll.

(** ** The posts hook *)

Module UsePosts.
Import Data.

(** [addPost], [removePost], [updatePost], [updateLikeStatus] and
    [updateCommentCount], as functions on the list of posts. *)
Definition addPost (newPost : post) (prev : list post) : list post :=
  newPost :: prev.

Definition removePost (postId : Z) (prev : list post) : list post :=
  filter (fun p => id p ≠ postId) prev.

Definition updatePost (updatedPost : post) (prev : list post) : list post :=
  map (fun p => if id p =? id updatedPost then updatedPost else p) prev.

Definition updateLikeStatus (postId likesCount : Z) (isLiked : bool)
    (prev : list post) : list post :=
  map (fun p =>
         if id p =? postId
         then mkPost (id p) (author_id p) (content p) likesCount
                     (comments_count p) isLiked
         else p) prev.

Definition updateCommentCount (postId delta : Z) (prev : list post)
    : list post :=
  map (fun p =>
         if id p =? postId
         then FeedEvents.with_comments_count
                (Z.max 0 (FeedEvents.js_or (comments_count p) 0 + delta)) p
         else p) prev.

(** The listeners the hook subscribes while connected. [userId] is
    [None] for the global feed. *)
Definition on_new_post (userId : option Z) (data : post) (prev : list post)
    : list post :=
  if negb (Feed.truthy userId) then
    if existsb (fun p => id p =? id data) prev then prev else data :: prev
  else prev.

Definition on_like_update (data : like_update) (prev : list post)
    : list post :=
  map (fun p =>
         if id p =? lu_post_id data
         then mkPost (id p) (author_id p) (content p) (lu_likes_count data)
                     (comments_count p) (is_liked p)
         else p) prev.

Definition on_post_deleted (post_id : Z) (prev : list post) : list post :=
  filter (fun p => id p ≠ post_id) prev.

Definition on_new_comment (post_id : option Z) (prev : list post)
    : list post :=
  map (fun p =>
         if Feed.strict_eq (id p) post_id
         then FeedEvents.with_comments_count
                (FeedEvents.js_or (comments_count p) 0 + 1) p
         else p) prev.

Definition on_comment_deleted (post_id : option Z) (prev : list post)
    : list post :=
  map (fun p =>
         if Feed.strict_eq (id p) post_id
         then FeedEvents.with_comments_count
                (Z.max 0 (FeedEvents.js_or (comments_count p) 1 - 1)) p
         else p) prev.

(** A post without its [is_liked] flag. *)
Definition unflagged (p : post) : post :=
  mkPost (id p) (author_id p) (content p) (likes_count p) (comments_count p)
         false.

End UsePosts.


(** * Properties of the feed component *)

(** Closed goals on concrete lists are settled by evaluation. *)
Ltac solve_NoDup :=
  match goal with
  | |- ?P => apply (bool_decide_unpack P); vm_compute; exact I
  end.

(** Expose the record built by the setters of the service state. *)
Ltac unfold_setters :=
  unfold WebSocketService.set_ws, WebSocketService.set_listeners,
    WebSocketService.set_reconnectAttempts, WebSocketService.set_isConnected,
    WebSocketService.set_token, WebSocketService.set_pingInterval,
    WebSocketService.set_world, WebSocketService.set_timers,
    WebSocketService.push in *;
  cbn [WebSocketService.ws WebSocketService.listeners
       WebSocketService.reconnectAttempts WebSocketService.maxReconnectAttempts
       WebSocketService.reconnectDelay WebSocketService.isConnected
       WebSocketService.token WebSocketService.pingInterval
       WebSocketService.world WebSocketService.timers WebSocketService.log]
    in *.

(** The same by call-by-value evaluation, for the goal only: the result
    stays linear in the number of nested setters. *)
Ltac reduce_setters :=
  cbv [WebSocketService.set_ws WebSocketService.set_listeners
       WebSocketService.set_reconnectAttempts WebSocketService.set_isConnected
       WebSocketService.set_token WebSocketService.set_pingInterval
       WebSocketService.set_world WebSocketService.set_timers
       WebSocketService.push
       WebSocketService.ws WebSocketService.listeners
       WebSocketService.reconnectAttempts WebSocketService.maxReconnectAttempts
       WebSocketService.reconnectDelay WebSocketService.isConnected
       WebSocketService.token WebSocketService.pingInterval
       WebSocketService.world WebSocketService.timers WebSocketService.log
       WebSocketService.disconnect WebSocketService.stopPingInterval].

Module FeedProps.
Import Data Feed.

Lemma shouldAdd_false (c : ctx) (data : post) :
  shouldAdd c data = false <-> scoped_elsewhere c data.
Proof.
  unfold shouldAdd, scoped_elsewhere, truthy, strict_eq.
  destruct (userId c) as [u|]; simpl.
  - destruct (Z.eqb_spec u 0) as [->|Hu]; simpl.
    + split; [discriminate|]. intros (u & [= <-] & Hu & _). congruence.
    + destruct (Z.eqb_spec (author_id data) u) as [Ha|Ha].
      * split; [discriminate|]. intros (u' & [= <-] & _ & Hne). congruence.
      * split; [|reflexivity]. intros _. exists u. auto.
  - split; [discriminate|]. intros (u & Hu & _). discriminate.
Qed.

Lemma exists_id_spec (x : Z) (l : list post) :
  exists_id x l = true <-> x ∈ ids l.
Proof.
  unfold exists_id, ids. induction l as [|p l IH]; simpl.
  - split; [discriminate|]. intros H. inversion H.
  - rewrite orb_true_iff, IH, elem_of_cons.
    destruct (Z.eqb_spec (id p) x); intuition congruence.
Qed.

Lemma exists_id_false (x : Z) (l : list post) :
  exists_id x l = false <-> x ∉ ids l.
Proof.
  rewrite <- exists_id_spec. destruct (exists_id x l); intuition congruence.
Qed.

Lemma same_actor_spec (c : ctx) (data : like_update) :
  same_actor c data = true <-> actor_is_viewer c data.
Proof.
  unfold same_actor, actor_is_viewer.
  destruct (viewer c) as [u|], (lu_user data) as [a|].
  - rewrite Z.eqb_eq. split.
    + intros H. exists u, a. auto.
    + intros (u' & a' & [= <-] & [= <-] & H). exact H.
  - split; [discriminate|]. intros (? & ? & _ & H & _). discriminate.
  - split; [discriminate|]. intros (? & ? & H & _). discriminate.
  - split; [discriminate|]. intros (? & ? & H & _). discriminate.
Qed.

(** The append branch is plain concatenation. *)
Lemma fetchPosts_append_posts (c : ctx) (n : Z) (r : response) (st : state) :
  isMounted c = true ->
  posts (fetchPosts_resolve c n true r st) = posts st ++ r_posts r.
Proof.
  intros Hm. unfold fetchPosts_resolve, fetchPosts_finally.
  rewrite Hm. reflexivity.
Qed.

Lemma fetchPosts_append_posts_example :
  posts (fetchPosts_resolve at_top 2 true (mkResponse [sample 1] false)
           (with_posts [sample 2]))
  = [sample 2; sample 1].
Proof. apply fetchPosts_append_posts. reflexivity. Defined.

(** C1. Appending a fetched page does not keep post ids unique: with
    posts 3 and 2 on screen, a second page that starts again at post 2
    (the page boundary moved because a post was inserted meanwhile)
    yields the ids 3, 2, 2, 1. *)
Theorem fetchPosts_append_duplicates :
  let st := with_posts [sample 3; sample 2] in
  let r := mkResponse [sample 2; sample 1] false in
  NoDup (ids (posts st)) /\
  NoDup (ids (r_posts r)) /\
  ids (posts (fetchPosts_resolve at_top 2 true r st)) = [3; 2; 2; 1] /\
  ~ NoDup (ids (posts (fetchPosts_resolve at_top 2 true r st))).
Proof.
  simpl. repeat split.
  - solve_NoDup.
  - solve_NoDup.
  - intros H. apply NoDup_cons in H as [_ H].
    apply NoDup_cons in H as [H _]. apply H. left.
Qed.

(** The sibling insertion paths do keep ids unique. *)
Lemma handleLocalPostCreated_NoDup (p : post) (st : state) :
  NoDup (ids (posts st)) ->
  NoDup (ids (posts (handleLocalPostCreated p st))).
Proof.
  intros H. unfold handleLocalPostCreated.
  destruct (exists_id (id p) (posts st)) eqn:E; [exact H|].
  simpl. apply NoDup_cons. split; [|exact H].
  apply exists_id_false. exact E.
Qed.

Lemma handleLocalPostCreated_NoDup_example :
  NoDup (ids (posts (handleLocalPostCreated (sample 2)
                       (with_posts [sample 2])))).
Proof.
  apply handleLocalPostCreated_NoDup. solve_NoDup.
Defined.

Lemma on_new_post_NoDup (c : ctx) (data : post) (st : state) :
  NoDup (ids (posts st)) -> NoDup (ids (posts (on_new_post c data st))).
Proof.
  intros H. unfold on_new_post.
  destruct (negb (isMounted c)); [exact H|].
  destruct (negb (shouldAdd c data)); [exact H|].
  destruct (exists_id (id data) (posts st)) eqn:E; [exact H|].
  destruct (scrollY c <? 100); simpl; [|exact H].
  apply NoDup_cons. split; [|exact H].
  apply exists_id_false. exact E.
Qed.

Lemma on_new_post_NoDup_example :
  NoDup (ids (posts (on_new_post at_top (sample 1) (with_posts [sample 1])))).
Proof. apply on_new_post_NoDup. solve_NoDup. Defined.

Lemma on_new_posts_NoDup (evs : list (ctx * post)) (st : state) :
  NoDup (ids (posts st)) -> NoDup (ids (posts (on_new_posts evs st))).
Proof.
  unfold on_new_posts. revert st.
  induction evs as [|[c d] evs IH]; intros st H; simpl; [exact H|].
  apply IH. apply on_new_post_NoDup. exact H.
Qed.

Lemma on_new_posts_NoDup_example :
  NoDup (ids (posts (on_new_posts [(at_top, sample 1); (scrolled, sample 2);
                                   (at_top, sample 1)] init))).
Proof. apply on_new_posts_NoDup. constructor. Defined.

(** C2. The [new_post] handler of a mounted feed: an event for a view
    scoped to another author changes nothing; otherwise an event whose
    id is already listed changes nothing; otherwise the post is put in
    front when the scroll offset is below 100 pixels, and else the list
    stays as it is and [newPostsCount] grows by one. Hence no run of
    [new_post] events (with unique ids or not, at any scroll positions)
    introduces a duplicate id. *)
Theorem on_new_post_spec (c : ctx) (data : post) (st : state) :
  isMounted c = true ->
  (scoped_elsewhere c data -> on_new_post c data st = st) /\
  (~ scoped_elsewhere c data -> id data ∈ ids (posts st) ->
     on_new_post c data st = st) /\
  (~ scoped_elsewhere c data -> id data ∉ ids (posts st) ->
     scrollY c < 100 ->
     on_new_post c data st =
       mkState (data :: posts st) (loading st) (loadingMore st) (error st)
               (page st) (hasMore st) (newPostsCount st)) /\
  (~ scoped_elsewhere c data -> id data ∉ ids (posts st) ->
     100 <= scrollY c ->
     on_new_post c data st =
       mkState (posts st) (loading st) (loadingMore st) (error st)
               (page st) (hasMore st) (newPostsCount st + 1)) /\
  (forall evs : list (ctx * post),
     NoDup (ids (posts st)) ->
     NoDup (ids (posts (on_new_posts evs st)))).
Proof.
  intros Hm.
  assert (Hs : ~ scoped_elsewhere c data -> shouldAdd c data = true).
  { intros Hn. destruct (shouldAdd c data) eqn:E; [reflexivity|].
    exfalso. apply Hn. apply shouldAdd_false. exact E. }
  unfold on_new_post. rewrite Hm. simpl.
  split; [|split; [|split; [|split]]].
  - intros Hsc. apply shouldAdd_false in Hsc. rewrite Hsc. reflexivity.
  - intros Hn Hin. rewrite (Hs Hn). simpl.
    apply exists_id_spec in Hin. rewrite Hin. reflexivity.
  - intros Hn Hnin Htop. rewrite (Hs Hn). simpl.
    apply exists_id_false in Hnin. rewrite Hnin.
    apply Z.ltb_lt in Htop. rewrite Htop. reflexivity.
  - intros Hn Hnin Hdown. rewrite (Hs Hn). simpl.
    apply exists_id_false in Hnin. rewrite Hnin.
    apply Z.ltb_ge in Hdown. rewrite Hdown. reflexivity.
  - intros evs. apply on_new_posts_NoDup.
Qed.

Lemma on_new_post_spec_witness :
  isMounted scrolled = true /\
  on_new_post scrolled (sample 2) (with_posts [sample 1])
  = mkState [sample 1] false false None 1 true 1.
Proof.
  split; [reflexivity|].
  destruct (on_new_post_spec scrolled (sample 2) (with_posts [sample 1])
              eq_refl) as (_ & _ & _ & H & _).
  apply H.
  - intros (u & Hu & _). discriminate Hu.
  - simpl. rewrite list_elem_of_singleton. discriminate.
  - simpl. lia.
Defined.

(** A viewer who has scrolled down gets post 2 pushed: the list stays and
    the counter shows 1; loading the new posts fetches the first page
    again and clears the counter. *)
Example pending_posts_then_load_new :
  let st1 := on_new_post scrolled (sample 2) (with_posts [sample 1]) in
  let st2 := fetchPosts_resolve scrolled 1 false
               (mkResponse [sample 2; sample 1] false)
               (loadNewPosts_begin st1) in
  posts st1 = [sample 1] /\ newPostsCount st1 = 1 /\
  posts st2 = [sample 2; sample 1] /\ newPostsCount st2 = 0.
Proof. repeat split. Qed.

(** The guard for a view that is being torn down. *)
Lemma on_new_post_unmounted (c : ctx) (data : post) (st : state) :
  isMounted c = false -> on_new_post c data st = st.
Proof. intros H. unfold on_new_post. rewrite H. reflexivity. Qed.

Lemma on_new_post_unmounted_example :
  on_new_post (mkCtx None None false 0) (sample 1) init = init.
Proof. apply on_new_post_unmounted. reflexivity. Defined.

(** A [userId] prop of 0 is falsy, so the view counts as the global
    feed. *)
Example on_new_post_userId_zero :
  posts (on_new_post (mkCtx (Some 0) None true 0) (sample 1) init)
  = [sample 1].
Proof. reflexivity. Qed.

(** What the [like_update] mapper does to one post. *)
Lemma like_mapper_hit (c : ctx) (data : like_update) (p : post) :
  id p = lu_post_id data ->
  like_mapper c data p =
    mkPost (id p) (author_id p) (content p) (lu_likes_count data)
           (comments_count p)
           (if same_actor c data then isLike data else is_liked p).
Proof.
  intros H. unfold like_mapper, apply_like.
  apply Z.eqb_eq in H. rewrite H. reflexivity.
Qed.

Lemma like_mapper_hit_example :
  like_mapper at_top (mkLikeUpdate 1 5 None true) (sample 1)
  = mkPost 1 7 "hello" 5 0 false.
Proof. apply like_mapper_hit. reflexivity. Defined.

Lemma like_mapper_miss (c : ctx) (data : like_update) (p : post) :
  id p <> lu_post_id data -> like_mapper c data p = p.
Proof.
  intros H. unfold like_mapper.
  apply Z.eqb_neq in H. rewrite H. reflexivity.
Qed.

Lemma like_mapper_miss_example :
  like_mapper at_top (mkLikeUpdate 2 5 None true) (sample 1) = sample 1.
Proof. apply like_mapper_miss. discriminate. Defined.

Lemma map_like_mapper_absent (c : ctx) (data : like_update) (l : list post) :
  lu_post_id data ∉ ids l -> map (like_mapper c data) l = l.
Proof.
  unfold ids. induction l as [|p l IH]; simpl; intros H; [reflexivity|].
  apply not_elem_of_cons in H as [Hp Hl].
  rewrite like_mapper_miss by congruence.
  rewrite IH by exact Hl. reflexivity.
Qed.

Lemma map_like_mapper_absent_example :
  map (like_mapper at_top (mkLikeUpdate 9 5 None true)) [sample 1; sample 2]
  = [sample 1; sample 2].
Proof.
  apply map_like_mapper_absent. simpl.
  intros H. apply elem_of_cons in H as [H|H]; [discriminate|].
  apply list_elem_of_singleton in H. discriminate.
Defined.

(** C3. The [like_update] handler of a mounted feed keeps every post at
    its position; a post whose id is the payload's [post_id] gets the
    payload's [likes_count] whatever count it had, gets [is_liked] from
    the payload's [isLike] when the actor is the viewer and keeps its
    [is_liked] when not, and keeps its other fields; every other post
    and the rest of the state are left as they are; when no post has
    that id the handler returns the state it was given. The handler is
    a total function: it has no failing case. *)
Theorem on_like_update_spec (c : ctx) (data : like_update) (st : state) :
  isMounted c = true ->
  length (posts (on_like_update c data st)) = length (posts st) /\
  (forall (i : nat) (p : post),
     posts st !! i = Some p -> id p = lu_post_id data ->
     exists p',
       posts (on_like_update c data st) !! i = Some p' /\
       likes_count p' = lu_likes_count data /\
       (actor_is_viewer c data -> is_liked p' = isLike data) /\
       (~ actor_is_viewer c data -> is_liked p' = is_liked p) /\
       id p' = id p /\ author_id p' = author_id p /\
       content p' = content p /\ comments_count p' = comments_count p) /\
  (forall (i : nat) (p : post),
     posts st !! i = Some p -> id p <> lu_post_id data ->
     posts (on_like_update c data st) !! i = Some p) /\
  on_like_update c data st =
    mkState (posts (on_like_update c data st)) (loading st) (loadingMore st)
            (error st) (page st) (hasMore st) (newPostsCount st) /\
  (lu_post_id data ∉ ids (posts st) -> on_like_update c data st = st).
Proof.
  intros Hm. unfold on_like_update. rewrite Hm. simpl.
  split; [apply length_map|].
  split; [|split; [|split]].
  - intros i p Hi Hid. eexists. split.
    + rewrite list_lookup_fmap, Hi. simpl.
      rewrite (like_mapper_hit _ _ _ Hid). reflexivity.
    + simpl. repeat split; try reflexivity.
      * intros Ha. apply same_actor_spec in Ha. rewrite Ha. reflexivity.
      * intros Hn. destruct (same_actor c data) eqn:E; [|reflexivity].
        exfalso. apply Hn. apply same_actor_spec. exact E.
  - intros i p Hi Hid.
    rewrite list_lookup_fmap, Hi. simpl.
    rewrite (like_mapper_miss _ _ _ Hid). reflexivity.
  - reflexivity.
  - intros Hn. rewrite map_like_mapper_absent by exact Hn.
    destruct st; reflexivity.
Qed.

Lemma on_like_update_spec_witness :
  isMounted at_top = true /\
  on_like_update at_top (mkLikeUpdate 9 5 None true)
    (with_posts [sample 1; sample 2])
  = with_posts [sample 1; sample 2].
Proof.
  split; [reflexivity|].
  destruct (on_like_update_spec at_top (mkLikeUpdate 9 5 None true)
              (with_posts [sample 1; sample 2]) eq_refl)
    as (_ & _ & _ & _ & H).
  apply H. simpl.
  intros Hin. apply elem_of_cons in Hin as [Hin|Hin]; [discriminate|].
  apply list_elem_of_singleton in Hin. discriminate.
Defined.

(** The count is overwritten, not accumulated: the same event twice
    gives the same state as once, and the viewer's own event sets the
    flag. *)
Example on_like_update_overwrites :
  let ev := mkLikeUpdate 1 5 (Some (mkUser 7)) true in
  let st := with_posts [mkPost 1 3 "a" 40 2 false; sample 2] in
  posts (on_like_update at_top ev st) = [mkPost 1 3 "a" 5 2 true; sample 2] /\
  on_like_update at_top ev (on_like_update at_top ev st)
  = on_like_update at_top ev st.
Proof. split; reflexivity. Qed.

End FeedProps.

(** * Properties of the post card *)

Module PostProps.
Import Post.

(** The guard: while a toggle is in flight a further call does nothing. *)
Lemma handleLike_busy (r : api_result) (st : state) :
  isLiking st = true -> handleLike r st = (st, None).
Proof.
  intros H. unfold handleLike, handleLike_start. rewrite H. reflexivity.
Qed.

Lemma handleLike_busy_example :
  handleLike Rejected (mkState true 4 0 true false)
  = (mkState true 4 0 true false, None).
Proof. apply handleLike_busy. reflexivity. Defined.

(** C8. A like toggle started while none is in flight: before the
    request is awaited [isLiked] is flipped and [likesCount] moved by
    one (up when liking, down when unliking), and the pair captured is
    the one the toggle started from; if the request is rejected, then
    whatever the state has become meanwhile, [isLiked] and [likesCount]
    are set back to that pair and a toast is shown; with nothing
    happening meanwhile, the state after the rejection is the state
    before the toggle, up to the like animation flag. *)
Theorem handleLike_optimistic (st : state) :
  isLiking st = false ->
  exists st1,
    handleLike_start st = Some (st1, (isLiked st, likesCount st)) /\
    isLiked st1 = negb (isLiked st) /\
    (isLiked st = false -> likesCount st1 = likesCount st + 1) /\
    (isLiked st = true -> likesCount st1 = likesCount st - 1) /\
    (forall cur,
       let st2 := fst (handleLike_settle Rejected
                         (isLiked st, likesCount st) cur) in
       isLiked st2 = isLiked st /\ likesCount st2 = likesCount st /\
       snd (handleLike_settle Rejected (isLiked st, likesCount st) cur)
       = Some "Failed to update like"%string) /\
    fst (handleLike Rejected st) =
      mkState (isLiked st) (likesCount st) (commentsCount st) (isLiking st)
              (likeAnimation st1).
Proof.
  intros H. unfold handleLike, handleLike_start. rewrite H.
  eexists. split; [reflexivity|]. simpl.
  split; [reflexivity|].
  split; [intros ->; reflexivity|].
  split; [intros ->; reflexivity|].
  split; [intros cur; repeat split|].
  reflexivity.
Qed.

Lemma handleLike_optimistic_witness :
  isLiking (mkState false 4 0 false false) = false /\
  exists st1,
    handleLike_start (mkState false 4 0 false false)
    = Some (st1, (false, 4)) /\ likesCount st1 = 5.
Proof.
  split; [reflexivity|].
  destruct (handleLike_optimistic (mkState false 4 0 false false) eq_refl)
    as (st1 & H1 & _ & H2 & _).
  exists st1. split; [exact H1|]. apply H2. reflexivity.
Defined.

(** A resolved request leaves the optimistic values in place. *)
Example handleLike_resolved :
  handleLike Resolved (mkState false 4 0 false false)
  = (mkState true 5 0 false true, None).
Proof. reflexivity. Qed.

End PostProps.

(** * Properties of the push transport *)

Module ServiceProps.
Import WebSocketService.

Section Props.

Context {W : Type}.
Variable behaviour : nat -> payload -> W -> outcome W.
Variable secure : bool.
Variable host : string.

(** *** The effect log and its projections *)

Lemma delays_app (l1 l2 : list effect) :
  delays (l1 ++ l2) = delays l1 ++ delays l2.
Proof. apply omap_app. Qed.

Lemma emitted_app (ev : string) (l1 l2 : list effect) :
  emitted ev (l1 ++ l2) = emitted ev l1 ++ emitted ev l2.
Proof. apply omap_app. Qed.

Lemma sockets_app (l1 l2 : list effect) :
  sockets (l1 ++ l2) = sockets l1 ++ sockets l2.
Proof. apply omap_app. Qed.

Lemma calls_app (ev : string) (l1 l2 : list effect) :
  calls ev (l1 ++ l2) = calls ev l1 ++ calls ev l2.
Proof. apply omap_app. Qed.

Lemma console_errors_app (l1 l2 : list effect) :
  console_errors (l1 ++ l2) = console_errors l1 ++ console_errors l2.
Proof. apply omap_app. Qed.

Lemma invocations_app (ev : string) (h : nat) (l1 l2 : list effect) :
  invocations ev h (l1 ++ l2) = (invocations ev h l1 + invocations ev h l2)%nat.
Proof.
  unfold invocations. rewrite calls_app, filter_app, length_app. reflexivity.
Qed.

Lemma delays_listeners_effects (ev : string) (p : payload) (hs : list nat)
    (w : W) :
  delays (listeners_effects behaviour ev p hs w) = [].
Proof.
  revert w. induction hs as [|h hs IH]; intros w; simpl; [reflexivity|].
  destruct (throws (behaviour h p w)); simpl; apply IH.
Qed.

Lemma sockets_listeners_effects (ev : string) (p : payload) (hs : list nat)
    (w : W) :
  sockets (listeners_effects behaviour ev p hs w) = [].
Proof.
  revert w. induction hs as [|h hs IH]; intros w; simpl; [reflexivity|].
  destruct (throws (behaviour h p w)); simpl; apply IH.
Qed.

Lemma emitted_listeners_effects (ev' ev : string) (p : payload)
    (hs : list nat) (w : W) :
  emitted ev' (listeners_effects behaviour ev p hs w) = [].
Proof.
  revert w. induction hs as [|h hs IH]; intros w; simpl; [reflexivity|].
  destruct (throws (behaviour h p w)); simpl; apply IH.
Qed.

Lemma calls_listeners_effects (ev : string) (p : payload) (hs : list nat)
    (w : W) :
  calls ev (listeners_effects behaviour ev p hs w) = hs.
Proof.
  revert w. induction hs as [|h hs IH]; intros w; simpl; [reflexivity|].
  rewrite String.eqb_refl.
  destruct (throws (behaviour h p w)); simpl; rewrite IH; reflexivity.
Qed.

Lemma calls_listeners_effects_other (ev' ev : string) (p : payload)
    (hs : list nat) (w : W) :
  ev <> ev' -> calls ev' (listeners_effects behaviour ev p hs w) = [].
Proof.
  intros Hne. apply String.eqb_neq in Hne.
  revert w. induction hs as [|h hs IH]; intros w; simpl; [reflexivity|].
  rewrite Hne.
  destruct (throws (behaviour h p w)); simpl; apply IH.
Qed.

Lemma console_errors_listeners_effects (ev : string) (p : payload)
    (hs : list nat) (w : W) :
  length (console_errors (listeners_effects behaviour ev p hs w))
  = length (throwers behaviour p hs w).
Proof.
  revert w. induction hs as [|h hs IH]; intros w; simpl; [reflexivity|].
  destruct (throws (behaviour h p w)); simpl; rewrite IH; reflexivity.
Qed.

(** *** [emit] in closed form *)

Lemma fold_call_listener (ev : string) (p : payload) (hs : list nat)
    (s : state) :
  fold_left (call_listener behaviour ev p) hs s
  = mkState (ws s) (listeners s) (reconnectAttempts s)
      (maxReconnectAttempts s) (reconnectDelay s) (isConnected s) (token s)
      (pingInterval s) (listeners_world behaviour p hs (world s)) (timers s)
      (log s ++ listeners_effects behaviour ev p hs (world s)).
Proof.
  revert s. induction hs as [|h hs IH]; intros s; simpl.
  - rewrite app_nil_r. destruct s; reflexivity.
  - rewrite IH. unfold call_listener. simpl.
    destruct (behaviour h p (world s)) as [w|w]; simpl.
    + rewrite <- app_assoc. reflexivity.
    + rewrite <- !app_assoc. reflexivity.
Qed.

Lemma emit_eq (ev : string) (p : payload) (s : state) :
  emit behaviour ev p s
  = mkState (ws s) (listeners s) (reconnectAttempts s)
      (maxReconnectAttempts s) (reconnectDelay s) (isConnected s) (token s)
      (pingInterval s) (listeners_world behaviour p (registered ev s) (world s))
      (timers s)
      (log s ++
       Emit ev p ::
       listeners_effects behaviour ev p (registered ev s) (world s)).
Proof.
  unfold WebSocketService.emit, registered. simpl.
  destruct (listeners s !! ev) as [hs|]; simpl.
  - rewrite fold_call_listener. simpl. rewrite <- app_assoc. reflexivity.
  - reflexivity.
Qed.

(** *** The reconnect counter *)

Lemma scheduleReconnect_eq (s : state) :
  scheduleReconnect behaviour s =
    if maxReconnectAttempts s <=? reconnectAttempts s then
      mkState (ws s) (listeners s) (reconnectAttempts s)
        (maxReconnectAttempts s) (reconnectDelay s) (isConnected s) (token s)
        (pingInterval s)
        (listeners_world behaviour PEmpty
           (registered "max_reconnect_attempts" s) (world s))
        (timers s)
        (log s ++ ConsoleLog "Max reconnection attempts reached" ::
           Emit "max_reconnect_attempts" PEmpty ::
           listeners_effects behaviour "max_reconnect_attempts" PEmpty
             (registered "max_reconnect_attempts" s) (world s))
    else
      mkState (ws s) (listeners s) (reconnectAttempts s + 1)
        (maxReconnectAttempts s) (reconnectDelay s) (isConnected s) (token s)
        (pingInterval s) (world s)
        (timers s ++ [reconnectDelay s * 2 ^ reconnectAttempts s])
        (log s ++ [ConsoleLog "Scheduling reconnect attempt";
                   SetTimeout (reconnectDelay s * 2 ^ reconnectAttempts s)]).
Proof.
  unfold scheduleReconnect.
  destruct (maxReconnectAttempts s <=? reconnectAttempts s).
  - rewrite emit_eq. unfold registered. unfold_setters.
    rewrite <- app_assoc. reflexivity.
  - unfold_setters.
    replace (reconnectAttempts s + 1 - 1) with (reconnectAttempts s) by lia.
    rewrite <- app_assoc. reflexivity.
Qed.

Lemma advances_refl (s s' : @state W) :
  maxReconnectAttempts s' = maxReconnectAttempts s ->
  reconnectDelay s' = reconnectDelay s ->
  reconnectAttempts s' = reconnectAttempts s ->
  delays (log s') = delays (log s) ->
  advances s s'.
Proof. unfold advances. auto. Qed.

Lemma scheduleReconnect_advances (s0 s : state) :
  maxReconnectAttempts s = maxReconnectAttempts s0 ->
  reconnectDelay s = reconnectDelay s0 ->
  reconnectAttempts s = reconnectAttempts s0 ->
  delays (log s) = delays (log s0) ->
  advances s0 (scheduleReconnect behaviour s).
Proof.
  intros Hm Hd Ha Hl. rewrite scheduleReconnect_eq.
  destruct (Z.leb_spec (maxReconnectAttempts s) (reconnectAttempts s)).
  - apply advances_refl; simpl; auto.
    rewrite delays_app. simpl. rewrite delays_listeners_effects, app_nil_r.
    exact Hl.
  - unfold advances. simpl. rewrite delays_app, Hm, Hd, Ha, Hl. simpl.
    split; [reflexivity|]. split; [reflexivity|]. right.
    split; [lia|]. split; reflexivity.
Qed.

Lemma connect_advances (tok : option string) (ok : bool) (s0 s : state) :
  maxReconnectAttempts s = maxReconnectAttempts s0 ->
  reconnectDelay s = reconnectDelay s0 ->
  reconnectAttempts s = reconnectAttempts s0 ->
  delays (log s) = delays (log s0) ->
  advances s0 (connect behaviour secure host tok ok s).
Proof.
  intros Hm Hd Ha Hl. unfold connect.
  destruct ok.
  - destruct (ws s) eqn:E; unfold_setters; rewrite E;
      apply advances_refl; unfold_setters; auto;
      rewrite !delays_app; simpl; rewrite !app_nil_r; auto.
  - apply scheduleReconnect_advances;
      destruct (ws s) eqn:E; unfold_setters; rewrite ?E; unfold_setters;
      auto; rewrite !delays_app; simpl; rewrite !app_nil_r; auto.
Qed.


Lemma stopPingInterval_fields (s : @state W) :
  maxReconnectAttempts (stopPingInterval s) = maxReconnectAttempts s /\
  reconnectDelay (stopPingInterval s) = reconnectDelay s /\
  reconnectAttempts (stopPingInterval s) = reconnectAttempts s /\
  delays (log (stopPingInterval s)) = delays (log s) /\
  listeners (stopPingInterval s) = listeners s /\
  timers (stopPingInterval s) = timers s /\
  isConnected (stopPingInterval s) = isConnected s /\
  ws (stopPingInterval s) = ws s /\
  world (stopPingInterval s) = world s /\
  token (stopPingInterval s) = token s.
Proof.
  unfold stopPingInterval. destruct (pingInterval s); unfold_setters;
    rewrite ?delays_app; simpl; rewrite ?app_nil_r; repeat split.
Qed.

Lemma onclose_advances (code : Z) (reason : string) (s : state) :
  advances s (onclose behaviour code reason s).
Proof.
  unfold onclose. rewrite emit_eq.
  destruct (stopPingInterval_fields
              (set_isConnected false
                 (push (ConsoleLog "WebSocket disconnected:") s)))
    as (Hm & Hd & Ha & Hl & _).
  unfold_setters.
  destruct (negb (code =? 1000)).
  - apply scheduleReconnect_advances; unfold_setters; auto.
    rewrite delays_app. simpl. rewrite delays_listeners_effects, app_nil_r.
    rewrite Hl, delays_app. simpl. apply app_nil_r.
  - apply advances_refl; unfold_setters; auto.
    rewrite delays_app. simpl. rewrite delays_listeners_effects, app_nil_r.
    rewrite Hl, delays_app. simpl. apply app_nil_r.
Qed.

Lemma disconnect_advances (s : @state W) : advances s (disconnect s).
Proof.
  unfold disconnect.
  destruct (stopPingInterval_fields s) as (Hm & Hd & Ha & Hl & _).
  destruct (ws (stopPingInterval s)); apply advances_refl; unfold_setters;
    auto.
  rewrite delays_app. simpl. rewrite app_nil_r. exact Hl.
Qed.

Lemma step_advances (s : state) (e : event) :
  e <> OnOpen -> advances s (step behaviour secure host s e).
Proof.
  intros Hne. destruct e as [tok ok| |ev h|ev h|ev p| |code reason| |i ok];
    simpl.
  - apply connect_advances; reflexivity.
  - apply disconnect_advances.
  - apply advances_refl; reflexivity.
  - unfold unsubscribe. destruct (listeners s !! ev);
      apply advances_refl; reflexivity.
  - rewrite emit_eq. apply advances_refl; unfold_setters; auto.
    rewrite delays_app. simpl. rewrite delays_listeners_effects.
    apply app_nil_r.
  - congruence.
  - apply onclose_advances.
  - unfold onerror. rewrite emit_eq. apply advances_refl; unfold_setters; auto.
    rewrite !delays_app. simpl. rewrite delays_listeners_effects.
    rewrite !app_nil_r. reflexivity.
  - destruct (timers s !! i); [|apply advances_refl; reflexivity].
    unfold reconnect_callback. unfold_setters.
    destruct (negb (isConnected s)).
    + apply connect_advances; reflexivity.
    + apply advances_refl; reflexivity.
Qed.

Lemma onopen_resets (s : state) :
  reconnectAttempts (onopen behaviour s) = 0.
Proof.
  unfold onopen, startPingInterval. rewrite emit_eq. unfold_setters.
  match goal with
  | |- context [stopPingInterval ?x] =>
      destruct (stopPingInterval_fields x) as (_ & _ & Ha & _)
  end.
  exact Ha.
Qed.

(** Without an open, the delays scheduled since a state whose counter was 0
    are the first [reconnectAttempts] entries of the backoff table. *)
Lemma run_without_open (evs : list event) (s0 : state) :
  settings_ok s0 -> reconnectAttempts s0 = 0 -> OnOpen ∉ evs ->
  settings_ok (run behaviour secure host evs s0) /\
  0 <= reconnectAttempts (run behaviour secure host evs s0) <= 5 /\
  delays (log (run behaviour secure host evs s0)) =
    delays (log s0) ++
    take (Z.to_nat (reconnectAttempts (run behaviour secure host evs s0)))
         backoff.
Proof.
  intros Hs Ha Hno.
  induction evs as [|e evs IH] using rev_ind.
  - unfold run. simpl. rewrite Ha. simpl. rewrite app_nil_r.
    split; [exact Hs|]. split; [lia|reflexivity].
  - unfold run in *. rewrite fold_left_app. simpl.
    rewrite elem_of_app, list_elem_of_singleton in Hno.
    destruct IH as ((Hm & Hd) & Hr & Hl); [tauto|].
    set (s := fold_left (step behaviour secure host) evs s0) in *.
    destruct (step_advances s e) as (Hm' & Hd' & [[Ha' Hl']|(Hlt & Ha' & Hl')]).
    { intros ->. tauto. }
    + unfold settings_ok. rewrite Hm', Hd', Ha', Hl'. auto.
    + unfold settings_ok. rewrite Hm', Hd', Ha', Hl', Hl, Hd.
      split; [auto|]. split; [lia|].
      rewrite <- app_assoc. f_equal.
      rewrite Hm in Hlt.
      assert (Hc : reconnectAttempts s = 0 \/ reconnectAttempts s = 1 \/
                   reconnectAttempts s = 2 \/ reconnectAttempts s = 3 \/
                   reconnectAttempts s = 4) by lia.
      destruct Hc as [-> | [-> | [-> | [-> | ->]]]]; reflexivity.
Qed.


(** *** The reconnect policy on views *)

Lemma view_scheduleReconnect (s : state) :
  view_of (scheduleReconnect behaviour s) = v_schedule (view_of s).
Proof.
  rewrite scheduleReconnect_eq. unfold v_schedule, view_of. simpl.
  destruct (maxReconnectAttempts s <=? reconnectAttempts s); simpl;
    rewrite ?delays_app, ?emitted_app, ?sockets_app; simpl;
    rewrite ?delays_listeners_effects, ?emitted_listeners_effects,
      ?sockets_listeners_effects, ?app_nil_r; reflexivity.
Qed.

Lemma view_push (e : effect) (s : @state W) :
  (forall d, e <> SetTimeout d) ->
  (forall p, e <> Emit "max_reconnect_attempts" p) ->
  (forall u, e <> NewWebSocket u) ->
  view_of (push e s) = view_of s.
Proof.
  intros Hd He Hu. unfold view_of. unfold_setters.
  rewrite delays_app, emitted_app, sockets_app.
  destruct e as [ev p| | | | d | u | | |]; simpl; rewrite ?app_nil_r;
    try reflexivity.
  - destruct (String.eqb_spec ev "max_reconnect_attempts") as [->|Hne].
    + exfalso. apply (He p). reflexivity.
    + rewrite app_nil_r. reflexivity.
  - exfalso. apply (Hd d). reflexivity.
  - exfalso. apply (Hu u). reflexivity.
Qed.

Lemma view_stopPingInterval (s : @state W) :
  view_of (stopPingInterval s) = view_of s.
Proof.
  unfold stopPingInterval. destruct (pingInterval s); [|reflexivity].
  unfold view_of. unfold_setters.
  rewrite delays_app, emitted_app, sockets_app. simpl.
  rewrite !app_nil_r. reflexivity.
Qed.

Lemma view_emit (ev : string) (p : payload) (s : state) :
  view_of (emit behaviour ev p s) =
    if String.eqb ev "max_reconnect_attempts" then
      mkView (maxReconnectAttempts s) (reconnectDelay s) (reconnectAttempts s)
             (isConnected s) (timers s) (delays (log s))
             (emitted "max_reconnect_attempts" (log s) ++ [p])
             (length (sockets (log s)))
    else view_of s.
Proof.
  rewrite emit_eq. unfold view_of. simpl.
  rewrite delays_app, emitted_app, sockets_app. simpl.
  rewrite delays_listeners_effects, emitted_listeners_effects,
    sockets_listeners_effects, !app_nil_r.
  destruct (String.eqb ev "max_reconnect_attempts"); rewrite ?app_nil_r;
    reflexivity.
Qed.

Lemma view_connect (tok : option string) (ok : bool) (s : state) :
  view_of (connect behaviour secure host tok ok s) = v_connect ok (view_of s).
Proof.
  unfold connect, v_connect.
  assert (Hpre : view_of
            match ws (set_token tok s) with
            | Some _ => push (WsClose None) (set_token tok s)
            | None => set_token tok s
            end = view_of s).
  { destruct (ws (set_token tok s)); [|reflexivity].
    rewrite view_push by discriminate. reflexivity. }
  destruct ok.
  - rewrite <- Hpre. unfold view_of. unfold_setters.
    rewrite delays_app, emitted_app, sockets_app, length_app. simpl.
    rewrite !app_nil_r. f_equal. lia.
  - rewrite view_scheduleReconnect, view_push by discriminate.
    rewrite Hpre. reflexivity.
Qed.

Lemma view_onclose (code : Z) (reason : string) (s : state) :
  view_of (onclose behaviour code reason s) = v_onclose code (view_of s).
Proof.
  unfold onclose, v_onclose.
  assert (Hpre : view_of
            (emit behaviour "disconnected" (PDisconnected code reason)
               (stopPingInterval
                  (set_isConnected false
                     (push (ConsoleLog "WebSocket disconnected:") s))))
            = v_set_connected false (view_of s)).
  { rewrite view_emit. simpl.
    rewrite view_stopPingInterval.
    unfold view_of, v_set_connected. unfold_setters.
    rewrite delays_app, emitted_app, sockets_app. simpl.
    rewrite !app_nil_r. reflexivity. }
  destruct (negb (code =? 1000)).
  - rewrite view_scheduleReconnect, Hpre. reflexivity.
  - exact Hpre.
Qed.

Lemma view_onopen (s : state) :
  view_of (onopen behaviour s) = v_onopen (view_of s).
Proof.
  unfold onopen, startPingInterval, v_onopen.
  match goal with
  | |- view_of (set_pingInterval true (push ?e ?x)) = _ =>
      transitivity (view_of x)
  end.
  { unfold view_of. unfold_setters.
    rewrite delays_app, emitted_app, sockets_app. simpl.
    rewrite !app_nil_r. reflexivity. }
  rewrite view_stopPingInterval, view_emit. simpl.
  unfold view_of. unfold_setters.
  rewrite delays_app, emitted_app, sockets_app. simpl.
  rewrite !app_nil_r. reflexivity.
Qed.

Lemma view_disconnect (s : @state W) :
  view_of (disconnect s) = v_set_connected false (view_of s).
Proof.
  unfold disconnect.
  transitivity (v_set_connected false (view_of (stopPingInterval s))).
  - destruct (ws (stopPingInterval s)); unfold view_of, v_set_connected;
      unfold_setters; rewrite ?delays_app, ?emitted_app, ?sockets_app; simpl;
      rewrite ?app_nil_r; reflexivity.
  - rewrite view_stopPingInterval. reflexivity.
Qed.

(** The reconnect policy does not depend on the listeners, the
    application state or the socket: the view of the next state is a
    function of the view of the current one. *)
Lemma view_step (s : state) (e : event) :
  view_of (step behaviour secure host s e) = v_step (view_of s) e.
Proof.
  destruct e as [tok ok| |ev h|ev h|ev p| |code reason| |i ok]; simpl.
  - apply view_connect.
  - apply view_disconnect.
  - reflexivity.
  - unfold unsubscribe. destruct (listeners s !! ev); reflexivity.
  - rewrite view_emit.
    destruct (String.eqb ev "max_reconnect_attempts"); reflexivity.
  - apply view_onopen.
  - apply view_onclose.
  - unfold onerror. rewrite view_emit. simpl.
    apply view_push; discriminate.
  - destruct (timers s !! i); [|reflexivity].
    unfold reconnect_callback. unfold_setters.
    destruct (negb (isConnected s)).
    + rewrite view_connect. reflexivity.
    + reflexivity.
Qed.

Lemma view_run (es : list event) (s : state) :
  view_of (run behaviour secure host es s) = v_run es (view_of s).
Proof.
  unfold run, v_run. revert s.
  induction es as [|e es IH]; intros s; simpl; [reflexivity|].
  rewrite IH, view_step. reflexivity.
Qed.

Lemma view_of_idle (s : @state W) :
  settings_ok s -> idle s ->
  view_of s = mkView 5 1000 0 false [] (delays (log s))
                (emitted "max_reconnect_attempts" (log s))
                (length (sockets (log s))).
Proof.
  intros (Hm & Hd) (Ha & Ht & Hc). unfold view_of.
  rewrite Hm, Hd, Ha, Ht, Hc. reflexivity.
Qed.

(** *** A session in which every attempt fails *)

Lemma failing_session_snoc (tok : option string) (fs : list failure)
    (f : failure) :
  fs <> [] ->
  failing_session tok (fs ++ [f]) = failing_session tok fs ++ retry_failure f.
Proof.
  destruct fs as [|f0 fs]; [congruence|]. intros _. simpl.
  rewrite map_app, concat_app. simpl. rewrite app_nil_r, app_assoc.
  reflexivity.
Qed.

Lemma v_first_failure (tok : option string) (f : failure) (ds : list Z)
    (g : list payload) (k : nat) :
  abnormal f ->
  exists k',
    v_run (first_failure tok f) (mkView 5 1000 0 false [] ds g k)
    = mkView 5 1000 1 false [1000] (ds ++ [1000]) g k'.
Proof.
  destruct f as [code reason|]; simpl; intros Hab; [|eauto].
  unfold v_onclose. apply Z.eqb_neq in Hab. rewrite Hab. simpl. eauto.
Qed.

Lemma v_retry_failure (f : failure) (a d : Z) (ds : list Z)
    (g : list payload) (k : nat) :
  abnormal f -> 0 <= a < 5 ->
  exists k',
    v_run (retry_failure f) (mkView 5 1000 a false [d] ds g k)
    = mkView 5 1000 (a + 1) false [1000 * 2 ^ a] (ds ++ [1000 * 2 ^ a]) g k'.
Proof.
  intros Hab Ha.
  assert (Hlt : (5 <=? a) = false) by (apply Z.leb_gt; lia).
  destruct f as [code reason|]; simpl.
  - unfold v_onclose. apply Z.eqb_neq in Hab. rewrite Hab. simpl.
    unfold v_schedule. simpl. rewrite Hlt. eauto.
  - unfold v_schedule. simpl. rewrite Hlt. eauto.
Qed.

Lemma v_retry_failure_last (f : failure) (d : Z) (ds : list Z)
    (g : list payload) (k : nat) :
  abnormal f ->
  exists k',
    v_run (retry_failure f) (mkView 5 1000 5 false [d] ds g k)
    = mkView 5 1000 5 false [] ds (g ++ [PEmpty]) k'.
Proof.
  intros Hab. destruct f as [code reason|]; simpl; [|eauto].
  unfold v_onclose. apply Z.eqb_neq in Hab. rewrite Hab. simpl. eauto.
Qed.

Lemma v_retry_failure_none (f : failure) (ds : list Z) (g : list payload)
    (k : nat) :
  exists g',
    v_run (retry_failure f) (mkView 5 1000 5 false [] ds g k)
    = mkView 5 1000 5 false [] ds g' k.
Proof.
  destruct f as [code reason|]; simpl; [|eauto].
  unfold v_onclose. destruct (negb (code =? 1000)); simpl; eauto.
Qed.

(** After [n >= 1] failures in a row, starting with no reconnect in
    progress: the counter is [min n 5], the delays scheduled are the
    first [n] of the table (all five from the fifth failure on), one
    timeout is pending up to the fifth failure and none after, and
    [max_reconnect_attempts] has not been emitted up to the fifth failure
    and has been emitted once at the sixth. *)
Lemma failing_session_view (tok : option string) (fs : list failure)
    (ds : list Z) (g : list payload) (k : nat) :
  Forall abnormal fs -> fs <> [] ->
  exists g' k',
    v_run (failing_session tok fs) (mkView 5 1000 0 false [] ds g k)
    = mkView 5 1000 (Z.min (Z.of_nat (length fs)) 5) false
        (if (length fs <=? 5)%nat
         then [1000 * 2 ^ (Z.of_nat (length fs) - 1)] else [])
        (ds ++ take (length fs) backoff) g' k' /\
    ((length fs <= 5)%nat -> g' = g) /\
    (length fs = 6%nat -> g' = g ++ [PEmpty]).
Proof.
  induction fs as [|f fs IH] using rev_ind; [congruence|].
  intros Hall _. apply Forall_app in Hall as [Hfs Hf].
  rewrite Forall_singleton in Hf.
  destruct fs as [|f0 fs'].
  - simpl. rewrite app_nil_r.
    destruct (v_first_failure tok f ds g k Hf) as (k' & Hk). rewrite Hk.
    exists g, k'. split; [reflexivity|]. split; [reflexivity|]. discriminate.
  - destruct (IH Hfs) as (g1 & k1 & Hrun & Hle & H6); [discriminate|].
    rewrite failing_session_snoc by discriminate.
    unfold v_run in *. rewrite fold_left_app, Hrun. clear Hrun IH.
    rewrite length_app. simpl length in *.
    destruct (length fs') as [|[|[|[|[|[|n]]]]]] eqn:En.
    + destruct (v_retry_failure f 1 1000 (ds ++ take 1 backoff) g1 k1 Hf
                  ltac:(lia)) as (k' & Hr).
      exists g1, k'.
      split; [|split; [intros _; apply Hle; lia|discriminate]].
      etransitivity; [exact Hr|]. rewrite <- app_assoc. reflexivity.
    + destruct (v_retry_failure f 2 2000 (ds ++ take 2 backoff) g1 k1 Hf
                  ltac:(lia)) as (k' & Hr).
      exists g1, k'.
      split; [|split; [intros _; apply Hle; lia|discriminate]].
      etransitivity; [exact Hr|]. rewrite <- app_assoc. reflexivity.
    + destruct (v_retry_failure f 3 4000 (ds ++ take 3 backoff) g1 k1 Hf
                  ltac:(lia)) as (k' & Hr).
      exists g1, k'.
      split; [|split; [intros _; apply Hle; lia|discriminate]].
      etransitivity; [exact Hr|]. rewrite <- app_assoc. reflexivity.
    + destruct (v_retry_failure f 4 8000 (ds ++ take 4 backoff) g1 k1 Hf
                  ltac:(lia)) as (k' & Hr).
      exists g1, k'.
      split; [|split; [intros _; apply Hle; lia|discriminate]].
      etransitivity; [exact Hr|]. rewrite <- app_assoc. reflexivity.
    + destruct (v_retry_failure_last f 16000 (ds ++ take 5 backoff) g1 k1 Hf)
        as (k' & Hr).
      exists (g1 ++ [PEmpty]), k'. split; [exact Hr|].
      split; [lia|]. intros _. rewrite Hle by lia. reflexivity.
    + destruct (v_retry_failure_none f (ds ++ backoff) g1 k1) as (g' & Hg).
      exists g', k1. split; [exact Hg|]. split; lia.
    + destruct (v_retry_failure_none f (ds ++ backoff) g1 k1) as (g' & Hg).
      exists g', k1. split; [|split; lia].
      rewrite !Z.min_r by lia. exact Hg.
Qed.


(** *** The listener registry *)

Lemma set_add_elem (h x : nat) (l : list nat) :
  x ∈ set_add h l <-> x = h \/ x ∈ l.
Proof.
  unfold set_add. destruct (decide (h ∈ l)) as [Hin|Hin].
  - split; [auto|]. intros [->|H]; assumption.
  - rewrite elem_of_app, list_elem_of_singleton. tauto.
Qed.

Lemma set_add_NoDup (h : nat) (l : list nat) :
  NoDup l -> NoDup (set_add h l).
Proof.
  intros Hl. unfold set_add. destruct (decide (h ∈ l)) as [Hin|Hin]; [auto|].
  apply NoDup_app. split; [exact Hl|]. split.
  - intros x Hx Hx'. apply list_elem_of_singleton in Hx'. congruence.
  - apply NoDup_singleton.
Qed.

Lemma set_add_idem (h : nat) (l : list nat) :
  set_add h (set_add h l) = set_add h l.
Proof.
  unfold set_add at 1. destruct (decide (h ∈ set_add h l)) as [|Hn];
    [reflexivity|].
  exfalso. apply Hn. apply set_add_elem. auto.
Qed.

Lemma set_delete_elem (h x : nat) (l : list nat) :
  x ∈ set_delete h l <-> x <> h /\ x ∈ l.
Proof. unfold set_delete. rewrite list_elem_of_filter. reflexivity. Qed.

Lemma set_delete_NoDup (h : nat) (l : list nat) :
  NoDup l -> NoDup (set_delete h l).
Proof. apply NoDup_filter. Qed.

Lemma set_delete_idem (h : nat) (l : list nat) :
  set_delete h (set_delete h l) = set_delete h l.
Proof.
  unfold set_delete. induction l as [|x l IH]; [reflexivity|].
  destruct (decide (x = h)) as [Hx|Hx].
  - rewrite filter_cons_False by tauto. exact IH.
  - rewrite !filter_cons_True by exact Hx. rewrite IH. reflexivity.
Qed.

Lemma set_delete_absent (h : nat) (l : list nat) :
  h ∉ l -> set_delete h l = l.
Proof.
  unfold set_delete. induction l as [|x l IH]; [reflexivity|].
  intros Hn. apply not_elem_of_cons in Hn as [Hx Hl].
  rewrite filter_cons_True by congruence.
  rewrite IH by exact Hl. reflexivity.
Qed.

Lemma subscribe_eq (ev : string) (h : nat) (s : @state W) :
  fst (subscribe ev h s) =
    set_listeners (<[ev := set_add h (registered ev s)]> (listeners s)) s.
Proof.
  unfold subscribe, registered. cbn [fst].
  destruct (listeners s !! ev) as [hs|] eqn:E.
  - rewrite E. reflexivity.
  - rewrite lookup_insert_eq, insert_insert_eq. reflexivity.
Qed.

Lemma registered_subscribe (ev ev' : string) (h : nat) (s : @state W) :
  registered ev' (fst (subscribe ev h s)) =
    if decide (ev = ev') then set_add h (registered ev s)
    else registered ev' s.
Proof.
  rewrite subscribe_eq. unfold registered at 1. cbn [listeners set_listeners].
  destruct (decide (ev = ev')) as [<-|Hne].
  - rewrite lookup_insert_eq. reflexivity.
  - rewrite lookup_insert_ne by exact Hne. reflexivity.
Qed.

Lemma registered_unsubscribe (ev ev' : string) (h : nat) (s : @state W) :
  registered ev' (unsubscribe ev h s) =
    if decide (ev = ev') then set_delete h (registered ev s)
    else registered ev' s.
Proof.
  unfold unsubscribe, registered.
  destruct (listeners s !! ev) as [hs|] eqn:E; simpl.
  - destruct (decide (ev = ev')) as [<-|Hne].
    + rewrite lookup_insert_eq. reflexivity.
    + rewrite lookup_insert_ne by exact Hne. reflexivity.
  - destruct (decide (ev = ev')) as [<-|Hne]; [|reflexivity].
    rewrite E. reflexivity.
Qed.

Lemma subscribe_twice (ev : string) (h : nat) (s : @state W) :
  fst (subscribe ev h (fst (subscribe ev h s))) = fst (subscribe ev h s).
Proof.
  rewrite (subscribe_eq ev h (fst (subscribe ev h s))).
  rewrite registered_subscribe.
  destruct (decide (ev = ev)) as [_|Hne]; [|congruence].
  rewrite set_add_idem, subscribe_eq. unfold set_listeners. simpl.
  rewrite insert_insert_eq. reflexivity.
Qed.

Lemma unsubscribe_twice (ev : string) (h : nat) (s : @state W) :
  unsubscribe ev h (unsubscribe ev h s) = unsubscribe ev h s.
Proof.
  unfold unsubscribe.
  destruct (listeners s !! ev) as [hs|] eqn:E; simpl.
  - rewrite lookup_insert_eq. unfold set_listeners. simpl.
    rewrite insert_insert_eq, set_delete_idem. reflexivity.
  - rewrite E. reflexivity.
Qed.

Lemma unsubscribe_absent (ev : string) (h : nat) (s : @state W) :
  h ∉ registered ev s -> unsubscribe ev h s = s.
Proof.
  unfold unsubscribe, registered.
  destruct (listeners s !! ev) as [hs|] eqn:E; [|reflexivity].
  simpl. intros Hh. rewrite set_delete_absent by exact Hh.
  rewrite insert_id by exact E. destruct s; reflexivity.
Qed.

Lemma subscribe_all_fresh (ev : string) (hs : list nat) (s : @state W) :
  NoDup (registered ev s ++ hs) ->
  registered ev (subscribe_all ev hs s) = registered ev s ++ hs.
Proof.
  unfold subscribe_all. revert s.
  induction hs as [|h hs IH]; intros s Hnd; cbn [fold_left].
  - rewrite app_nil_r. reflexivity.
  - assert (Hh : h ∉ registered ev s).
    { apply NoDup_app in Hnd as (_ & Hd & _). intros Hin.
      apply (Hd h Hin). left. }
    rewrite IH; rewrite registered_subscribe;
      destruct (decide (ev = ev)); try congruence;
      unfold set_add; destruct (decide (h ∈ registered ev s)); try tauto.
    + rewrite <- app_assoc. reflexivity.
    + rewrite <- app_assoc. exact Hnd.
Qed.

Lemma wf_registered (ev : string) (s : @state W) :
  wf s -> NoDup (registered ev s).
Proof.
  intros Hwf. unfold registered.
  destruct (listeners s !! ev) as [hs|] eqn:E; simpl.
  - apply (Hwf ev hs E).
  - apply NoDup_nil_2.
Qed.

Lemma wf_subscribe (ev : string) (h : nat) (s : @state W) :
  wf s -> wf (fst (subscribe ev h s)).
Proof.
  intros Hwf ev' hs'. rewrite subscribe_eq. cbn [listeners set_listeners].
  destruct (decide (ev = ev')) as [<-|Hne].
  - rewrite lookup_insert_eq. intros [= <-]. apply set_add_NoDup.
    apply wf_registered. exact Hwf.
  - rewrite lookup_insert_ne by exact Hne. apply Hwf.
Qed.

Lemma wf_unsubscribe (ev : string) (h : nat) (s : @state W) :
  wf s -> wf (unsubscribe ev h s).
Proof.
  intros Hwf ev' hs'. unfold unsubscribe.
  destruct (listeners s !! ev) as [hs|] eqn:E; [|apply Hwf].
  simpl. destruct (decide (ev = ev')) as [<-|Hne].
  - rewrite lookup_insert_eq. intros [= <-]. apply set_delete_NoDup.
    apply (Hwf ev hs E).
  - rewrite lookup_insert_ne by exact Hne. apply Hwf.
Qed.


(** *** Operations that leave the registry alone *)

Lemma listeners_stopPingInterval (s : @state W) :
  listeners (stopPingInterval s) = listeners s.
Proof. unfold stopPingInterval. destruct (pingInterval s); reflexivity. Qed.

Lemma listeners_emit (ev : string) (p : payload) (s : state) :
  listeners (emit behaviour ev p s) = listeners s.
Proof. rewrite emit_eq. reflexivity. Qed.

Lemma listeners_scheduleReconnect (s : state) :
  listeners (scheduleReconnect behaviour s) = listeners s.
Proof.
  rewrite scheduleReconnect_eq.
  destruct (maxReconnectAttempts s <=? reconnectAttempts s); reflexivity.
Qed.

Lemma listeners_connect (tok : option string) (ok : bool) (s : state) :
  listeners (connect behaviour secure host tok ok s) = listeners s.
Proof.
  unfold connect. destruct ok.
  - destruct (ws (set_token tok s)); reflexivity.
  - rewrite listeners_scheduleReconnect.
    destruct (ws (set_token tok s)); reflexivity.
Qed.

Lemma listeners_onclose (code : Z) (reason : string) (s : state) :
  listeners (onclose behaviour code reason s) = listeners s.
Proof.
  unfold onclose. destruct (negb (code =? 1000));
    rewrite ?listeners_scheduleReconnect, listeners_emit,
      listeners_stopPingInterval; reflexivity.
Qed.

Lemma listeners_onopen (s : state) :
  listeners (onopen behaviour s) = listeners s.
Proof.
  unfold onopen, startPingInterval. unfold_setters.
  rewrite listeners_stopPingInterval, listeners_emit. reflexivity.
Qed.

Lemma listeners_onerror (s : state) :
  listeners (onerror behaviour s) = listeners s.
Proof. unfold onerror. rewrite listeners_emit. reflexivity. Qed.

Lemma listeners_step (s : state) (e : event) :
  listeners (step behaviour secure host s e) =
    match e with
    | Subscribe ev h => listeners (fst (subscribe ev h s))
    | Unsubscribe ev h => listeners (unsubscribe ev h s)
    | Disconnect => ∅
    | _ => listeners s
    end.
Proof.
  destruct e as [tok ok| |ev h|ev h|ev p| |code reason| |i ok]; simpl;
    try reflexivity.
  - apply listeners_connect.
  - apply listeners_emit.
  - apply listeners_onopen.
  - apply listeners_onclose.
  - apply listeners_onerror.
  - destruct (timers s !! i); [|reflexivity].
    unfold reconnect_callback. unfold_setters.
    destruct (negb (isConnected s)); [|reflexivity].
    rewrite listeners_connect. reflexivity.
Qed.

Lemma wf_step (s : state) (e : event) :
  wf s -> wf (step behaviour secure host s e).
Proof.
  intros Hwf.
  assert (Hsame : forall s' : @state W, listeners s' = listeners s -> wf s').
  { intros s' Heq ev hs. rewrite Heq. apply Hwf. }
  destruct e as [tok ok| |ev h|ev h|ev p| |code reason| |i ok];
    try (apply Hsame; rewrite listeners_step; reflexivity).
  - intros ev hs. rewrite listeners_step, lookup_empty. discriminate.
  - apply wf_subscribe. exact Hwf.
  - apply wf_unsubscribe. exact Hwf.
Qed.

(** Every state the service can reach keeps its listener sets free of
    repetitions. *)
Lemma wf_run (es : list event) (s : state) :
  wf s -> wf (run behaviour secure host es s).
Proof.
  unfold run. revert s. induction es as [|e es IH]; intros s Hwf; simpl.
  - exact Hwf.
  - apply IH. apply wf_step. exact Hwf.
Qed.

Lemma wf_constructor (w : W) : wf (constructor w).
Proof. intros ev hs. simpl. rewrite lookup_empty. discriminate. Qed.

(** *** Calls received by one listener *)

Lemma invocations_listeners_effects (ev ev' : string) (h : nat) (p : payload)
    (hs : list nat) (w : W) :
  (ev' = ev -> h ∉ hs) ->
  invocations ev h (listeners_effects behaviour ev' p hs w) = 0%nat.
Proof.
  intros Hh. unfold invocations.
  destruct (decide (ev' = ev)) as [->|Hne].
  - rewrite calls_listeners_effects.
    specialize (Hh eq_refl). clear w.
    induction hs as [|x hs IH]; [reflexivity|].
    apply not_elem_of_cons in Hh as [Hx Hhs].
    rewrite filter_cons_False by congruence. apply IH. exact Hhs.
  - rewrite calls_listeners_effects_other by exact Hne. reflexivity.
Qed.

Lemma quiet_refl (ev : string) (h : nat) (s s' : @state W) :
  listeners s' = listeners s -> log s' = log s -> quiet ev h s s'.
Proof. intros Hl Hg. unfold quiet. rewrite Hl, Hg. auto. Qed.

Lemma quiet_trans (ev : string) (h : nat) (s0 s1 s2 : @state W) :
  quiet ev h s0 s1 -> quiet ev h s1 s2 -> quiet ev h s0 s2.
Proof. intros [H1 H2] [H3 H4]. unfold quiet. rewrite H3, H4. auto. Qed.

Lemma quiet_push (ev : string) (h : nat) (e : effect) (s : @state W) :
  (forall ev' h' p, e <> Called ev' h' p) -> quiet ev h s (push e s).
Proof.
  intros He. split; [reflexivity|]. unfold_setters.
  rewrite invocations_app.
  destruct e as [e1 p1 | ev' h' p | m | m | d | u | a | n |];
    try (unfold invocations; simpl; lia).
  exfalso. apply (He ev' h' p). reflexivity.
Qed.

Lemma quiet_registered (ev ev' : string) (h : nat) (s s' : @state W) :
  quiet ev h s s' -> registered ev' s' = registered ev' s.
Proof. intros [Hl _]. unfold registered. rewrite Hl. reflexivity. Qed.

Lemma quiet_log_app (ev : string) (h : nat) (l : list effect)
    (s s' : @state W) :
  listeners s' = listeners s -> log s' = log s ++ l ->
  invocations ev h l = 0%nat -> quiet ev h s s'.
Proof.
  intros Hl Hg Hi. split; [exact Hl|].
  rewrite Hg, invocations_app, Hi. lia.
Qed.

Lemma quiet_stopPingInterval (ev : string) (h : nat) (s : @state W) :
  quiet ev h s (stopPingInterval s).
Proof.
  unfold stopPingInterval. destruct (pingInterval s).
  - apply (quiet_log_app ev h [ClearInterval]); reflexivity.
  - apply quiet_refl; reflexivity.
Qed.

Lemma quiet_emit (ev ev' : string) (h : nat) (p : payload) (s : state) :
  h ∉ registered ev s -> quiet ev h s (emit behaviour ev' p s).
Proof.
  intros Hh. rewrite emit_eq.
  eapply quiet_log_app; [reflexivity|reflexivity|].
  change (Emit ev' p :: ?l) with ([Emit ev' p] ++ l).
  rewrite invocations_app, invocations_listeners_effects.
  - reflexivity.
  - intros ->. exact Hh.
Qed.

Lemma quiet_scheduleReconnect (ev : string) (h : nat) (s : state) :
  h ∉ registered ev s -> quiet ev h s (scheduleReconnect behaviour s).
Proof.
  intros Hh. unfold scheduleReconnect.
  destruct (maxReconnectAttempts s <=? reconnectAttempts s).
  - eapply quiet_trans; [|apply quiet_emit; exact Hh].
    apply quiet_push. intros ? ? ? [=].
  - eapply quiet_log_app;
      [reflexivity
      |unfold_setters; rewrite <- app_assoc; reflexivity
      |reflexivity].
Qed.

Lemma quiet_connect (ev : string) (h : nat) (tok : option string) (ok : bool)
    (s : state) :
  h ∉ registered ev s ->
  quiet ev h s (connect behaviour secure host tok ok s).
Proof.
  intros Hh. unfold connect.
  assert (Hpre : quiet ev h s
            match ws (set_token tok s) with
            | Some _ => push (WsClose None) (set_token tok s)
            | None => set_token tok s
            end).
  { destruct (ws (set_token tok s)).
    - apply (quiet_log_app ev h [WsClose None]); reflexivity.
    - apply quiet_refl; reflexivity. }
  destruct ok.
  - eapply quiet_trans; [exact Hpre|].
    eapply quiet_log_app; [reflexivity|reflexivity|reflexivity].
  - eapply quiet_trans; [exact Hpre|].
    eapply quiet_trans; [|apply quiet_scheduleReconnect].
    + apply quiet_push. intros ? ? ? [=].
    + unfold registered. unfold_setters.
      destruct Hpre as [-> _]. exact Hh.
Qed.

Lemma quiet_onclose (ev : string) (h : nat) (code : Z) (reason : string)
    (s : state) :
  h ∉ registered ev s ->
  quiet ev h s (onclose behaviour code reason s).
Proof.
  intros Hh. unfold onclose.
  assert (Hpre : quiet ev h s
            (emit behaviour "disconnected" (PDisconnected code reason)
               (stopPingInterval
                  (set_isConnected false
                     (push (ConsoleLog "WebSocket disconnected:") s))))).
  { eapply quiet_trans; [|apply quiet_emit].
    - eapply quiet_trans; [|apply quiet_stopPingInterval].
      apply (quiet_log_app ev h [ConsoleLog "WebSocket disconnected:"]);
        reflexivity.
    - unfold registered. rewrite listeners_stopPingInterval. exact Hh. }
  destruct (negb (code =? 1000)); [|exact Hpre].
  eapply quiet_trans; [exact Hpre|].
  apply quiet_scheduleReconnect.
  rewrite (quiet_registered _ _ _ _ _ Hpre). exact Hh.
Qed.

Lemma quiet_onopen (ev : string) (h : nat) (s : state) :
  h ∉ registered ev s -> quiet ev h s (onopen behaviour s).
Proof.
  intros Hh. unfold onopen, startPingInterval.
  match goal with
  | |- quiet _ _ _ (set_pingInterval true (push ?e ?x)) =>
      apply (quiet_trans ev h s x)
  end.
  - eapply quiet_trans; [|apply quiet_stopPingInterval].
    eapply quiet_trans; [|apply quiet_emit; exact Hh].
    apply (quiet_log_app ev h [ConsoleLog "WebSocket connected"]);
      reflexivity.
  - eapply quiet_log_app; [reflexivity|reflexivity|reflexivity].
Qed.

Lemma quiet_onerror (ev : string) (h : nat) (s : state) :
  h ∉ registered ev s -> quiet ev h s (onerror behaviour s).
Proof.
  intros Hh. unfold onerror.
  eapply quiet_trans; [|apply quiet_emit; exact Hh].
  apply quiet_push. intros ? ? ? [=].
Qed.

Lemma invocations_disconnect (ev : string) (h : nat) (s : @state W) :
  invocations ev h (log (disconnect s)) = invocations ev h (log s).
Proof.
  unfold disconnect.
  destruct (quiet_stopPingInterval ev h s) as [_ Hq].
  destruct (ws (stopPingInterval s)); unfold_setters;
    rewrite ?invocations_app; rewrite Hq; unfold invocations; simpl; lia.
Qed.

(** A listener that is not registered for [ev] stays unregistered and is
    not called for [ev], whatever happens, as long as it is not subscribed
    to [ev] again. *)
Lemma unregistered_step (ev : string) (h : nat) (s : state) (e : event) :
  h ∉ registered ev s -> e <> Subscribe ev h ->
  (h ∉ registered ev (step behaviour secure host s e)) /\
  invocations ev h (log (step behaviour secure host s e))
  = invocations ev h (log s).
Proof.
  intros Hh Hne.
  assert (Hq : forall s' : @state W, quiet ev h s s' ->
            (h ∉ registered ev s') /\
            invocations ev h (log s') = invocations ev h (log s)).
  { intros s' Hq. rewrite (quiet_registered _ _ _ _ _ Hq).
    split; [exact Hh|]. apply Hq. }
  destruct e as [tok ok| |ev' h'|ev' h'|ev' p| |code reason| |i ok];
    cbn [step].
  - apply Hq. apply quiet_connect. exact Hh.
  - split; [|apply invocations_disconnect].
    unfold registered, disconnect. unfold_setters. rewrite lookup_empty.
    apply not_elem_of_nil.
  - split; [|reflexivity]. rewrite registered_subscribe.
    destruct (decide (ev' = ev)) as [->|]; [|exact Hh].
    rewrite set_add_elem. intros [->|Hin]; [congruence|tauto].
  - split.
    + rewrite registered_unsubscribe.
      destruct (decide (ev' = ev)) as [->|]; [|exact Hh].
      rewrite set_delete_elem. tauto.
    + unfold unsubscribe. destruct (listeners s !! ev'); reflexivity.
  - apply Hq. apply quiet_emit. exact Hh.
  - apply Hq. apply quiet_onopen. exact Hh.
  - apply Hq. apply quiet_onclose. exact Hh.
  - apply Hq. apply quiet_onerror. exact Hh.
  - destruct (timers s !! i); [|auto].
    unfold reconnect_callback. unfold_setters.
    destruct (negb (isConnected s)); [|auto].
    apply Hq.
    eapply quiet_trans; [|apply quiet_connect; exact Hh].
    apply quiet_refl; reflexivity.
Qed.

Lemma unregistered_run (ev : string) (h : nat) (es : list event)
    (s : state) :
  h ∉ registered ev s -> Subscribe ev h ∉ es ->
  (h ∉ registered ev (run behaviour secure host es s)) /\
  invocations ev h (log (run behaviour secure host es s))
  = invocations ev h (log s).
Proof.
  unfold run. revert s.
  induction es as [|e es IH]; intros s Hh Hno; simpl; [auto|].
  apply not_elem_of_cons in Hno as [Hne Hno].
  destruct (unregistered_step ev h s e Hh) as [Hh' Hi]; [congruence|].
  destruct (IH _ Hh' Hno) as [Hh'' Hi'].
  split; [exact Hh''|]. rewrite Hi', Hi. reflexivity.
Qed.


Lemma count_NoDup (x : nat) (l : list nat) :
  NoDup l -> x ∈ l -> length (filter (fun y => y = x) l) = 1%nat.
Proof.
  induction l as [|y l IH]; intros Hnd Hin.
  - inversion Hin.
  - apply NoDup_cons in Hnd as [Hy Hnd].
    destruct (decide (y = x)) as [->|Hne].
    + rewrite filter_cons_True by reflexivity. simpl. f_equal.
      clear IH Hin Hnd. induction l as [|z l IH]; [reflexivity|].
      apply not_elem_of_cons in Hy as [Hz Hl].
      rewrite filter_cons_False by congruence. apply IH. exact Hl.
    + rewrite filter_cons_False by exact Hne. apply IH; [exact Hnd|].
      apply elem_of_cons in Hin as [->|Hin]; [congruence|exact Hin].
Qed.

Lemma sorted_take_backoff (k : nat) : StronglySorted Z.lt (take k backoff).
Proof.
  destruct k as [|[|[|[|[|k]]]]]; simpl; rewrite ?take_nil;
    repeat constructor.
Qed.

Lemma length_take_backoff (k : nat) : (length (take k backoff) <= 5)%nat.
Proof. rewrite length_take. simpl. lia. Qed.

Lemma v_step_exhausted (v : view) (e : event) :
  v_max v <= v_attempts v -> v_timers v = [] ->
  (forall tok ok, e <> Connect tok ok) -> e <> OnOpen ->
  v_max (v_step v e) = v_max v /\
  v_attempts (v_step v e) = v_attempts v /\
  v_timers (v_step v e) = [] /\
  v_delays (v_step v e) = v_delays v /\
  v_sockets (v_step v e) = v_sockets v.
Proof.
  intros Hex Ht Hc Ho.
  assert (Hle : (v_max v <=? v_attempts v) = true) by (apply Z.leb_le; lia).
  destruct e as [tok ok| |ev h|ev h|ev p| |code reason| |i ok]; simpl;
    auto.
  - exfalso. apply (Hc tok ok). reflexivity.
  - destruct (String.eqb ev "max_reconnect_attempts"); simpl; auto.
  - congruence.
  - unfold v_onclose, v_schedule. destruct (negb (code =? 1000)); simpl;
      rewrite ?Hle; simpl; auto.
  - rewrite Ht. simpl. auto.
Qed.

Lemma v_run_exhausted (es : list event) (v : view) :
  v_max v <= v_attempts v -> v_timers v = [] ->
  (forall tok ok, Connect tok ok ∉ es) -> OnOpen ∉ es ->
  v_timers (v_run es v) = [] /\
  v_delays (v_run es v) = v_delays v /\
  v_sockets (v_run es v) = v_sockets v.
Proof.
  unfold v_run. revert v.
  induction es as [|e es IH]; intros v Hex Ht Hc Ho; simpl; [auto|].
  apply not_elem_of_cons in Ho as [Ho1 Ho2].
  destruct (v_step_exhausted v e Hex Ht) as (Hm & Ha & Ht' & Hd & Hs);
    [|congruence|].
  { intros tok ok ->. apply (Hc tok ok). left. }
  destruct (IH (v_step v e)) as (H1 & H2 & H3); auto.
  - rewrite Hm, Ha. exact Hex.
  - intros tok ok Hin. apply (Hc tok ok). right. exact Hin.
  - rewrite H2, H3, Hd, Hs. auto.
Qed.

Lemma run_exhausted (es : list event) (s : state) :
  exhausted s -> OnOpen ∉ es ->
  maxReconnectAttempts (run behaviour secure host es s)
  = maxReconnectAttempts s /\
  reconnectAttempts (run behaviour secure host es s) = reconnectAttempts s /\
  delays (log (run behaviour secure host es s)) = delays (log s).
Proof.
  unfold run, exhausted. revert s.
  induction es as [|e es IH]; intros s Hex Ho; simpl; [auto|].
  apply not_elem_of_cons in Ho as [Ho1 Ho2].
  destruct (step_advances s e) as (Hm & _ & [[Ha Hl]|(Hlt & _)]);
    [congruence| |lia].
  destruct (IH (step behaviour secure host s e)) as (H1 & H2 & H3);
    [rewrite Hm, Ha; exact Hex|exact Ho2|].
  rewrite H1, H2, H3, Hm, Ha, Hl. auto.
Qed.


(** *** The event bus *)

(** C6. An emission calls the listeners registered for the event type, all
    of them and in the order of registration, whether or not some of them
    throw: the calls added to the log are exactly the registered listeners
    in order; each listener runs on the application state left by the one
    before it, a thrower included; one [console.error] line is written per
    listener that threw; the registry is not changed. Registration order
    is subscription order: listeners subscribed one after the other are
    registered in that order, after those already there. *)
Theorem emit_invokes_all_listeners (s : state) (ev : string) (p : payload) :
  calls ev (log (emit behaviour ev p s))
  = calls ev (log s) ++ registered ev s /\
  world (emit behaviour ev p s)
  = listeners_world behaviour p (registered ev s) (world s) /\
  length (console_errors (log (emit behaviour ev p s)))
  = (length (console_errors (log s))
     + length (throwers behaviour p (registered ev s) (world s)))%nat /\
  listeners (emit behaviour ev p s) = listeners s /\
  (forall hs : list nat,
     NoDup (registered ev s ++ hs) ->
     registered ev (subscribe_all ev hs s) = registered ev s ++ hs).
Proof.
  rewrite emit_eq. simpl.
  split; [|split; [|split; [|split]]].
  - rewrite calls_app. simpl. rewrite calls_listeners_effects. reflexivity.
  - reflexivity.
  - rewrite console_errors_app, length_app. simpl.
    rewrite console_errors_listeners_effects. reflexivity.
  - reflexivity.
  - intros hs. apply subscribe_all_fresh.
Qed.

(** C7. The closure returned by [subscribe(ev, h)] captures exactly [ev]
    and [h]. Invoked in any later state, it removes [h] from the listeners
    of [ev], keeps the other listeners of [ev] in their order and leaves
    the listeners of every other event type alone; from then on, whatever
    the service does and however often it emits, [h] is not called for
    [ev] again unless it is subscribed to [ev] again; invoking the closure
    a second time changes nothing, at once or after any events other than
    a new subscription of [h] to [ev]. *)
Theorem unsubscribe_removes_that_listener (s : @state W) (ev : string)
    (h : nat) :
  snd (subscribe ev h s) = mkUnsub ev h /\
  (forall s1 : @state W,
     let u := snd (subscribe ev h s) in
     registered ev (invoke u s1)
     = filter (fun x => x <> h) (registered ev s1) /\
     (forall x,
        x <> h -> x ∈ registered ev s1 -> x ∈ registered ev (invoke u s1)) /\
     (forall ev', ev' <> ev ->
        registered ev' (invoke u s1) = registered ev' s1) /\
     (h ∉ registered ev (invoke u s1)) /\
     (forall p,
        invocations ev h (log (emit behaviour ev p (invoke u s1)))
        = invocations ev h (log s1)) /\
     (forall es : list event,
        Subscribe ev h ∉ es ->
        invocations ev h (log (run behaviour secure host es (invoke u s1)))
        = invocations ev h (log s1)) /\
     invoke u (invoke u s1) = invoke u s1 /\
     (forall es : list event,
        Subscribe ev h ∉ es ->
        invoke u (run behaviour secure host es (invoke u s1))
        = run behaviour secure host es (invoke u s1))).
Proof.
  split; [reflexivity|]. intros s1 u. subst u. unfold invoke. simpl.
  assert (Hlog : log (unsubscribe ev h s1) = log s1).
  { unfold unsubscribe. destruct (listeners s1 !! ev); reflexivity. }
  assert (Hout : h ∉ registered ev (unsubscribe ev h s1)).
  { rewrite registered_unsubscribe.
    destruct (decide (ev = ev)); [|congruence].
    rewrite set_delete_elem. tauto. }
  split; [|split; [|split; [|split; [|split; [|split; [|split]]]]]].
  - rewrite registered_unsubscribe.
    destruct (decide (ev = ev)); [reflexivity|congruence].
  - intros x Hx Hin. rewrite registered_unsubscribe.
    destruct (decide (ev = ev)); [|congruence].
    apply set_delete_elem. auto.
  - intros ev' Hne. rewrite registered_unsubscribe.
    destruct (decide (ev = ev')); [congruence|reflexivity].
  - exact Hout.
  - intros p.
    destruct (quiet_emit ev ev h p _ Hout) as [_ Hq].
    rewrite Hq, Hlog. reflexivity.
  - intros es Hes.
    destruct (unregistered_run ev h es _ Hout Hes) as [_ Hi].
    rewrite Hi, Hlog. reflexivity.
  - apply unsubscribe_twice.
  - intros es Hes.
    destruct (unregistered_run ev h es _ Hout Hes) as [Hh _].
    apply unsubscribe_absent. exact Hh.
Qed.

(** C10. On a registry whose sets hold each listener once, subscribing
    the same listener to the same event type a second time changes
    nothing; an emission of that type then calls the listener once; and
    one call of the closure returned by either subscription leaves the
    listener unregistered, so that a further emission does not call it. *)
Theorem subscribe_twice_registers_once (s : @state W) (ev : string)
    (h : nat) :
  wf s ->
  let s1 := fst (subscribe ev h s) in
  let s2 := fst (subscribe ev h s1) in
  s2 = s1 /\
  snd (subscribe ev h s1) = snd (subscribe ev h s) /\
  (forall p,
     invocations ev h (log (emit behaviour ev p s2))
     = S (invocations ev h (log s2))) /\
  (h ∉ registered ev (invoke (snd (subscribe ev h s1)) s2)) /\
  (forall p,
     invocations ev h
       (log (emit behaviour ev p (invoke (snd (subscribe ev h s1)) s2)))
     = invocations ev h (log s2)).
Proof.
  intros Hwf s1 s2.
  assert (H21 : s2 = s1) by apply subscribe_twice.
  assert (Hwf1 : wf s1) by (apply wf_subscribe; exact Hwf).
  assert (Hin : h ∈ registered ev s1).
  { subst s1. rewrite registered_subscribe.
    destruct (decide (ev = ev)); [|congruence].
    apply set_add_elem. auto. }
  assert (Hout : h ∉ registered ev (unsubscribe ev h s1)).
  { rewrite registered_unsubscribe.
    destruct (decide (ev = ev)); [|congruence].
    rewrite set_delete_elem. tauto. }
  assert (Hlog : log (unsubscribe ev h s1) = log s1).
  { unfold unsubscribe. destruct (listeners s1 !! ev); reflexivity. }
  rewrite H21. unfold invoke. simpl.
  split; [reflexivity|]. split; [reflexivity|].
  split; [|split].
  - intros p. rewrite emit_eq. simpl.
    rewrite invocations_app.
    change (Emit ev p :: ?l) with ([Emit ev p] ++ l).
    rewrite invocations_app. unfold invocations at 2 3.
    rewrite calls_listeners_effects. simpl.
    rewrite (count_NoDup h _ (wf_registered ev s1 Hwf1) Hin). lia.
  - exact Hout.
  - intros p. destruct (quiet_emit ev ev h p _ Hout) as [_ Hq].
    rewrite Hq, Hlog. reflexivity.
Qed.


(** *** The reconnect policy *)

(** C4 (as the code has it). When [scheduleReconnect] schedules an
    attempt, the counter is incremented first and the delay is
    [reconnectDelay * 2 ^ (reconnectAttempts - 1)] for the incremented
    counter, that is [reconnectDelay * 2 ^ n] for the counter [n] found on
    entry. With the constructor's settings, the timeout pending after the
    [n]-th failure in a row ([1 <= n <= 5]) has delay [1000 * 2 ^ (n - 1)]:
    1000, 2000, 4000, 8000, 16000. *)
Theorem scheduleReconnect_delay (s : state) (tok : option string)
    (fs : list failure) :
  (0 <= reconnectAttempts s < maxReconnectAttempts s ->
   let s' := scheduleReconnect behaviour s in
   reconnectAttempts s' = reconnectAttempts s + 1 /\
   timers s' =
     timers s ++ [reconnectDelay s * 2 ^ (reconnectAttempts s' - 1)] /\
   delays (log s') =
     delays (log s) ++ [reconnectDelay s * 2 ^ (reconnectAttempts s' - 1)]) /\
  (settings_ok s -> idle s -> Forall abnormal fs ->
   (1 <= length fs <= 5)%nat ->
   let s' := run behaviour secure host (failing_session tok fs) s in
   reconnectAttempts s' = Z.of_nat (length fs) /\
   timers s' = [1000 * 2 ^ (Z.of_nat (length fs) - 1)] /\
   delays (log s') = delays (log s) ++ take (length fs) backoff /\
   backoff !! (length fs - 1)%nat
   = Some (1000 * 2 ^ (Z.of_nat (length fs) - 1))).
Proof.
  split.
  - intros Ha s'. subst s'. rewrite scheduleReconnect_eq.
    assert (Hlt : (maxReconnectAttempts s <=? reconnectAttempts s) = false)
      by (apply Z.leb_gt; lia).
    rewrite Hlt. simpl.
    replace (reconnectAttempts s + 1 - 1) with (reconnectAttempts s) by lia.
    rewrite delays_app. simpl. auto.
  - intros Hs Hi Hfs Hlen s'.
    assert (Hne : fs <> []) by (destruct fs; [simpl in Hlen; lia|discriminate]).
    pose proof (view_run (failing_session tok fs) s) as Hv.
    rewrite (view_of_idle s Hs Hi) in Hv.
    destruct (failing_session_view tok fs (delays (log s))
                (emitted "max_reconnect_attempts" (log s))
                (length (sockets (log s))) Hfs Hne)
      as (g' & k' & Hrun & _).
    rewrite Hrun in Hv. clear Hrun.
    assert (Hle : (length fs <=? 5)%nat = true) by (apply Nat.leb_le; lia).
    rewrite Hle in Hv.
    fold s' in Hv. unfold view_of in Hv.
    injection Hv as _ _ Ha _ Ht Hd _ _.
    rewrite Ha, Ht, Hd.
    split; [lia|]. split; [reflexivity|]. split; [reflexivity|].
    destruct (length fs) as [|[|[|[|[|[|n]]]]]]; try lia; reflexivity.
Qed.

Lemma v_onset (o : onset) (c : bool) (ds : list Z) (g : list payload)
    (k : nat) :
  onset_abnormal o ->
  match o with
  | ConnectFailed _ ConstructorThrew => c = false
  | _ => True
  end ->
  exists k',
    v_run (onset_events o) (mkView 5 1000 0 c [] ds g k)
    = mkView 5 1000 1 false [1000] (ds ++ [1000]) g k'.
Proof.
  destruct o as [code reason|tok [code reason|]]; simpl; intros Hab Hr.
  - unfold v_onclose. apply Z.eqb_neq in Hab. rewrite Hab. simpl. eauto.
  - unfold v_onclose. apply Z.eqb_neq in Hab. rewrite Hab. simpl. eauto.
  - subst c. eauto.
Qed.

(** After [S (length fs)] failures in a row, however they began. *)
Lemma failures_view (o : onset) (fs : list failure) (c : bool)
    (ds : list Z) (g : list payload) (k : nat) :
  onset_abnormal o ->
  match o with
  | ConnectFailed _ ConstructorThrew => c = false
  | _ => True
  end ->
  Forall abnormal fs ->
  exists g' k',
    v_run (failures o fs) (mkView 5 1000 0 c [] ds g k)
    = mkView 5 1000 (Z.min (Z.of_nat (S (length fs))) 5) false
        (if (S (length fs) <=? 5)%nat
         then [1000 * 2 ^ (Z.of_nat (S (length fs)) - 1)] else [])
        (ds ++ take (S (length fs)) backoff) g' k' /\
    ((S (length fs) <= 5)%nat -> g' = g) /\
    (S (length fs) = 6%nat -> g' = g ++ [PEmpty]).
Proof.
  intros Hab Hr Hfs.
  destruct (v_onset o c ds g k Hab Hr) as (k1 & H1).
  destruct (failing_session_view None (ConstructorThrew :: fs) ds g k1)
    as (g' & k' & Hrun & Hle & H6);
    [apply Forall_cons; split; [exact I|exact Hfs]|discriminate|].
  exists g', k'. split; [|split; assumption].
  unfold failures, v_run in *. rewrite fold_left_app, H1.
  etransitivity; [|exact Hrun]. reflexivity.
Qed.

(** C5. From a state whose counter is 0, as it is after every open and
    in a new service, with the constructor's settings: (a) as long as no
    connection opens, whatever else happens, the delays scheduled are a
    prefix of the five-entry table, so they are at most five and strictly
    increasing; (b) in a run of consecutive failures with no timeout
    pending at its start, begun by the loss of the open connection (its
    socket closes with a code other than 1000) or by an explicit
    [connect] that fails, and continued by each automatic attempt failing
    (its socket closes with a code other than 1000, or the constructor
    throws), the [n]-th failure schedules the [n]-th delay for [n <= 5],
    with one timeout pending and no [max_reconnect_attempts] event so
    far, and the 6th failure emits [max_reconnect_attempts] once and
    leaves no timeout pending; (c) after that, unless [connect] is called
    (and no socket can open without it), nothing that happens schedules a
    timeout or creates a socket. *)
Theorem reconnect_budget (s0 : state) :
  settings_ok s0 -> reconnectAttempts s0 = 0 ->
  (forall es : list event,
     OnOpen ∉ es ->
     exists ds,
       delays (log (run behaviour secure host es s0)) = delays (log s0) ++ ds /\
       ds `prefix_of` backoff /\
       (length ds <= 5)%nat /\
       StronglySorted Z.lt ds) /\
  (forall (o : onset) (fs : list failure),
     timers s0 = [] -> onset_ready o s0 ->
     onset_abnormal o -> Forall abnormal fs ->
     let n := S (length fs) in
     let s := run behaviour secure host (failures o fs) s0 in
     delays (log s) = delays (log s0) ++ take n backoff /\
     ((n <= 5)%nat ->
        emitted "max_reconnect_attempts" (log s)
        = emitted "max_reconnect_attempts" (log s0) /\
        timers s = [1000 * 2 ^ (Z.of_nat n - 1)]) /\
     (n = 6%nat ->
        emitted "max_reconnect_attempts" (log s)
        = emitted "max_reconnect_attempts" (log s0) ++ [PEmpty] /\
        timers s = [] /\
        exhausted s /\
        forall es : list event,
          (forall tok' ok, Connect tok' ok ∉ es) -> OnOpen ∉ es ->
          let s' := run behaviour secure host es s in
          timers s' = [] /\
          delays (log s') = delays (log s) /\
          length (sockets (log s')) = length (sockets (log s)))).
Proof.
  intros Hs Ha0. split.
  - intros es Hes.
    destruct (run_without_open es s0 Hs Ha0 Hes) as (_ & _ & Hd).
    eexists. split; [exact Hd|].
    split; [apply prefix_take|].
    split; [apply length_take_backoff|apply sorted_take_backoff].
  - intros o fs Ht0 Hr Hab Hfs n s.
    pose proof (view_run (failures o fs) s0) as Hv.
    assert (H0 : view_of s0
                 = mkView 5 1000 0 (isConnected s0) [] (delays (log s0))
                     (emitted "max_reconnect_attempts" (log s0))
                     (length (sockets (log s0)))).
    { unfold view_of. destruct Hs as [-> ->]. rewrite Ha0, Ht0.
      reflexivity. }
    rewrite H0 in Hv.
    destruct (failures_view o fs (isConnected s0) (delays (log s0))
                (emitted "max_reconnect_attempts" (log s0))
                (length (sockets (log s0))) Hab)
      as (g' & k' & Hrun & Hle & H6); [|exact Hfs|].
    { destruct o as [code reason|tok [code reason|]]; try exact I.
      exact Hr. }
    rewrite Hrun in Hv. clear Hrun. fold s in Hv. subst n.
    set (m := S (length fs)) in *. clearbody m.
    pose proof Hv as Hv'. unfold view_of in Hv'.
    injection Hv' as Hm _ Ha _ Ht Hd Hg _.
    split; [exact Hd|]. split.
    + intros Hlen. rewrite Hg, (Hle Hlen). split; [reflexivity|].
      rewrite Ht. apply Nat.leb_le in Hlen. rewrite Hlen. reflexivity.
    + intros Hlen. rewrite Hg, (H6 Hlen). split; [reflexivity|].
      assert (Ht' : timers s = []) by (rewrite Ht, Hlen; reflexivity).
      split; [exact Ht'|].
      assert (Hex : exhausted s).
      { unfold exhausted. rewrite Hm, Ha, Hlen. simpl. lia. }
      split; [exact Hex|].
      intros es Hc Ho s'.
      pose proof (view_run es s) as Hves. fold s' in Hves.
      destruct (v_run_exhausted es (view_of s)) as (H1 & H2 & H3); auto.
      rewrite <- Hves in H1, H2, H3. simpl in H1, H2, H3. auto.
Qed.

(** C9. The counter is set to 0 by [onopen] and by nothing else: every
    other event leaves it as it is or raises it; [connect] with a socket
    created leaves it as it is, and [scheduleReconnect] never lowers it.
    So once the budget is used up, an explicit [connect] whose socket
    closes with a code other than 1000, or whose constructor throws,
    emits [max_reconnect_attempts] again, schedules no timeout and leaves
    the counter where it is; and this stays so through any events among
    which no connection opens. *)
Theorem reconnectAttempts_reset_only_by_onopen (s : state) :
  reconnectAttempts (onopen behaviour s) = 0 /\
  (forall e : event,
     e <> OnOpen ->
     reconnectAttempts s
     <= reconnectAttempts (step behaviour secure host s e)) /\
  (forall tok,
     reconnectAttempts (connect behaviour secure host tok true s)
     = reconnectAttempts s) /\
  reconnectAttempts s <= reconnectAttempts (scheduleReconnect behaviour s) /\
  (exhausted s ->
   (forall tok code reason,
      code <> 1000 ->
      let s' := onclose behaviour code reason
                  (connect behaviour secure host tok true s) in
      emitted "max_reconnect_attempts" (log s')
      = emitted "max_reconnect_attempts" (log s) ++ [PEmpty] /\
      delays (log s') = delays (log s) /\
      timers s' = timers s /\
      reconnectAttempts s' = reconnectAttempts s) /\
   (forall tok,
      let s' := connect behaviour secure host tok false s in
      emitted "max_reconnect_attempts" (log s')
      = emitted "max_reconnect_attempts" (log s) ++ [PEmpty] /\
      delays (log s') = delays (log s) /\
      timers s' = timers s /\
      reconnectAttempts s' = reconnectAttempts s) /\
   (forall es : list event,
      OnOpen ∉ es ->
      let s' := run behaviour secure host es s in
      exhausted s' /\
      reconnectAttempts s' = reconnectAttempts s /\
      delays (log s') = delays (log s))).
Proof.
  split; [apply onopen_resets|].
  split.
  { intros e Hne.
    destruct (step_advances s e Hne) as (_ & _ & [[Ha _]|(_ & Ha & _)]); lia. }
  split.
  { intros tok. pose proof (view_connect tok true s) as Hv.
    apply (f_equal v_attempts) in Hv. exact Hv. }
  split.
  { pose proof (view_scheduleReconnect s) as Hv.
    apply (f_equal v_attempts) in Hv. simpl in Hv. rewrite Hv.
    unfold v_schedule. simpl.
    destruct (maxReconnectAttempts s <=? reconnectAttempts s); simpl; lia. }
  intros Hex. unfold exhausted in Hex.
  assert (Hle : (maxReconnectAttempts s <=? reconnectAttempts s) = true)
    by (apply Z.leb_le; exact Hex).
  split; [|split].
  - intros tok code reason Hcode s'.
    pose proof (view_onclose code reason
                  (connect behaviour secure host tok true s)) as Hv.
    fold s' in Hv. rewrite view_connect in Hv.
    unfold v_onclose, v_connect, v_schedule in Hv.
    apply Z.eqb_neq in Hcode. rewrite Hcode in Hv. simpl in Hv.
    rewrite Hle in Hv. unfold view_of in Hv.
    injection Hv as _ _ Ha _ Ht Hd Hg _. auto.
  - intros tok s'.
    pose proof (view_connect tok false s) as Hv. fold s' in Hv.
    unfold v_connect, v_schedule in Hv. simpl in Hv.
    rewrite Hle in Hv. unfold view_of in Hv.
    injection Hv as _ _ Ha _ Ht Hd Hg _. auto.
  - intros es Hes s'.
    destruct (run_exhausted es s Hex Hes) as (Hm & Ha & Hd).
    fold s' in Hm, Ha, Hd. unfold exhausted. rewrite Hm, Ha. auto.
Qed.

End Props.


(** ** Concrete runs *)

(** Three listeners of [new_post], the second of which throws: all three
    run, in order, and one error line is written. *)
Example emit_with_a_throwing_listener :
  let s := subscribe_all "new_post" [1; 2; 3]%nat (constructor []) in
  let s' := emit recorder "new_post" PEmpty s in
  registered "new_post" s = [1; 2; 3]%nat /\
  world s' = [1; 2; 3]%nat /\
  calls "new_post" (log s') = [1; 2; 3]%nat /\
  length (console_errors (log s')) = 1%nat.
Proof. vm_compute. auto. Qed.

Lemma emit_invokes_all_listeners_witness :
  calls "new_post"
    (log (emit recorder "new_post" PEmpty
            (subscribe_all "new_post" [1; 2; 3]%nat (constructor []))))
  = [1; 2; 3]%nat.
Proof.
  destruct (emit_invokes_all_listeners recorder
              (subscribe_all "new_post" [1; 2; 3]%nat (constructor []))
              "new_post" PEmpty) as (H & _).
  rewrite H. vm_compute. reflexivity.
Defined.

Lemma unsubscribe_removes_that_listener_witness :
  let s := subscribe_all "new_post" [1; 2; 3]%nat (constructor []) in
  let u := snd (subscribe "new_post" 2%nat s) in
  registered "new_post" (invoke u s) = [1; 3]%nat /\
  calls "new_post" (log (emit recorder "new_post" PEmpty (invoke u s)))
  = [1; 3]%nat /\
  invoke u (invoke u s) = invoke u s.
Proof.
  intros s u.
  destruct (unsubscribe_removes_that_listener recorder true "localhost"
              s "new_post" 2%nat) as (_ & H).
  destruct (H s) as (H1 & _ & _ & _ & _ & _ & H7 & _).
  split; [|split].
  - etransitivity; [exact H1|]. vm_compute. reflexivity.
  - vm_compute. reflexivity.
  - exact H7.
Defined.

Lemma subscribe_twice_registers_once_witness :
  wf (constructor (W := list nat) []) /\
  invocations "new_post" 4
    (log (emit recorder "new_post" PEmpty
            (fst (subscribe "new_post" 4%nat
                    (fst (subscribe "new_post" 4%nat (constructor [])))))))
  = 1%nat.
Proof.
  split; [apply wf_constructor|].
  destruct (subscribe_twice_registers_once recorder (constructor [])
              "new_post" 4%nat (wf_constructor [])) as (_ & _ & H & _).
  rewrite (H PEmpty). vm_compute. reflexivity.
Defined.

(** Counterexample to C4 as worded (delay [reconnectDelay * 2 ^ n] for the
    incremented counter [n]): on the first attempt the counter is 1 when
    the delay is computed, and the delay is 1000, not [1000 * 2 ^ 1]. *)
Lemma scheduleReconnect_first_delay_is_base :
  let s' := scheduleReconnect silent (constructor tt) in
  reconnectAttempts s' = 1 /\
  delays (log s') = [1000] /\
  delays (log s') <> [reconnectDelay s' * 2 ^ reconnectAttempts s'] /\
  delays (log s') <> [1000 * 2 ^ 1].
Proof. vm_compute. repeat split; discriminate. Qed.

Lemma scheduleReconnect_delay_witness :
  0 <= reconnectAttempts (constructor tt)
    < maxReconnectAttempts (constructor tt) /\
  timers (scheduleReconnect silent (constructor tt)) = [1000].
Proof.
  split; [vm_compute; split; [discriminate|reflexivity]|].
  destruct (scheduleReconnect_delay silent true "localhost" (constructor tt)
              None []) as (H & _).
  destruct H as (_ & H & _).
  - vm_compute. split; [discriminate|reflexivity].
  - rewrite H. vm_compute. reflexivity.
Defined.

Lemma six_failures_abnormal : Forall abnormal six_failures.
Proof. repeat constructor; discriminate. Qed.

Lemma five_retries_abnormal : Forall abnormal five_retries.
Proof. repeat constructor; discriminate. Qed.

Lemma reconnect_budget_witness :
  settings_ok opened /\ reconnectAttempts opened = 0 /\
  isConnected opened = true /\
  (let s := run silent true "localhost"
              (failures (ConnectionLost 1006 "Connection lost") five_retries)
              opened in
   delays (log s) = [1000; 2000; 4000; 8000; 16000] /\
   emitted "max_reconnect_attempts" (log s) = [PEmpty] /\
   timers s = []) /\
  (let s := run silent true "localhost"
              (failures (ConnectFailed (Some "t0k3n"%string) ConstructorThrew)
                 five_retries)
              (constructor tt) in
   delays (log s) = [1000; 2000; 4000; 8000; 16000] /\
   emitted "max_reconnect_attempts" (log s) = [PEmpty] /\
   timers s = []).
Proof.
  assert (Hs : settings_ok opened) by (split; reflexivity).
  assert (Ha : reconnectAttempts opened = 0) by reflexivity.
  split; [exact Hs|]. split; [exact Ha|]. split; [reflexivity|].
  split.
  - destruct (reconnect_budget silent true "localhost" opened Hs Ha)
      as (_ & H).
    destruct (H (ConnectionLost 1006 "Connection lost") five_retries
                eq_refl I ltac:(discriminate) five_retries_abnormal)
      as (Hd & _ & H6).
    destruct (H6 eq_refl) as (Hg & Ht & _).
    split; [exact Hd|]. split; [exact Hg|exact Ht].
  - destruct (reconnect_budget silent true "localhost" (constructor tt)
                ltac:(split; reflexivity) eq_refl)
      as (_ & H).
    destruct (H (ConnectFailed (Some "t0k3n"%string) ConstructorThrew)
                five_retries eq_refl eq_refl I five_retries_abnormal)
      as (Hd & _ & H6).
    destruct (H6 eq_refl) as (Hg & Ht & _).
    split; [exact Hd|]. split; [exact Hg|exact Ht].
Defined.

Lemma reconnectAttempts_reset_only_by_onopen_witness :
  exhausted worn_out /\
  let s' := onclose silent 1006 "Connection lost"
              (connect silent true "localhost" (Some "t0k3n"%string) true
                 worn_out) in
  emitted "max_reconnect_attempts" (log s') = [PEmpty] /\
  delays (log s') = [] /\
  reconnectAttempts s' = 5.
Proof.
  assert (Hex : exhausted worn_out) by (vm_compute; discriminate).
  split; [exact Hex|].
  destruct (reconnectAttempts_reset_only_by_onopen silent true "localhost"
              worn_out) as (_ & _ & _ & _ & H).
  destruct (H Hex) as (H1 & _).
  destruct (H1 (Some "t0k3n"%string) 1006 "Connection lost"%string)
    as (Hg & Hd & _ & Ha);
    [discriminate|].
  split; [exact Hg|]. split; [exact Hd|exact Ha].
Defined.

(** After an open the budget is available again. *)
Example open_restores_budget :
  let s := run silent true "localhost"
             [Connect None true; OnOpen; OnClose 1006 "Connection lost"]
             worn_out in
  reconnectAttempts s = 1 /\ timers s = [1000].
Proof. vm_compute. auto. Qed.

End ServiceProps.

(** * Further properties of the feed component *)

Module FeedEventsProps.
Import Data Feed FeedEvents.

Lemma ids_map_same (f : post -> post) (l : list post) :
  (forall p, id (f p) = id p) -> ids (map f l) = ids l.
Proof.
  intros Hf. unfold ids. rewrite map_map. apply map_ext. exact Hf.
Qed.

Lemma id_like_mapper (c : ctx) (data : like_update) (p : post) :
  id (like_mapper c data p) = id p.
Proof. unfold like_mapper. destruct (id p =? lu_post_id data); reflexivity. Qed.

Lemma id_new_comment_mapper (pid : option Z) (p : post) :
  id (new_comment_mapper pid p) = id p.
Proof.
  unfold new_comment_mapper. destruct (strict_eq (id p) pid); reflexivity.
Qed.

Lemma id_comment_deleted_mapper (pid : option Z) (p : post) :
  id (comment_deleted_mapper pid p) = id p.
Proof.
  unfold comment_deleted_mapper. destruct (strict_eq (id p) pid); reflexivity.
Qed.

Lemma id_update_mapper (u p : post) :
  id (if id p =? id u then merge p u else p) = id p.
Proof.
  destruct (Z.eqb_spec (id p) (id u)) as [He|]; [|reflexivity].
  simpl. symmetry. exact He.
Qed.

Lemma ids_filter_NoDup (P : post -> Prop) `{forall p, Decision (P p)}
    (l : list post) :
  NoDup (ids l) -> NoDup (ids (filter P l)).
Proof.
  unfold ids. induction l as [|p l IH]; simpl; intros Hnd; [constructor|].
  apply NoDup_cons in Hnd as [Hp Hl].
  rewrite filter_cons. destruct (decide (P p)).
  - simpl. apply NoDup_cons. split; [|apply IH; exact Hl].
    intros Hin. apply Hp.
    apply list_elem_of_fmap in Hin as (q & Hq & Hin).
    apply list_elem_of_filter in Hin as [_ Hin].
    apply list_elem_of_fmap. exists q. auto.
  - apply IH. exact Hl.
Qed.

Lemma not_in_ids_filter (x : Z) (l : list post) :
  x ∉ ids (filter (fun p => id p ≠ x) l).
Proof.
  unfold ids. intros Hin.
  apply list_elem_of_fmap in Hin as (q & Hq & Hin).
  apply list_elem_of_filter in Hin as [Hne _]. congruence.
Qed.

Lemma filter_absent (x : Z) (l : list post) :
  x ∉ ids l -> filter (fun p => id p ≠ x) l = l.
Proof.
  unfold ids. induction l as [|p l IH]; simpl; intros Hn; [reflexivity|].
  apply not_elem_of_cons in Hn as [Hp Hl].
  rewrite filter_cons_True by congruence. rewrite IH by exact Hl.
  reflexivity.
Qed.

Lemma state_eta (st : state) :
  mkState (posts st) (loading st) (loadingMore st) (error st) (page st)
          (hasMore st) (newPostsCount st) = st.
Proof. destruct st; reflexivity. Qed.

(** X1. Removing a post, by the pushed [post_deleted] event on a mounted
    feed or by the card's own delete callback: the list becomes the posts
    whose id differs, in their order; the id is gone afterwards; unique
    ids stay unique; an id that is not listed leaves the state as it is;
    doing it twice is doing it once; and both paths give the same
    state. *)
Theorem post_removed (c : ctx) (post_id : Z) (st : state) :
  isMounted c = true ->
  let st' := on_post_deleted c post_id st in
  posts st' = filter (fun p => id p ≠ post_id) (posts st) /\
  (post_id ∉ ids (posts st')) /\
  (forall p, p ∈ posts st -> id p <> post_id -> p ∈ posts st') /\
  posts st' `sublist_of` posts st /\
  (NoDup (ids (posts st)) -> NoDup (ids (posts st'))) /\
  (post_id ∉ ids (posts st) -> st' = st) /\
  on_post_deleted c post_id st' = st' /\
  handlePostDeleted post_id st = st'.
Proof.
  intros Hm st'. subst st'. unfold on_post_deleted. rewrite Hm. simpl.
  split; [reflexivity|].
  split; [apply not_in_ids_filter|].
  split.
  { intros p Hin Hne. apply list_elem_of_filter. auto. }
  split; [apply sublist_filter|].
  split; [apply ids_filter_NoDup|].
  split.
  { intros Hn. rewrite filter_absent by exact Hn. apply state_eta. }
  split; [|reflexivity].
  rewrite (filter_absent post_id (filter _ (posts st)))
    by apply not_in_ids_filter.
  reflexivity.
Qed.

Lemma post_removed_witness :
  isMounted at_top = true /\
  posts (on_post_deleted at_top 2 (with_posts [sample 3; sample 2; sample 1]))
  = [sample 3; sample 1].
Proof.
  split; [reflexivity|].
  destruct (post_removed at_top 2
              (with_posts [sample 3; sample 2; sample 1]) eq_refl)
    as (H & _).
  rewrite H. reflexivity.
Defined.

Lemma comment_deleted_count (x : Z) :
  Z.max 0 (js_or x 1 - 1) = Z.max 0 (x - 1).
Proof. unfold js_or. destruct (Z.eqb_spec x 0) as [->|]; reflexivity. Qed.

Lemma new_comment_count (x : Z) : js_or x 0 + 1 = x + 1.
Proof. unfold js_or. destruct (Z.eqb_spec x 0) as [->|]; reflexivity. Qed.

Lemma comment_round_trip (pid : option Z) (p : post) :
  0 <= comments_count p ->
  comment_deleted_mapper pid (new_comment_mapper pid p) = p.
Proof.
  intros Hp. unfold comment_deleted_mapper, new_comment_mapper.
  destruct (strict_eq (id p) pid) eqn:E; simpl; rewrite E; [|reflexivity].
  unfold with_comments_count. simpl.
  rewrite comment_deleted_count, new_comment_count.
  replace (Z.max 0 (comments_count p + 1 - 1)) with (comments_count p) by lia.
  destruct p; reflexivity.
Qed.

(** X2. The comment counters of a mounted feed. A [new_comment] event
    adds one to [comments_count] of the posts with the payload's
    [post_id]; a [comment_deleted] event takes one off and stops at 0, so
    the count is never negative afterwards; both leave the other posts,
    the other fields, the ids and the order alone, and an event without a
    [post_id] changes no post. A [new_comment] followed by a
    [comment_deleted] for the same post gives back the list it started
    from when no count was negative. *)
Theorem comment_counters (c : ctx) (pid : option Z) (st : state) :
  isMounted c = true ->
  (forall (i : nat) (p : post),
     posts st !! i = Some p ->
     posts (on_new_comment c pid st) !! i
     = Some (if strict_eq (id p) pid
             then with_comments_count (comments_count p + 1) p else p) /\
     posts (on_comment_deleted c pid st) !! i
     = Some (if strict_eq (id p) pid
             then with_comments_count (Z.max 0 (comments_count p - 1)) p
             else p)) /\
  (forall p', p' ∈ posts (on_comment_deleted c pid st) ->
     strict_eq (id p') pid = true -> 0 <= comments_count p') /\
  ids (posts (on_new_comment c pid st)) = ids (posts st) /\
  ids (posts (on_comment_deleted c pid st)) = ids (posts st) /\
  (pid = None -> posts (on_new_comment c pid st) = posts st /\
                 posts (on_comment_deleted c pid st) = posts st) /\
  (Forall (fun p => 0 <= comments_count p) (posts st) ->
   on_comment_deleted c pid (on_new_comment c pid st) = st).
Proof.
  intros Hm. unfold on_new_comment, on_comment_deleted. rewrite Hm. simpl.
  split; [|split; [|split; [|split; [|split]]]].
  - intros i p Hi. rewrite !list_lookup_fmap, Hi. simpl.
    unfold new_comment_mapper, comment_deleted_mapper.
    rewrite new_comment_count, comment_deleted_count. auto.
  - intros p' Hin Hid.
    apply list_elem_of_fmap in Hin as (p & -> & _).
    unfold comment_deleted_mapper in *.
    destruct (strict_eq (id p) pid) eqn:E; simpl; [lia|].
    congruence.
  - apply ids_map_same, id_new_comment_mapper.
  - apply ids_map_same, id_comment_deleted_mapper.
  - intros ->. split; (etransitivity; [|apply map_id]); apply map_ext;
      reflexivity.
  - intros Hall. unfold set_posts. simpl. rewrite map_map.
    rewrite <- (state_eta st) at 8. f_equal.
    etransitivity; [|apply map_id].
    apply map_ext_Forall.
    eapply Forall_impl; [exact Hall|].
    intros p Hp. simpl. apply comment_round_trip. exact Hp.
Qed.

Lemma comment_counters_witness :
  isMounted at_top = true /\
  posts (on_comment_deleted at_top (Some 1) (with_posts [sample 1; sample 2]))
    !! 0%nat
  = Some (sample 1).
Proof.
  split; [reflexivity|].
  destruct (comment_counters at_top (Some 1)
              (with_posts [sample 1; sample 2]) eq_refl) as (H & _).
  destruct (H 0%nat (sample 1) eq_refl) as [_ H2].
  rewrite H2. reflexivity.
Defined.

Lemma step_keeps_ids_unique (st : state) (e : event) :
  keeps_ids_unique e ->
  NoDup (ids (posts st)) -> NoDup (ids (posts (step st e))).
Proof.
  intros He Hnd.
  destruct e as [c d|c d|c x|c x|c x|p|x|p| |n|c n a r|c m]; simpl.
  - apply FeedProps.on_new_post_NoDup. exact Hnd.
  - unfold on_like_update. destruct (negb (isMounted c)); [exact Hnd|].
    simpl. rewrite ids_map_same by apply id_like_mapper. exact Hnd.
  - unfold on_post_deleted. destruct (negb (isMounted c)); [exact Hnd|].
    simpl. apply ids_filter_NoDup. exact Hnd.
  - unfold on_new_comment. destruct (negb (isMounted c)); [exact Hnd|].
    simpl. rewrite ids_map_same by apply id_new_comment_mapper. exact Hnd.
  - unfold on_comment_deleted. destruct (negb (isMounted c)); [exact Hnd|].
    simpl. rewrite ids_map_same by apply id_comment_deleted_mapper.
    exact Hnd.
  - apply FeedProps.handleLocalPostCreated_NoDup. exact Hnd.
  - apply ids_filter_NoDup. exact Hnd.
  - rewrite ids_map_same by apply id_update_mapper. exact Hnd.
  - unfold loadNewPosts_begin, fetchPosts_begin. simpl. exact Hnd.
  - unfold fetchPosts_begin. destruct (n =? 1); exact Hnd.
  - destruct He as [-> Hr].
    unfold fetchPosts_resolve, fetchPosts_finally.
    destruct (isMounted c); simpl; assumption.
  - unfold fetchPosts_reject, fetchPosts_finally.
    destruct (isMounted c); simpl; exact Hnd.
Qed.

(** X3. Ids stay unique through every change of the feed except a fetch
    that appends: any run of pushed events, of the cards' callbacks, of
    refresh clicks, of failed fetches and of fetches that replace the
    list by a page without repeated ids keeps a duplicate-free list
    duplicate-free. *)
Theorem ids_stay_unique (es : list event) (st : state) :
  Forall keeps_ids_unique es ->
  NoDup (ids (posts st)) ->
  NoDup (ids (posts (run es st))).
Proof.
  unfold run. revert st.
  induction es as [|e es IH]; intros st Hes Hnd; simpl; [exact Hnd|].
  apply Forall_cons in Hes as [He Hes].
  apply IH; [exact Hes|]. apply step_keeps_ids_unique; assumption.
Qed.

Lemma ids_stay_unique_witness :
  Forall keeps_ids_unique
    [FetchStarted 1;
     FetchResolved at_top 1 false (mkResponse [sample 2; sample 1] true);
     NewPost at_top (sample 3); NewPost scrolled (sample 2);
     LocalPostCreated (sample 3); CommentDeleted at_top (Some 2);
     LocalPostDeleted 1] /\
  NoDup (ids (posts init)) /\
  NoDup (ids (posts (run
    [FetchStarted 1;
     FetchResolved at_top 1 false (mkResponse [sample 2; sample 1] true);
     NewPost at_top (sample 3); NewPost scrolled (sample 2);
     LocalPostCreated (sample 3); CommentDeleted at_top (Some 2);
     LocalPostDeleted 1] init))).
Proof.
  assert (H1 : Forall keeps_ids_unique
    [FetchStarted 1;
     FetchResolved at_top 1 false (mkResponse [sample 2; sample 1] true);
     NewPost at_top (sample 3); NewPost scrolled (sample 2);
     LocalPostCreated (sample 3); CommentDeleted at_top (Some 2);
     LocalPostDeleted 1]).
  { repeat first [apply Forall_nil_2 | apply Forall_cons_2];
      simpl; try exact I.
    split; [reflexivity|solve_NoDup]. }
  assert (H2 : NoDup (ids (posts init))) by constructor.
  split; [exact H1|]. split; [exact H2|].
  apply ids_stay_unique; assumption.
Defined.

(** X4. A feed that has been unmounted ignores whatever still reaches it:
    any run of pushed events and of fetch results that find the mounted
    flag cleared leaves the state exactly as it was. *)
Theorem nothing_after_unmount (es : list event) (st : state) :
  Forall after_unmount es -> run es st = st.
Proof.
  unfold run. revert st.
  induction es as [|e es IH]; intros st Hes; simpl; [reflexivity|].
  apply Forall_cons in Hes as [He Hes].
  rewrite <- (IH st Hes) at 2. f_equal.
  destruct e as [c d|c d|c x|c x|c x|p|x|p| |n|c n a r|c m]; simpl in *;
    try contradiction.
  - unfold on_new_post. rewrite He. reflexivity.
  - unfold on_like_update. rewrite He. reflexivity.
  - unfold on_post_deleted. rewrite He. reflexivity.
  - unfold on_new_comment. rewrite He. reflexivity.
  - unfold on_comment_deleted. rewrite He. reflexivity.
  - unfold fetchPosts_resolve, fetchPosts_finally. rewrite He. reflexivity.
  - unfold fetchPosts_reject, fetchPosts_finally. rewrite He. reflexivity.
Qed.

Lemma nothing_after_unmount_witness :
  Forall after_unmount
    [NewPost (mkCtx None None false 0) (sample 5);
     FetchResolved (mkCtx None None false 0) 2 true
       (mkResponse [sample 1] false);
     PostDeleted (mkCtx None None false 0) 1] /\
  run [NewPost (mkCtx None None false 0) (sample 5);
       FetchResolved (mkCtx None None false 0) 2 true
         (mkResponse [sample 1] false);
       PostDeleted (mkCtx None None false 0) 1]
      (with_posts [sample 1])
  = with_posts [sample 1].
Proof.
  assert (H : Forall after_unmount
    [NewPost (mkCtx None None false 0) (sample 5);
     FetchResolved (mkCtx None None false 0) 2 true
       (mkResponse [sample 1] false);
     PostDeleted (mkCtx None None false 0) 1])
    by (repeat constructor).
  split; [exact H|]. apply nothing_after_unmount. exact H.
Defined.

(** X5. New posts pushed while the viewer is scrolled down are held back:
    over any run of such events the list does not change, and the banner
    counter grows by the number of events whose id is not listed, an id
    that arrives twice being counted twice. [loadNewPosts] then sets the
    counter to 0 and starts the fetch of page 1. *)
Theorem held_back_posts_are_counted (evs : list (ctx * post)) (st : state) :
  Forall held_back evs ->
  posts (on_new_posts evs st) = posts st /\
  newPostsCount (on_new_posts evs st)
  = newPostsCount st
    + Z.of_nat (length (filter (fun e => id (snd e) ∉ ids (posts st)) evs)) /\
  newPostsCount (loadNewPosts_begin (on_new_posts evs st)) = 0 /\
  posts (loadNewPosts_begin (on_new_posts evs st)) = posts st /\
  loading (loadNewPosts_begin (on_new_posts evs st)) = true.
Proof.
  intros Hall.
  assert (H : posts (on_new_posts evs st) = posts st /\
              newPostsCount (on_new_posts evs st)
              = newPostsCount st
                + Z.of_nat (length (filter
                     (fun e => id (snd e) ∉ ids (posts st)) evs))).
  { unfold on_new_posts. revert st.
    induction evs as [|[c d] evs IH]; intros st; simpl.
    - split; [reflexivity|]. lia.
    - apply Forall_cons in Hall as [(Hm & Hs & Hy) Hall]. simpl in *.
      specialize (IH Hall (on_new_post c d st)).
      assert (Hstep : posts (on_new_post c d st) = posts st /\
                newPostsCount (on_new_post c d st)
                = newPostsCount st
                  + (if decide (id d ∉ ids (posts st)) then 1 else 0)).
      { unfold on_new_post. rewrite Hm, Hs. simpl.
        destruct (exists_id (id d) (posts st)) eqn:E.
        - apply FeedProps.exists_id_spec in E.
          destruct (decide (id d ∉ ids (posts st))); [tauto|].
          split; [reflexivity|]. lia.
        - apply FeedProps.exists_id_false in E.
          apply Z.ltb_ge in Hy. rewrite Hy. simpl.
          destruct (decide (id d ∉ ids (posts st))); [|tauto].
          split; reflexivity. }
      destruct Hstep as [Hp Hc]. destruct IH as [IH1 IH2].
      rewrite Hp in IH1, IH2. split; [exact IH1|].
      rewrite IH2, Hc. rewrite filter_cons. simpl.
      destruct (decide (id d ∉ ids (posts st))); simpl; lia. }
  destruct H as [H1 H2].
  split; [exact H1|]. split; [exact H2|].
  unfold loadNewPosts_begin, fetchPosts_begin. simpl. auto.
Qed.

Lemma held_back_posts_are_counted_witness :
  Forall held_back [(scrolled, sample 2); (scrolled, sample 2);
                    (scrolled, sample 1)] /\
  newPostsCount (on_new_posts [(scrolled, sample 2); (scrolled, sample 2);
                               (scrolled, sample 1)] (with_posts [sample 1]))
  = 2.
Proof.
  assert (H : Forall held_back [(scrolled, sample 2); (scrolled, sample 2);
                                (scrolled, sample 1)]).
  { repeat constructor; simpl; lia. }
  split; [exact H|].
  destruct (held_back_posts_are_counted _ (with_posts [sample 1]) H)
    as (_ & Hc & _).
  rewrite Hc. vm_compute. reflexivity.
Defined.

(** X6. A post that reaches the feed twice is listed once, whichever copy
    comes first: the pushed [new_post] event and the local insertion of
    the same post, in either order, put the post in front of a list that
    did not have it and leave a list that had it as it was; and the pushed
    event and a fetch that replaces the list by a page containing the
    post, in either order, end with exactly that page. *)
Theorem post_arriving_twice (c c' : ctx) (p : post) (n : Z) (r : response)
    (st : state) :
  (id p ∉ ids (posts st) ->
   posts (on_new_post c p (handleLocalPostCreated p st)) = p :: posts st /\
   posts (handleLocalPostCreated p (on_new_post c p st)) = p :: posts st) /\
  (id p ∈ ids (posts st) ->
   posts (on_new_post c p (handleLocalPostCreated p st)) = posts st /\
   posts (handleLocalPostCreated p (on_new_post c p st)) = posts st) /\
  (isMounted c' = true -> id p ∈ ids (r_posts r) ->
   posts (on_new_post c p (fetchPosts_resolve c' n false r st)) = r_posts r /\
   posts (fetchPosts_resolve c' n false r (on_new_post c p st)) = r_posts r).
Proof.
  split; [|split].
  - intros Hn. apply FeedProps.exists_id_false in Hn.
    unfold handleLocalPostCreated, on_new_post. rewrite Hn.
    split; destruct (negb (isMounted c)), (negb (shouldAdd c p)),
      (scrollY c <? 100); simpl;
      rewrite ?Z.eqb_refl, ?Hn; simpl; rewrite ?Z.eqb_refl, ?Hn;
      reflexivity.
  - intros Hin. apply FeedProps.exists_id_spec in Hin.
    unfold handleLocalPostCreated, on_new_post. rewrite Hin.
    split; destruct (negb (isMounted c)), (negb (shouldAdd c p));
      rewrite ?Hin; reflexivity.
  - intros Hm Hin. apply FeedProps.exists_id_spec in Hin.
    unfold fetchPosts_resolve, fetchPosts_finally. rewrite Hm.
    split; [|reflexivity].
    unfold on_new_post. simpl. rewrite Hin.
    destruct (negb (isMounted c)), (negb (shouldAdd c p)); reflexivity.
Qed.

Lemma post_arriving_twice_witness :
  posts (on_new_post at_top (sample 3)
           (handleLocalPostCreated (sample 3) (with_posts [sample 1])))
  = [sample 3; sample 1] /\
  posts (handleLocalPostCreated (sample 3)
           (on_new_post scrolled (sample 3) (with_posts [sample 1])))
  = [sample 3; sample 1].
Proof.
  destruct (post_arriving_twice scrolled at_top (sample 3) 1
              (mkResponse [] false) (with_posts [sample 1])) as (H & _).
  destruct (post_arriving_twice at_top at_top (sample 3) 1
              (mkResponse [] false) (with_posts [sample 1])) as (H' & _).
  split; [apply H'|apply H]; solve_NoDup.
Defined.

Lemma like_mapper_idem (c : ctx) (data : like_update) (p : post) :
  like_mapper c data (like_mapper c data p) = like_mapper c data p.
Proof.
  unfold like_mapper.
  destruct (id p =? lu_post_id data) eqn:E; simpl; rewrite E; [|reflexivity].
  unfold apply_like. simpl. destruct (same_actor c data); reflexivity.
Qed.

Lemma like_mapper_last (c : ctx) (d1 d2 : like_update) (p : post) :
  lu_post_id d1 = lu_post_id d2 -> same_actor c d2 = true ->
  like_mapper c d2 (like_mapper c d1 p) = like_mapper c d2 p.
Proof.
  intros Hid Ha. unfold like_mapper. rewrite Hid.
  destruct (id p =? lu_post_id d2) eqn:E; simpl; rewrite E; [|reflexivity].
  unfold apply_like. simpl. rewrite Ha. reflexivity.
Qed.

(** X7. On a mounted feed, like events overwrite: the same [like_update]
    applied twice gives the state it gives applied once, and of two
    events for the same post the later one alone decides [likes_count];
    when the later one is the viewer's own it decides the whole state. A
    like event changes neither the ids, nor the order, nor any
    [comments_count]. *)
Theorem like_updates_overwrite (c : ctx) (d1 d2 : like_update) (st : state) :
  isMounted c = true ->
  on_like_update c d1 (on_like_update c d1 st) = on_like_update c d1 st /\
  (lu_post_id d1 = lu_post_id d2 ->
   forall (i : nat) (p : post),
     posts st !! i = Some p -> id p = lu_post_id d2 ->
     exists p',
       posts (on_like_update c d2 (on_like_update c d1 st)) !! i = Some p' /\
       likes_count p' = lu_likes_count d2) /\
  (lu_post_id d1 = lu_post_id d2 -> actor_is_viewer c d2 ->
   on_like_update c d2 (on_like_update c d1 st) = on_like_update c d2 st) /\
  ids (posts (on_like_update c d1 st)) = ids (posts st) /\
  map comments_count (posts (on_like_update c d1 st))
  = map comments_count (posts st).
Proof.
  intros Hm. unfold on_like_update. rewrite Hm. simpl.
  split; [|split; [|split; [|split]]].
  - rewrite map_map. f_equal. apply map_ext. intros p.
    apply like_mapper_idem.
  - intros Hid i p Hi Hp. rewrite map_map, list_lookup_fmap, Hi. simpl.
    eexists. split; [reflexivity|].
    unfold like_mapper at 2. rewrite Hid.
    apply Z.eqb_eq in Hp. rewrite Hp.
    unfold like_mapper. simpl. rewrite Hp. reflexivity.
  - intros Hid Ha. apply FeedProps.same_actor_spec in Ha.
    rewrite map_map. f_equal. apply map_ext. intros p.
    apply like_mapper_last; assumption.
  - apply ids_map_same, id_like_mapper.
  - rewrite map_map. apply map_ext. intros p. unfold like_mapper.
    destruct (id p =? lu_post_id d1); reflexivity.
Qed.

Lemma like_updates_overwrite_witness :
  isMounted at_top = true /\
  on_like_update at_top (mkLikeUpdate 1 5 (Some (mkUser 7)) true)
    (on_like_update at_top (mkLikeUpdate 1 40 None false)
       (with_posts [sample 1; sample 2]))
  = with_posts [mkPost 1 7 "hello" 5 0 true; sample 2].
Proof.
  split; [reflexivity|].
  destruct (like_updates_overwrite at_top (mkLikeUpdate 1 40 None false)
              (mkLikeUpdate 1 5 (Some (mkUser 7)) true)
              (with_posts [sample 1; sample 2]) eq_refl)
    as (_ & _ & H & _).
  rewrite H; [reflexivity|reflexivity|].
  exists (mkUser 7), (mkUser 7). repeat split.
Defined.

Lemma fetch_flags (c : ctx) (st : state) :
  isMounted c = true ->
  loading (fetchPosts_finally c st) = false /\
  loadingMore (fetchPosts_finally c st) = false.
Proof. intros Hm. unfold fetchPosts_finally. rewrite Hm. auto. Qed.

(** X8. A fetch on a mounted feed, from its start to its end: while the
    request is out exactly one of the two loading flags has been raised
    (the first for page 1, the second for any other page) and the error
    is cleared; when it fails, the posts, the page number, [hasMore] and
    the banner counter are what they were before the fetch, the error is
    the message, and both flags are down; when it succeeds both flags are
    down, the error stays cleared, the page number and [hasMore] are
    those of the response, and the list is the page itself, or the old
    list followed by the page when appending. *)
Theorem fetch_from_start_to_end (c : ctx) (n : Z) (append : bool)
    (r : response) (message : string) (st : state) :
  isMounted c = true ->
  let st1 := fetchPosts_begin n st in
  let failed := fetchPosts_reject c message st1 in
  let done := fetchPosts_resolve c n append r st1 in
  error st1 = None /\ posts st1 = posts st /\
  (n = 1 -> loading st1 = true /\ loadingMore st1 = loadingMore st) /\
  (n <> 1 -> loadingMore st1 = true /\ loading st1 = loading st) /\
  failed = mkState (posts st) false false (Some message) (page st)
                   (hasMore st) (newPostsCount st) /\
  done = mkState (if append then posts st ++ r_posts r else r_posts r)
                 false false None n (has_more r) (newPostsCount st).
Proof.
  intros Hm st1 failed done. subst st1 failed done.
  unfold fetchPosts_reject, fetchPosts_resolve, fetchPosts_finally,
    fetchPosts_begin.
  rewrite Hm. simpl.
  split; [reflexivity|]. split; [destruct (n =? 1); reflexivity|].
  split.
  { intros ->. simpl. auto. }
  split.
  { intros Hn. apply Z.eqb_neq in Hn. rewrite Hn. simpl. auto. }
  split; destruct (n =? 1); reflexivity.
Qed.

Lemma fetch_from_start_to_end_witness :
  isMounted at_top = true /\
  fetchPosts_reject at_top "Failed to load posts. Please try again."
    (fetchPosts_begin 2 (with_posts [sample 2; sample 1]))
  = mkState [sample 2; sample 1] false false
      (Some "Failed to load posts. Please try again."%string) 1 true 0.
Proof.
  split; [reflexivity|].
  destruct (fetch_from_start_to_end at_top 2 true (mkResponse [] false)
              "Failed to load posts. Please try again."
              (with_posts [sample 2; sample 1]) eq_refl)
    as (_ & _ & _ & _ & H & _).
  exact H.
Defined.

End FeedEventsProps.

(** * Properties of the post card and its comment section *)

Module CardProps.
Import Data Post.

(** X9. Two like toggles whose requests both succeed, the second started
    after the first has settled, bring [isLiked] and [likesCount] back to
    what they were; after the first one [isLiked] is flipped and the
    count has moved by one; [commentsCount] is not touched and no toggle
    stays in flight. *)
Theorem like_toggle_twice (st : Post.state) :
  isLiking st = false ->
  let st1 := fst (handleLike Resolved st) in
  let st2 := fst (handleLike Resolved st1) in
  isLiked st1 = negb (isLiked st) /\
  likesCount st1 = (if isLiked st then likesCount st - 1
                    else likesCount st + 1) /\
  isLiking st1 = false /\
  isLiked st2 = isLiked st /\
  likesCount st2 = likesCount st /\
  commentsCount st2 = commentsCount st /\
  isLiking st2 = false.
Proof.
  intros H. unfold handleLike, handleLike_start. rewrite H. simpl.
  destruct (isLiked st); simpl; repeat split; lia.
Qed.

Lemma like_toggle_twice_witness :
  isLiking (init (Feed.sample 4)) = false /\
  likesCount (fst (handleLike Resolved (init (Feed.sample 4)))) = 1 /\
  likesCount (fst (handleLike Resolved
                     (fst (handleLike Resolved (init (Feed.sample 4)))))) = 0.
Proof.
  split; [reflexivity|].
  destruct (like_toggle_twice (init (Feed.sample 4)) eq_refl)
    as (_ & H1 & _ & _ & H2 & _).
  split; [exact H1|exact H2].
Defined.

(** X10. A [like_update] for the card's post that reaches the feed while
    the card's own toggle is in flight replaces the optimistic values
    (the feed builds a new post object, and the card copies it). When the
    request then succeeds the pushed values stay: the count is the
    event's, and [isLiked] is the event's flag if the event is the
    viewer's own and the post's old flag otherwise. When the request
    fails the card goes back to the values captured at the click, so the
    pushed count is lost on the card although the feed's post has it. *)
Theorem like_update_during_request (c : Feed.ctx) (d : like_update)
    (p : post) (st st1 : Post.state) (previous : bool * Z) :
  id p = lu_post_id d ->
  handleLike_start st = Some (st1, previous) ->
  let pushed := sync (Feed.like_mapper c d p) st1 in
  let ok := fst (handleLike_settle Resolved previous pushed) in
  let failed := fst (handleLike_settle Rejected previous pushed) in
  likesCount pushed = lu_likes_count d /\
  likesCount ok = lu_likes_count d /\
  isLiked ok = (if Feed.same_actor c d then isLike d else is_liked p) /\
  likesCount failed = likesCount st /\
  isLiked failed = isLiked st /\
  likes_count (Feed.like_mapper c d p) = lu_likes_count d /\
  isLiking ok = false /\ isLiking failed = false.
Proof.
  intros Hid Hs. unfold handleLike_start in Hs.
  destruct (isLiking st); [discriminate|].
  injection Hs as <- <-.
  unfold Feed.like_mapper. apply Z.eqb_eq in Hid. rewrite Hid.
  simpl. repeat split.
Qed.

Lemma like_update_during_request_witness :
  let st := init (Feed.sample 1) in
  let d := mkLikeUpdate 1 12 (Some (mkUser 8)) true in
  id (Feed.sample 1) = lu_post_id d /\
  handleLike_start st = Some (mkState true 1 0 true true, (false, 0)) /\
  likesCount
    (fst (handleLike_settle Rejected (false, 0)
            (sync (Feed.like_mapper Feed.at_top d (Feed.sample 1))
                  (mkState true 1 0 true true)))) = 0 /\
  likes_count (Feed.like_mapper Feed.at_top d (Feed.sample 1)) = 12.
Proof.
  intros st d.
  split; [reflexivity|]. split; [reflexivity|].
  destruct (like_update_during_request Feed.at_top d (Feed.sample 1) st
              (mkState true 1 0 true true) (false, 0) eq_refl eq_refl)
    as (_ & _ & _ & H1 & _ & H2 & _).
  split; [exact H1|exact H2].
Defined.

End CardProps.

Module CommentSectionProps.
Import CommentSection.

Lemma length_filter_listed (x : Z) (l : list comment) :
  NoDup (comment_ids l) -> x ∈ comment_ids l ->
  S (length (filter (fun c => c_id c ≠ x) l)) = length l.
Proof.
  unfold comment_ids.
  induction l as [|a l IH]; simpl; intros Hnd Hin.
  - inversion Hin.
  - apply NoDup_cons in Hnd as [Hna Hnd].
    destruct (decide (c_id a = x)) as [Heq|Hne].
    + rewrite filter_cons_False by (intros H; apply H; exact Heq).
      f_equal. subst x.
      clear IH Hin Hnd. induction l as [|b l IH]; [reflexivity|].
      simpl in Hna. apply not_elem_of_cons in Hna as [Hab Hna].
      rewrite filter_cons_True by (intros H; apply Hab; symmetry; exact H).
      simpl. f_equal. apply IH, Hna.
    + rewrite filter_cons_True by exact Hne.
      simpl. f_equal. apply IH; [exact Hnd|].
      apply elem_of_cons in Hin as [Hx|Hx]; [congruence|exact Hx].
Qed.

Lemma filter_unlisted (x : Z) (l : list comment) :
  x ∉ comment_ids l -> filter (fun c => c_id c ≠ x) l = l.
Proof.
  unfold comment_ids.
  induction l as [|a l IH]; simpl; intros Hn; [reflexivity|].
  apply not_elem_of_cons in Hn as [Hxa Hn].
  rewrite filter_cons_True by (intros H; apply Hxa; symmetry; exact H).
  f_equal. apply IH, Hn.
Qed.

(** X11. The count on the card and the list in the section move
    together: when the count equals the number of listed comments, it
    still does after a comment was posted, and after a listed comment was
    deleted (the ids of the list being distinct). Deleting a comment that
    is not listed leaves the list alone but still lowers the count,
    though never below 0. Posting a comment with a new id and deleting it
    again gives back the list and the count. *)
Theorem comment_count_in_step (st : state) (parent : Post.state)
    (created : comment) (commentId : Z) :
  in_step st parent ->
  in_step (fst (handleSubmit_resolved created st parent))
          (snd (handleSubmit_resolved created st parent)) /\
  (NoDup (comment_ids (comments st)) ->
   commentId ∈ comment_ids (comments st) ->
   in_step (fst (handleDelete_resolved commentId st parent))
           (snd (handleDelete_resolved commentId st parent))) /\
  (commentId ∉ comment_ids (comments st) ->
   comments (fst (handleDelete_resolved commentId st parent)) = comments st /\
   Post.commentsCount (snd (handleDelete_resolved commentId st parent))
   = Z.max 0 (Z.of_nat (length (comments st)) - 1)) /\
  0 <= Post.commentsCount (snd (handleDelete_resolved commentId st parent)) /\
  (c_id created ∉ comment_ids (comments st) ->
   let posted := handleSubmit_resolved created st parent in
   let deleted := handleDelete_resolved (c_id created) (fst posted)
                    (snd posted) in
   comments (fst deleted) = comments st /\
   Post.commentsCount (snd deleted) = Post.commentsCount parent).
Proof.
  unfold in_step. intros Hs.
  split; [|split; [|split; [|split]]].
  - simpl. rewrite length_app, Hs. simpl. lia.
  - intros Hnd Hin. simpl.
    pose proof (length_filter_listed commentId (comments st) Hnd Hin) as Hl.
    rewrite Hs. lia.
  - intros Hn. simpl. rewrite filter_unlisted by exact Hn.
    rewrite Hs. split; reflexivity.
  - simpl. lia.
  - intros Hn. simpl. rewrite filter_app, filter_unlisted by exact Hn.
    rewrite filter_cons_False by (intros H; apply H; reflexivity).
    rewrite filter_nil, app_nil_r. split; [reflexivity|]. lia.
Qed.

Lemma comment_count_in_step_witness :
  let st := mkState [mkComment 5 1 "first"; mkComment 6 2 "second"]
              EmptyString false false None in
  let parent := Post.mkState false 0 2 false false in
  in_step st parent /\
  in_step (fst (handleDelete_resolved 5 st parent))
          (snd (handleDelete_resolved 5 st parent)).
Proof.
  intros st parent.
  assert (H : in_step st parent) by reflexivity.
  split; [exact H|].
  destruct (comment_count_in_step st parent (mkComment 7 1 "third") 5 H)
    as (_ & Hd & _).
  apply Hd.
  - solve_NoDup.
  - simpl. left.
Defined.

End CommentSectionProps.

(** * Properties of the inbound frames *)

Module InboundProps.
Import Inbound Wire.

Lemma get_set_same (k : string) (v : jsval) (o : list (string * jsval)) :
  get k (set k v o) = v.
Proof.
  induction o as [|[k' v'] o IH]; simpl.
  - rewrite String.eqb_refl. reflexivity.
  - destruct (String.eqb k' k) eqn:E; simpl.
    + rewrite String.eqb_refl. reflexivity.
    + rewrite E. exact IH.
Qed.

Lemma get_set_other (k k0 : string) (v : jsval) (o : list (string * jsval)) :
  k0 <> k -> get k0 (set k v o) = get k0 o.
Proof.
  intros Hne. induction o as [|[k' v'] o IH]; simpl.
  - destruct (String.eqb_spec k k0); [congruence|reflexivity].
  - destruct (String.eqb_spec k' k) as [->|Hk]; simpl.
    + destruct (String.eqb_spec k k0); [congruence|reflexivity].
    + destruct (String.eqb k' k0); [reflexivity|exact IH].
Qed.

Lemma set_keys (k : string) (v : jsval) (o : list (string * jsval)) :
  k ∈ map fst o -> map fst (set k v o) = map fst o.
Proof.
  induction o as [|[k' v'] o IH]; simpl; intros Hin.
  - inversion Hin.
  - destruct (String.eqb_spec k' k) as [->|Hk]; simpl; [reflexivity|].
    f_equal. apply IH.
    apply elem_of_cons in Hin as [Hx|Hx]; [congruence|exact Hx].
Qed.

(** X12. Where a frame goes. [handleMessage] emits nothing exactly for a
    [pong] frame. Whatever it emits is never emitted under the names
    [connected], [new_like], [unlike] or [pong], so a listener subscribed
    to one of these through [handleMessage] alone hears nothing. A frame
    whose type is none of the eight named ones is emitted under its own
    type with its [data] untouched; in particular a frame typed
    [like_update] reaches the [like_update] listeners without the
    [isLike] flag being set for it. *)
Theorem frame_routing (m : message) :
  (handleMessage m = NoEmission <-> m_type m = "pong"%string) /\
  (forall ev d, handleMessage m = EmitAs ev d ->
     ev ∉ ["connected"; "new_like"; "unlike"; "pong"]%string) /\
  ((m_type m ∉ known_types) ->
   handleMessage m = EmitAs (m_type m) (m_data m)) /\
  (forall ev d, handleMessage m = EmitAs ev d ->
     ev = "like_update"%string ->
     (m_type m = "like_update"%string /\ d = m_data m) \/
     m_type m = "new_like"%string \/ m_type m = "unlike"%string).
Proof.
  destruct m as [t data pid]. unfold handleMessage, known_types. simpl.
  destruct (String.eqb_spec t "connected") as [->|H1].
  { simpl. split; [split; discriminate|].
    split; [intros ev d [= <- <-]; solve_NoDup|].
    split; [intros H; exfalso; apply H; solve_NoDup|].
    intros ev d [= <- <-]. discriminate. }
  destruct (String.eqb_spec t "new_post") as [->|H2].
  { simpl. split; [split; discriminate|].
    split; [intros ev d [= <- <-]; solve_NoDup|].
    split; [intros H; exfalso; apply H; solve_NoDup|].
    intros ev d [= <- <-]. discriminate. }
  destruct (String.eqb_spec t "new_comment") as [->|H3].
  { simpl. split; [split; discriminate|].
    split; [intros ev d [= <- <-]; solve_NoDup|].
    split; [intros H; exfalso; apply H; solve_NoDup|].
    intros ev d [= <- <-]. discriminate. }
  destruct (String.eqb_spec t "new_like") as [->|H4].
  { simpl. split; [split; discriminate|].
    split; [intros ev d [= <- <-]; solve_NoDup|].
    split; [intros H; exfalso; apply H; solve_NoDup|].
    intros ev d _ _. right. left. reflexivity. }
  destruct (String.eqb_spec t "unlike") as [->|H5].
  { simpl. split; [split; discriminate|].
    split; [intros ev d [= <- <-]; solve_NoDup|].
    split; [intros H; exfalso; apply H; solve_NoDup|].
    intros ev d _ _. right. right. reflexivity. }
  simpl.
  destruct (String.eqb_spec t "post_deleted") as [->|H6].
  { split; [split; discriminate|].
    split; [intros ev d [= <- <-]; solve_NoDup|].
    split; [intros H; exfalso; apply H; solve_NoDup|].
    intros ev d [= <- <-]. discriminate. }
  destruct (String.eqb_spec t "comment_deleted") as [->|H7].
  { split; [split; discriminate|].
    split; [intros ev d [= <- <-]; solve_NoDup|].
    split; [intros H; exfalso; apply H; solve_NoDup|].
    intros ev d [= <- <-]. discriminate. }
  destruct (String.eqb_spec t "pong") as [->|H8].
  { split; [split; reflexivity|].
    split; [intros ev d [=]|].
    split; [intros H; exfalso; apply H; solve_NoDup|].
    intros ev d [=]. }
  split; [split; [discriminate|intros; contradiction]|].
  split.
  { intros ev d [= <- <-]. rewrite !not_elem_of_cons.
    repeat split; try assumption. apply not_elem_of_nil. }
  split; [reflexivity|].
  intros ev d [= <- <-] ->. left. split; reflexivity.
Qed.

(** X13. What the two rewriting cases give the listeners. For a
    [new_like] or [unlike] frame the payload emitted as [like_update] has
    [isLike] set to whether the type is [new_like], whatever [data] said
    about [isLike], and every other property as in [data]. For a
    [new_comment] frame the payload has [post_id] set to the frame's own
    [post_id], whatever [data] said about [post_id] (so also to
    [undefined] when the frame has none), and every other property as in
    [data]. *)
Theorem payload_rewrites (m : message) :
  (m_type m = "new_like"%string \/ m_type m = "unlike"%string ->
   exists d,
     handleMessage m = EmitAs "like_update" (Some d) /\
     get "isLike" d = Bool (String.eqb (m_type m) "new_like") /\
     (forall k, k <> "isLike"%string -> get k d = get k (spread (m_data m))))
  /\
  (m_type m = "new_comment"%string ->
   exists d,
     handleMessage m = EmitAs "new_comment" (Some d) /\
     get "post_id" d = m_post_id m /\
     (forall k, k <> "post_id"%string -> get k d = get k (spread (m_data m)))).
Proof.
  destruct m as [t data pid]. unfold handleMessage. simpl. split.
  - intros [-> | ->]; simpl; eexists; (split; [reflexivity|]);
      (split; [apply get_set_same|intros k Hk; apply get_set_other, Hk]).
  - intros ->. simpl. eexists. split; [reflexivity|].
    split; [apply get_set_same|intros k Hk; apply get_set_other, Hk].
Qed.

Lemma payload_rewrites_witness :
  exists d,
    handleMessage like_frame = EmitAs "like_update" (Some d) /\
    get "isLike" d = Bool true /\
    get "likes_count" d = Num 9.
Proof.
  destruct (payload_rewrites like_frame) as [H _].
  destruct (H (or_introl eq_refl)) as (d & H1 & H2 & H3).
  exists d. split; [exact H1|]. split; [exact H2|].
  rewrite H3 by discriminate. reflexivity.
Defined.

(** X14. From a comment frame to the feed's counters. For a
    [new_comment] frame the feed counts the comment for the post named by
    the frame's own [post_id]; a [post_id] inside [data] is not read, so
    a frame that names the post only there changes no counter. For a
    [comment_deleted] frame it is the other way round: the post is the
    one named inside [data]. *)
Theorem comment_frames_reach_feed (c : Feed.ctx) (m : message)
    (st : Feed.state) :
  (m_type m = "new_comment"%string ->
   feed_reaction c m st
   = Some (FeedEvents.on_new_comment c (post_id_of (m_post_id m)) st)) /\
  (m_type m = "new_comment"%string -> post_id_of (m_post_id m) = None ->
   feed_reaction c m st = Some st) /\
  (forall d, m_type m = "comment_deleted"%string -> m_data m = Some d ->
   feed_reaction c m st
   = Some (FeedEvents.on_comment_deleted c (post_id_of (get "post_id" d))
             st)).
Proof.
  destruct m as [t data pid]. unfold feed_reaction, handleMessage. simpl.
  split; [|split].
  - intros ->. simpl. rewrite get_set_same. reflexivity.
  - intros -> Hp. simpl. rewrite get_set_same, Hp. f_equal.
    unfold FeedEvents.on_new_comment, FeedEvents.set_posts.
    destruct (negb (Feed.isMounted c)); [reflexivity|].
    destruct st as [ps l lm e pg hm n]. simpl. f_equal.
    rewrite <- (map_id ps) at 2.
    apply map_ext. intros p. reflexivity.
  - intros d -> ->. reflexivity.
Qed.

(** The two sample frames on a mounted feed that lists post 1: the one
    carrying the id beside [data] is counted, the one carrying it inside
    [data] is not. *)
Example comment_frames_counted :
  feed_reaction Feed.at_top comment_frame_outer
    (Feed.with_posts [Feed.sample 1])
  = Some (Feed.with_posts [Data.mkPost 1 7 "hello" 0 1 false]) /\
  feed_reaction Feed.at_top comment_frame_inner
    (Feed.with_posts [Feed.sample 1])
  = Some (Feed.with_posts [Feed.sample 1]).
Proof. split; reflexivity. Qed.

End InboundProps.

(** * Properties of the HTTP client and the authentication provider *)

Module ApiProps.
Import Api.

Lemma append_assoc (s1 s2 s3 : string) :
  ((s1 +:+ s2) +:+ s3 = s1 +:+ (s2 +:+ s3))%string.
Proof.
  induction s1 as [|a s1 IH]; [reflexivity|].
  change (String a ((s1 +:+ s2) +:+ s3) = String a (s1 +:+ (s2 +:+ s3)))%string.
  f_equal. exact IH.
Qed.

(** The [Authorization] header of an outgoing request. *)
Lemma request_authorization (b : browser) (c : config) :
  headers (request_interceptor b c) !! "Authorization"%string
  = match localStorage b !! "token"%string with
    | Some t =>
        if truthy (Some t) then Some ("Bearer " +:+ t)%string
        else headers c !! "Authorization"%string
    | None => headers c !! "Authorization"%string
    end.
Proof.
  unfold request_interceptor. cbn [headers].
  destruct (localStorage b !! "token"%string) as [t|];
    [destruct (truthy (Some t))|];
    destruct (form_data c);
    rewrite ?lookup_delete_ne by discriminate;
    rewrite ?lookup_insert_eq; reflexivity.
Qed.

(** X15. The headers of an outgoing request. When [localStorage] holds a
    non-empty token the request carries it as [Bearer] token, also in
    place of an [Authorization] header the caller had set itself (as
    [createAuthConfig] does); otherwise the caller's header, if any, is
    kept. [Content-Type] is removed exactly for a [FormData] body, and no
    other header is changed. *)
Theorem request_headers (b : browser) (c : config) :
  (forall t, localStorage b !! "token"%string = Some t -> t <> EmptyString ->
     headers (request_interceptor b c) !! "Authorization"%string
     = Some ("Bearer " +:+ t)%string /\
     forall t' form,
       headers (request_interceptor b (createAuthConfig t' form))
         !! "Authorization"%string
       = Some ("Bearer " +:+ t)%string) /\
  (truthy (localStorage b !! "token"%string) = false ->
     headers (request_interceptor b c) !! "Authorization"%string
     = headers c !! "Authorization"%string /\
     forall t' form,
       headers (request_interceptor b (createAuthConfig t' form))
         !! "Authorization"%string
       = Some ("Bearer " +:+ t')%string) /\
  headers (request_interceptor b c) !! "Content-Type"%string
  = (if form_data c then None else headers c !! "Content-Type"%string) /\
  (forall k, k <> "Authorization"%string -> k <> "Content-Type"%string ->
     headers (request_interceptor b c) !! k = headers c !! k) /\
  form_data (request_interceptor b c) = form_data c.
Proof.
  split; [|split; [|split; [|split]]].
  - intros t Ht Hne.
    assert (Htr : truthy (Some t) = true).
    { simpl. destruct (String.eqb_spec t EmptyString); [contradiction|].
      reflexivity. }
    split; [|intros t' form]; rewrite request_authorization, Ht, Htr;
      reflexivity.
  - intros Hf. split; [|intros t' form]; rewrite request_authorization.
    + destruct (localStorage b !! "token"%string) as [t|]; [|reflexivity].
      rewrite Hf. reflexivity.
    + assert (Hl : headers (createAuthConfig t' form) !! "Authorization"%string
                   = Some ("Bearer " +:+ t')%string).
      { unfold createAuthConfig. simpl. apply lookup_insert_eq. }
      destruct (localStorage b !! "token"%string) as [t|]; [|exact Hl].
      rewrite Hf. exact Hl.
  - unfold request_interceptor. simpl.
    destruct (form_data c); [apply lookup_delete_eq|].
    destruct (localStorage b !! "token"%string) as [t|]; [|reflexivity].
    destruct (truthy (Some t)); [|reflexivity].
    apply lookup_insert_ne. discriminate.
  - intros k Ha Hc. unfold request_interceptor. simpl.
    assert (Hh : forall h : gmap string string,
               (if form_data c then delete "Content-Type"%string h else h) !! k
               = h !! k).
    { intros h. destruct (form_data c); [|reflexivity].
      apply lookup_delete_ne. congruence. }
    rewrite Hh.
    destruct (localStorage b !! "token"%string) as [t|]; [|reflexivity].
    destruct (truthy (Some t)); [|reflexivity].
    apply lookup_insert_ne. congruence.
  - reflexivity.
Qed.

(** X16. What a failed request does to the browser. A 401 answer
    received on a page other than [/login] and [/register] removes the
    token and the user from [localStorage], keeps every other key, sends
    the browser to [/login], and the next request carries no token from
    the storage. In every other case (another status, a 401 on one of the
    two pages, no answer at all) the browser is left as it was. The
    rejection passed on has the answer's status, and none for a network
    error. *)
Theorem unauthorized_signs_out (e : option response) (b : browser)
    (c : config) :
  let b' := snd (response_error_interceptor e b) in
  (forall r, e = Some r -> status r = 401 -> on_auth_page b = false ->
     localStorage b' !! "token"%string = None /\
     localStorage b' !! "user"%string = None /\
     (forall k, k <> "token"%string -> k <> "user"%string ->
        localStorage b' !! k = localStorage b !! k) /\
     href b' = Some "/login"%string /\
     pathname b' = pathname b /\
     headers (request_interceptor b' c) !! "Authorization"%string
     = headers c !! "Authorization"%string) /\
  ((forall r, e = Some r -> status r <> 401 \/ on_auth_page b = true) ->
   b' = b) /\
  r_status (fst (response_error_interceptor e b)) = option_map status e.
Proof.
  intros b'. subst b'. split; [|split].
  - intros r -> Hs Hp.
    assert (Hb : snd (response_error_interceptor (Some r) b)
                 = mkBrowser (delete "user"%string
                                (delete "token"%string (localStorage b)))
                             (pathname b) (Some "/login"%string)).
    { unfold response_error_interceptor. rewrite Hs, Hp. reflexivity. }
    rewrite Hb. cbn [localStorage href pathname].
    assert (Ht : delete "user"%string
                   (delete "token"%string (localStorage b)) !! "token"%string
                 = None).
    { rewrite lookup_delete_ne by discriminate. apply lookup_delete_eq. }
    split; [exact Ht|].
    split; [apply lookup_delete_eq|].
    split.
    { intros k Hk1 Hk2.
      rewrite lookup_delete_ne by congruence.
      apply lookup_delete_ne. congruence. }
    split; [reflexivity|]. split; [reflexivity|].
    rewrite request_authorization. cbn [localStorage]. rewrite Ht.
    reflexivity.
  - intros H. destruct e as [r|]; [|reflexivity].
    unfold response_error_interceptor. simpl.
    destruct (H r eq_refl) as [Hs|Hp].
    + apply Z.eqb_neq in Hs. rewrite Hs. reflexivity.
    + rewrite Hp, andb_false_r. reflexivity.
  - destruct e; reflexivity.
Qed.

(** X17. The message a caller shows for a failed request, reading
    [detail] with its own fallback: without an answer it is the network
    message; for a 429 it is the rate-limit message, naming the seconds
    when the [retry-after] header is a non-empty string and [later]
    otherwise, whatever [detail] the server sent; for any other status it
    is the server's [detail] when that is a non-empty string and the
    caller's fallback otherwise. *)
Theorem rejection_message (e : option response) (b : browser)
    (fallback : string) :
  let shown := message_of (fst (response_error_interceptor e b)) fallback in
  (e = None ->
   shown = "Network error. Please check your connection."%string) /\
  (forall r t, e = Some r -> status r = 429 -> retry_after r = Some t ->
     t <> EmptyString ->
     shown = ("Too many requests. Please try again in " +:+ t
              +:+ " seconds.")%string) /\
  (forall r, e = Some r -> status r = 429 ->
     truthy (retry_after r) = false ->
     shown = "Too many requests. Please try again later."%string) /\
  (forall r, e = Some r -> status r <> 429 ->
     shown = if truthy (detail r) then default fallback (detail r)
             else fallback).
Proof.
  intros shown. subst shown. split; [|split; [|split]].
  - intros ->. reflexivity.
  - intros r t -> Hs Hr Hne.
    unfold response_error_interceptor, message_of. rewrite Hs, Hr. simpl.
    destruct (String.eqb_spec t EmptyString); [contradiction|]. simpl.
    rewrite !append_assoc. reflexivity.
  - intros r -> Hs Hr.
    unfold response_error_interceptor, message_of. rewrite Hs. simpl.
    destruct (retry_after r) as [t|]; [|reflexivity].
    rewrite Hr. reflexivity.
  - intros r -> Hs. apply Z.eqb_neq in Hs.
    unfold response_error_interceptor, message_of. rewrite Hs. simpl.
    destruct (detail r) as [d|]; [|reflexivity].
    destruct (truthy (Some d)); reflexivity.
Qed.

Lemma request_headers_witness :
  headers (request_interceptor
             (mkBrowser {[ "token"%string := "abc"%string ]} "/" None)
             (createAuthConfig "old" true)) !! "Authorization"%string
  = Some "Bearer abc"%string.
Proof.
  destruct (request_headers
              (mkBrowser {[ "token"%string := "abc"%string ]} "/" None)
              (default_config true)) as (H & _).
  destruct (H "abc"%string) as [_ H'];
    [reflexivity|discriminate|].
  exact (H' "old"%string true).
Defined.

Lemma unauthorized_signs_out_witness :
  localStorage
    (snd (response_error_interceptor (Some (mkResponse 401 None None))
            (mkBrowser {[ "token"%string := "abc"%string ]} "/profile" None)))
    !! "token"%string = None.
Proof.
  destruct (unauthorized_signs_out (Some (mkResponse 401 None None))
              (mkBrowser {[ "token"%string := "abc"%string ]} "/profile" None)
              (default_config false)) as [H _].
  destruct (H _ eq_refl eq_refl eq_refl) as [H1 _]. exact H1.
Defined.

Lemma rejection_message_witness :
  message_of
    (fst (response_error_interceptor
            (Some (mkResponse 429 (Some "30"%string)
                     (Some "slow down"%string)))
            (mkBrowser ∅ "/" None)))
    "Failed to post comment"
  = "Too many requests. Please try again in 30 seconds."%string.
Proof.
  destruct (rejection_message
              (Some (mkResponse 429 (Some "30"%string)
                       (Some "slow down"%string)))
              (mkBrowser ∅ "/" None) "Failed to post comment")
    as (_ & H & _).
  apply (H _ "30"%string eq_refl eq_refl eq_refl). discriminate.
Defined.

End ApiProps.

Module AuthProps.
Import Auth.

Section Props.

Variable stringify : Data.user -> string.

(** What every reachable state satisfies. *)
Lemma step_mirrors (st : state) (e : event) :
  token st = localStorage st !! "token"%string ->
  (forall u, user st = Some u ->
     localStorage st !! "user"%string = Some (stringify u)) ->
  token (step stringify st e)
  = localStorage (step stringify st e) !! "token"%string /\
  (forall u, user (step stringify st e) = Some u ->
     localStorage (step stringify st e) !! "user"%string
     = Some (stringify u)).
Proof.
  intros Ht Hu.
  destruct e; simpl; unfold store_user, clear_credentials;
    (split; [|intros u' Hu']);
    rewrite ?lookup_insert_eq, ?lookup_delete_eq;
    rewrite ?lookup_insert_ne by discriminate;
    rewrite ?lookup_delete_ne by discriminate;
    rewrite ?lookup_delete_eq;
    try discriminate; try congruence; auto.
Qed.

Lemma run_mirrors (es : list event) (st : state) :
  token st = localStorage st !! "token"%string ->
  (forall u, user st = Some u ->
     localStorage st !! "user"%string = Some (stringify u)) ->
  token (run stringify es st)
  = localStorage (run stringify es st) !! "token"%string /\
  (forall u, user (run stringify es st) = Some u ->
     localStorage (run stringify es st) !! "user"%string
     = Some (stringify u)).
Proof.
  revert st. induction es as [|e es IH]; intros st Ht Hu.
  - split; assumption.
  - unfold run. simpl. destruct (step_mirrors st e Ht Hu) as [Ht' Hu'].
    apply IH; assumption.
Qed.

(** X18. The provider and the storage agree. Whatever the provider goes
    through after its first render (loading the user, logins that succeed
    or fail at either request, profile updates, logouts), its token is
    the one stored under [token], and a user it holds is the one stored
    under [user]. So whenever it reports [isAuthenticated], the next
    request carries its token. *)
Theorem provider_mirrors_storage (storage : gmap string string)
    (es : list event) (path : string) (c : Api.config) :
  let st := run stringify es (init storage) in
  token st = localStorage st !! "token"%string /\
  (forall u, user st = Some u ->
     localStorage st !! "user"%string = Some (stringify u)) /\
  (isAuthenticated st = true ->
   exists t,
     token st = Some t /\
     Api.headers (Api.request_interceptor (browser_of path st) c)
       !! "Authorization"%string
     = Some ("Bearer " +:+ t)%string).
Proof.
  intros st.
  destruct (run_mirrors es (init storage)) as [Ht Hu];
    [reflexivity|discriminate|].
  fold st in Ht, Hu.
  split; [exact Ht|]. split; [exact Hu|].
  unfold isAuthenticated. intros Ha.
  apply andb_true_iff in Ha as [Ha _].
  destruct (token st) as [t|] eqn:E; [|discriminate].
  exists t. split; [reflexivity|].
  rewrite ApiProps.request_authorization. cbn [browser_of Api.localStorage].
  rewrite <- Ht, Ha. reflexivity.
Qed.

(** X19. Logging out, from any state: the provider holds neither user
    nor token nor error and no longer reports [isAuthenticated]; the
    storage has lost [token] and [user] and kept its other keys; the next
    request carries no token from the storage; and a second logout
    changes nothing. *)
Theorem logout_signs_out (st : state) (path : string) (c : Api.config) :
  let st' := step stringify st Logout in
  user st' = None /\ token st' = None /\ error st' = None /\
  isAuthenticated st' = false /\
  localStorage st' !! "token"%string = None /\
  localStorage st' !! "user"%string = None /\
  (forall k, k <> "token"%string -> k <> "user"%string ->
     localStorage st' !! k = localStorage st !! k) /\
  Api.headers (Api.request_interceptor (browser_of path st') c)
    !! "Authorization"%string
  = Api.headers c !! "Authorization"%string /\
  step stringify st' Logout = st'.
Proof.
  intros st'. subst st'. cbn [step]. unfold clear_credentials.
  assert (Ht : delete "user"%string
                 (delete "token"%string (localStorage st)) !! "token"%string
               = None).
  { rewrite lookup_delete_ne by discriminate. apply lookup_delete_eq. }
  do 4 (split; [reflexivity|]).
  cbn [localStorage].
  split; [exact Ht|].
  split; [apply lookup_delete_eq|].
  split.
  { intros k Hk1 Hk2. rewrite lookup_delete_ne by congruence.
    apply lookup_delete_ne. congruence. }
  split.
  - rewrite ApiProps.request_authorization.
    cbn [browser_of Api.localStorage localStorage]. rewrite Ht. reflexivity.
  - cbn [user token error loading localStorage]. f_equal. apply map_eq.
    intros k. rewrite !lookup_delete.
    destruct (decide ("user"%string = k)), (decide ("token"%string = k));
      reflexivity.
Qed.

(** X20. A login that fails. When the first request fails, the token
    in the provider and the storage are what they were. When the token
    [t] was received, a non-empty one that differs from the provider's,
    and the request for the user then fails, the new token is in the
    provider and in the storage, and it starts the provider's own
    [loadUser]. If that is rejected as well, before or after the login's
    rejection arrives, the provider ends with neither token nor user,
    the storage has lost both, and no request carries a token from it.
    If it succeeds, the provider ends with the token and the user, and
    reports [isAuthenticated], although the login reported a failure. In
    every case the error is the message and [loading] is off. *)
Theorem failed_login (st : state) (t message : string) (o : loaded)
    (i : nat) (path : string) (c : Api.config) :
  t <> EmptyString -> token st <> Some t ->
  let early := run stringify [LoginStarted; LoginFailed message] st in
  let late := run stringify (login_fails_late st t message o i) st in
  (token early = token st /\ localStorage early = localStorage st /\
   user early = user st /\ error early = Some message /\
   loading early = false) /\
  error late = Some message /\ loading late = false /\
  match o with
  | UserRejected =>
      token late = None /\ user late = None /\
      localStorage late !! "token"%string = None /\
      localStorage late !! "user"%string = None /\
      isAuthenticated late = false /\
      Api.headers (Api.request_interceptor (browser_of path late) c)
        !! "Authorization"%string
      = Api.headers c !! "Authorization"%string
  | UserLoaded u =>
      token late = Some t /\ user late = Some u /\
      localStorage late !! "token"%string = Some t /\
      localStorage late !! "user"%string = Some (stringify u) /\
      isAuthenticated late = true /\
      Api.headers (Api.request_interceptor (browser_of path late) c)
        !! "Authorization"%string
      = Some ("Bearer " +:+ t)%string
  end.
Proof.
  intros Hne Hchg early late.
  assert (Htr : Api.truthy (Some t) = true).
  { simpl. destruct (String.eqb_spec t EmptyString); [contradiction|].
    reflexivity. }
  split; [subst early; unfold run; simpl; repeat split|].
  subst late early. unfold login_fails_late, token_effect.
  destruct (decide (token st = Some t)) as [Heq|_]; [contradiction|].
  rewrite Htr. unfold run.
  destruct o as [u|].
  - assert (Hl : store_user stringify u
                   (<["token"%string := t]> (localStorage st))
                 !! "token"%string = Some t).
    { unfold store_user. rewrite lookup_insert_ne by discriminate.
      apply lookup_insert_eq. }
    destruct i as [|i]; cbn [take drop app fold_left step user token error
                             loading localStorage];
      rewrite ?take_nil, ?drop_nil;
      cbn [app fold_left step user token error loading localStorage];
      (split; [reflexivity|]); (split; [reflexivity|]);
      (split; [reflexivity|]); (split; [reflexivity|]);
      (split; [exact Hl|]);
      (split; [unfold store_user; apply lookup_insert_eq|]);
      (split; [unfold isAuthenticated; cbn [token user]; rewrite Htr;
               reflexivity|]);
      rewrite ApiProps.request_authorization;
      cbn [browser_of Api.localStorage localStorage]; rewrite Hl, Htr;
      reflexivity.
  - assert (Hl : clear_credentials
                   (<["token"%string := t]> (localStorage st))
                 !! "token"%string = None).
    { unfold clear_credentials. rewrite lookup_delete_ne by discriminate.
      apply lookup_delete_eq. }
    destruct i as [|[|i]]; cbn [take drop app fold_left step user token
                                error loading localStorage];
      rewrite ?take_nil, ?drop_nil;
      cbn [app fold_left step user token error loading localStorage];
      (split; [reflexivity|]); (split; [reflexivity|]);
      (split; [reflexivity|]); (split; [reflexivity|]);
      (split; [exact Hl|]);
      (split; [unfold clear_credentials; apply lookup_delete_eq|]);
      (split; [reflexivity|]);
      rewrite ApiProps.request_authorization;
      cbn [browser_of Api.localStorage localStorage]; rewrite Hl;
      reflexivity.
Qed.

End Props.

Lemma failed_login_witness :
  "abc"%string <> EmptyString /\
  token (init ∅) <> Some "abc"%string /\
  let late := run (fun _ => "user"%string)
                (login_fails_late (init ∅) "abc" "Oops" UserRejected 0)
                (init ∅) in
  token late = None /\
  isAuthenticated late = false /\
  Api.headers (Api.request_interceptor (browser_of "/login" late)
                 (Api.default_config false)) !! "Authorization"%string
  = None.
Proof.
  assert (H1 : "abc"%string <> EmptyString) by discriminate.
  assert (H2 : token (init ∅) <> Some "abc"%string) by discriminate.
  split; [exact H1|]. split; [exact H2|]. intros late.
  destruct (failed_login (fun _ => "user"%string) (init ∅) "abc" "Oops"
              UserRejected 0 "/login" (Api.default_config false) H1 H2)
    as (_ & _ & _ & Ht & _ & _ & _ & Ha & Hh).
  split; [exact Ht|]. split; [exact Ha|].
  fold late in Hh. rewrite Hh. reflexivity.
Defined.

End AuthProps.

(** * Properties of the service's life cycle *)

Module LifecycleProps.
Import WebSocketService ServiceLog Lifecycle.

Section Props.

Context {W : Type}.
Variable behaviour : nat -> payload -> W -> outcome W.
Variable secure : bool.
Variable host : string.

Lemma registered_same (ev : string) (s s' : @state W) :
  listeners s' = listeners s -> registered ev s' = registered ev s.
Proof. unfold registered. intros ->. reflexivity. Qed.

Lemma listeners_world_inert (p : payload) (hs : list nat) (w : W) :
  (forall h, h ∈ hs -> inert behaviour h) ->
  listeners_world behaviour p hs w = w.
Proof.
  revert w. induction hs as [|h hs IH]; intros w Hi; [reflexivity|].
  simpl. rewrite (Hi h) by left. simpl.
  apply IH. intros h' Hh'. apply Hi. right. exact Hh'.
Qed.

Lemma world_emit_inert (ev : string) (p : payload) (s : state) :
  all_inert behaviour s -> world (emit behaviour ev p s) = world s.
Proof.
  intros Hi. rewrite ServiceProps.emit_eq. simpl.
  apply listeners_world_inert. intros h Hh. exact (Hi ev h Hh).
Qed.

Lemma all_inert_same (s s' : @state W) :
  listeners s' = listeners s -> all_inert behaviour s ->
  all_inert behaviour s'.
Proof.
  intros Hl Hi ev h Hh. rewrite (registered_same ev _ _ Hl) in Hh.
  exact (Hi ev h Hh).
Qed.

Lemma world_scheduleReconnect_inert (s : state) :
  all_inert behaviour s -> world (scheduleReconnect behaviour s) = world s.
Proof.
  intros Hi. rewrite ServiceProps.scheduleReconnect_eq.
  destruct (maxReconnectAttempts s <=? reconnectAttempts s); simpl;
    [|reflexivity].
  apply listeners_world_inert. intros h Hh.
  exact (Hi "max_reconnect_attempts"%string h Hh).
Qed.

Lemma world_stopPingInterval (s : @state W) :
  world (stopPingInterval s) = world s.
Proof. unfold stopPingInterval. destruct (pingInterval s); reflexivity. Qed.

Lemma world_connect_inert (tok : option string) (ok : bool) (s : state) :
  all_inert behaviour s ->
  world (connect behaviour secure host tok ok s) = world s.
Proof.
  intros Hi. unfold connect.
  destruct ok.
  - destruct (ws (set_token tok s)); reflexivity.
  - rewrite world_scheduleReconnect_inert.
    + destruct (ws (set_token tok s)); reflexivity.
    + eapply all_inert_same; [|exact Hi].
      destruct (ws (set_token tok s)); reflexivity.
Qed.

Lemma world_onopen_inert (s : state) :
  all_inert behaviour s -> world (onopen behaviour s) = world s.
Proof.
  intros Hi. unfold onopen, startPingInterval.
  unfold set_pingInterval, push. cbn [world].
  rewrite world_stopPingInterval, world_emit_inert; [reflexivity|].
  eapply all_inert_same; [|exact Hi]. reflexivity.
Qed.

Lemma world_onclose_inert (code : Z) (reason : string) (s : state) :
  all_inert behaviour s ->
  world (onclose behaviour code reason s) = world s.
Proof.
  intros Hi. unfold onclose.
  set (s3 := stopPingInterval _).
  assert (Hl3 : listeners s3 = listeners s).
  { subst s3. rewrite ServiceProps.listeners_stopPingInterval. reflexivity. }
  assert (Hw3 : world s3 = world s).
  { subst s3. rewrite world_stopPingInterval. reflexivity. }
  assert (Hi3 : all_inert behaviour s3)
    by (eapply all_inert_same; [exact Hl3|exact Hi]).
  assert (He : world (emit behaviour "disconnected"
                        (PDisconnected code reason) s3) = world s).
  { rewrite world_emit_inert by exact Hi3. exact Hw3. }
  destruct (negb (code =? 1000)); [|exact He].
  rewrite world_scheduleReconnect_inert; [exact He|].
  eapply all_inert_same; [|exact Hi3].
  apply ServiceProps.listeners_emit.
Qed.

Lemma world_onerror_inert (s : state) :
  all_inert behaviour s -> world (onerror behaviour s) = world s.
Proof.
  intros Hi. unfold onerror. rewrite world_emit_inert; [reflexivity|].
  eapply all_inert_same; [|exact Hi]. reflexivity.
Qed.

Lemma world_disconnect (s : @state W) : world (disconnect s) = world s.
Proof.
  unfold disconnect. unfold set_listeners, set_isConnected. cbn [world].
  destruct (ws (stopPingInterval s)); cbn [world set_ws push];
    apply world_stopPingInterval.
Qed.

Lemma world_unsubscribe (ev : string) (h : nat) (s : @state W) :
  world (unsubscribe ev h s) = world s.
Proof. unfold unsubscribe. destruct (listeners s !! ev); reflexivity. Qed.

Lemma world_step_inert (s : state) (e : event) :
  all_inert behaviour s ->
  world (step behaviour secure host s e) = world s.
Proof.
  intros Hi. destruct e as [tok ok| |ev h|ev h|ev p| |code reason| |i ok];
    cbn [step].
  - apply world_connect_inert, Hi.
  - apply world_disconnect.
  - reflexivity.
  - apply world_unsubscribe.
  - apply world_emit_inert, Hi.
  - apply world_onopen_inert, Hi.
  - apply world_onclose_inert, Hi.
  - apply world_onerror_inert, Hi.
  - destruct (timers s !! i); [|reflexivity].
    unfold reconnect_callback.
    destruct (negb (isConnected (set_timers (delete i (timers s)) s)));
      [|reflexivity].
    rewrite world_connect_inert; [reflexivity|].
    eapply all_inert_same; [|exact Hi]. reflexivity.
Qed.

Lemma all_inert_step (s : state) (e : event) :
  all_inert behaviour s ->
  (forall ev h, e = Subscribe ev h -> inert behaviour h) ->
  all_inert behaviour (step behaviour secure host s e).
Proof.
  intros Hi He ev' h' Hin.
  pose proof (ServiceProps.listeners_step behaviour secure host s e) as Hl.
  destruct e as [tok ok| |ev h|ev h|ev p| |code reason| |i ok];
    try (rewrite (registered_same ev' _ _ Hl) in Hin; exact (Hi ev' h' Hin)).
  - unfold registered in Hin. rewrite Hl, lookup_empty in Hin.
    inversion Hin.
  - cbn [step] in Hin. rewrite ServiceProps.registered_subscribe in Hin.
    destruct (decide (ev = ev')) as [->|Hne]; [|exact (Hi ev' h' Hin)].
    rewrite (ServiceProps.set_add_elem behaviour) in Hin.
    destruct Hin as [->|Hin];
      [exact (He ev' h eq_refl)|exact (Hi ev' h' Hin)].
  - cbn [step] in Hin. rewrite ServiceProps.registered_unsubscribe in Hin.
    destruct (decide (ev = ev')) as [->|Hne]; [|exact (Hi ev' h' Hin)].
    rewrite ServiceProps.set_delete_elem in Hin.
    destruct Hin as [_ Hin].
    exact (Hi ev' h' Hin).
Qed.

Lemma inert_run (es : list event) (s : state) :
  all_inert behaviour s ->
  (forall ev h, Subscribe ev h ∈ es -> inert behaviour h) ->
  world (run behaviour secure host es s) = world s /\
  all_inert behaviour (run behaviour secure host es s).
Proof.
  revert s. induction es as [|e es IH]; intros s Hi Hs.
  - split; [reflexivity|exact Hi].
  - unfold run. cbn [fold_left].
    assert (Hi' : all_inert behaviour (step behaviour secure host s e)).
    { apply all_inert_step; [exact Hi|].
      intros ev h ->. apply (Hs ev h). left. }
    destruct (IH (step behaviour secure host s e) Hi') as [Hw Ha].
    { intros ev h Hin. apply (Hs ev h). right. exact Hin. }
    split; [|exact Ha].
    unfold run in Hw. rewrite Hw. apply world_step_inert, Hi.
Qed.

Lemma deaf_disconnect (s : @state W) : deaf (disconnect s).
Proof.
  intros ev. unfold registered, disconnect, set_listeners. cbn [listeners].
  rewrite lookup_empty. reflexivity.
Qed.

Lemma deaf_all_inert (s : @state W) : deaf s -> all_inert behaviour s.
Proof. intros Hd ev h Hin. rewrite (Hd ev) in Hin. inversion Hin. Qed.

Lemma not_subscribe_notin (ev : string) (h : nat) (es : list event) :
  Forall not_subscribe es -> Subscribe ev h ∉ es.
Proof.
  intros Hf Hin. rewrite Forall_forall in Hf.
  exact (Hf _ Hin).
Qed.

Lemma disconnect_twice (s : @state W) :
  disconnect (disconnect s) = disconnect s.
Proof.
  destruct s as [sock l ra mx rd ic tk pi wo ti lg].
  destruct pi, sock; reflexivity.
Qed.

(** X21. After [disconnect()] nobody listens any more: every listener
    set is empty, also those of components that are still mounted, and
    as long as nothing subscribes again, whatever happens next (another
    [connect], the socket opening, closing or failing, timeouts firing,
    emissions) calls no listener and leaves the application state as it
    was. *)
Theorem deaf_after_disconnect (s : state) (es : list event) :
  Forall not_subscribe es ->
  let s' := run behaviour secure host es (disconnect s) in
  deaf s' /\
  world s' = world s /\
  (forall ev h, invocations ev h (log s') = invocations ev h (log s)).
Proof.
  intros Hf s'.
  assert (Hun : forall ev h,
             (h ∉ registered ev s') /\
             invocations ev h (log s') = invocations ev h (log s)).
  { intros ev h. subst s'.
    destruct (ServiceProps.unregistered_run behaviour secure host ev h es
                (disconnect s)) as [H1 H2].
    - rewrite (deaf_disconnect s ev). apply not_elem_of_nil.
    - apply not_subscribe_notin, Hf.
    - split; [exact H1|]. rewrite H2.
      apply ServiceProps.invocations_disconnect. }
  split; [|split].
  - intros ev. destruct (registered ev s') as [|h l] eqn:E; [reflexivity|].
    exfalso. apply (proj1 (Hun ev h)). rewrite E. left.
  - subst s'.
    destruct (inert_run es (disconnect s)) as [Hw _].
    + apply deaf_all_inert, deaf_disconnect.
    + intros ev h Hin. exfalso.
      exact (not_subscribe_notin ev h es Hf Hin).
    + rewrite Hw. apply world_disconnect.
  - intros ev h. apply Hun.
Qed.

Lemma timer_reconnects (s : state) (i : nat) (d : Z) :
  timers s !! i = Some d -> ws s = None -> isConnected s = false ->
  let s' := step behaviour secure host s (TimerFires i true) in
  ws s' = Some (wsUrl secure host (token s)) /\
  sockets (log s') = sockets (log s) ++ [wsUrl secure host (token s)] /\
  timers s' = delete i (timers s).
Proof.
  destruct s as [sock l ra mx rd ic tk pi wo ti lg].
  cbn [timers ws isConnected token log]. intros Ht -> ->.
  cbn [step timers]. rewrite Ht.
  unfold reconnect_callback, connect. reduce_setters. cbn [negb].
  rewrite ServiceProps.sockets_app. repeat split; reflexivity.
Qed.

(** X22. A reconnect timeout that is still pending. When it fires while
    the service is connected it does nothing. [disconnect()] does not
    cancel it, and keeps the token and the attempt counter; so when it
    fires after a [disconnect()] (the provider's cleanup on logout
    included), the service opens a new socket with the token of the
    session that was ended. *)
Theorem pending_timeout (s : state) (i : nat) (d : Z) (ok isConn : bool) :
  timers s !! i = Some d ->
  (isConnected s = true ->
   step behaviour secure host s (TimerFires i ok)
   = set_timers (delete i (timers s)) s) /\
  timers (disconnect s) = timers s /\
  token (disconnect s) = token s /\
  reconnectAttempts (disconnect s) = reconnectAttempts s /\
  run behaviour secure host (StatusProvider.rerender false None isConn ok) s
  = disconnect s /\
  (let s' := step behaviour secure host (disconnect s) (TimerFires i true) in
   ws s' = Some (wsUrl secure host (token s)) /\
   sockets (log s') = sockets (log s) ++ [wsUrl secure host (token s)] /\
   timers s' = delete i (timers s)).
Proof.
  intros Ht.
  assert (Hd : timers (disconnect s) = timers s /\
               token (disconnect s) = token s /\
               reconnectAttempts (disconnect s) = reconnectAttempts s /\
               ws (disconnect s) = None /\
               isConnected (disconnect s) = false /\
               sockets (log (disconnect s)) = sockets (log s)).
  { clear Ht. destruct s as [sock l ra mx rd ic tk pi wo ti lg].
    destruct pi, sock; reduce_setters;
      rewrite ?ServiceProps.sockets_app; simpl; rewrite ?app_nil_r;
      repeat split; reflexivity. }
  destruct Hd as (Hd1 & Hd2 & Hd3 & Hd4 & Hd5 & Hd6).
  split; [|split; [exact Hd1|split; [exact Hd2|split; [exact Hd3|split]]]].
  - intros Hc. cbn [step]. rewrite Ht. unfold reconnect_callback.
    unfold set_timers at 1. cbn [isConnected]. rewrite Hc. reflexivity.
  - unfold StatusProvider.rerender, StatusProvider.connect_effect,
      StatusProvider.connect_cleanup.
    cbn [andb]. destruct isConn; unfold run; cbn [app fold_left step];
      [apply disconnect_twice|reflexivity].
  - rewrite <- Hd1 in Ht. rewrite <- Hd1, <- Hd2, <- Hd6.
    apply timer_reconnects with (d := d); assumption.
Qed.

Lemma interval_sets_app (l1 l2 : list effect) :
  interval_sets (l1 ++ l2) = (interval_sets l1 + interval_sets l2)%nat.
Proof. unfold interval_sets. rewrite omap_app, length_app. reflexivity. Qed.

Lemma interval_clears_app (l1 l2 : list effect) :
  interval_clears (l1 ++ l2)
  = (interval_clears l1 + interval_clears l2)%nat.
Proof. unfold interval_clears. rewrite omap_app, length_app. reflexivity. Qed.

Lemma interval_listeners_effects (ev : string) (p : payload) (hs : list nat)
    (w : W) :
  interval_sets (listeners_effects behaviour ev p hs w) = 0%nat /\
  interval_clears (listeners_effects behaviour ev p hs w) = 0%nat.
Proof.
  revert w. induction hs as [|h hs IH]; intros w; [split; reflexivity|].
  cbn [listeners_effects].
  destruct (IH (after (behaviour h p w))) as [IH1 IH2].
  destruct (throws (behaviour h p w)); simpl; split; assumption.
Qed.

Lemma heartbeat_push (e : effect) (s : @state W) :
  (forall n, e <> SetInterval n) -> e <> ClearInterval ->
  heartbeat (push e s) = heartbeat s.
Proof.
  intros H1 H2. unfold heartbeat, push. cbn [pingInterval isConnected log].
  rewrite interval_sets_app, interval_clears_app.
  destruct e; simpl; rewrite ?Nat.add_0_r; try reflexivity.
  - exfalso. exact (H1 _ eq_refl).
  - exfalso. exact (H2 eq_refl).
Qed.

Lemma heartbeat_emit (ev : string) (p : payload) (s : state) :
  heartbeat (emit behaviour ev p s) = heartbeat s.
Proof.
  rewrite ServiceProps.emit_eq. unfold heartbeat.
  cbn [pingInterval isConnected log].
  rewrite interval_sets_app, interval_clears_app.
  change (Emit ev p :: ?l) with ([Emit ev p] ++ l).
  destruct (interval_listeners_effects ev p (registered ev s) (world s))
    as [H1 H2].
  rewrite interval_sets_app, interval_clears_app, H1, H2. simpl.
  rewrite !Nat.add_0_r. reflexivity.
Qed.

Lemma heartbeat_scheduleReconnect (s : state) :
  heartbeat (scheduleReconnect behaviour s) = heartbeat s.
Proof.
  unfold scheduleReconnect.
  destruct (maxReconnectAttempts s <=? reconnectAttempts s).
  - rewrite heartbeat_emit. apply heartbeat_push; intros; discriminate.
  - unfold set_timers, set_reconnectAttempts, push, heartbeat.
    cbn [pingInterval isConnected log timers].
    rewrite !interval_sets_app, !interval_clears_app. simpl.
    rewrite !Nat.add_0_r. reflexivity.
Qed.

Lemma heartbeat_connect (tok : option string) (ok : bool) (s : state) :
  heartbeat (connect behaviour secure host tok ok s) = heartbeat s.
Proof.
  assert (H2 : heartbeat
                 match ws (set_token tok s) with
                 | Some _ => push (WsClose None) (set_token tok s)
                 | None => set_token tok s
                 end = heartbeat s).
  { destruct (ws (set_token tok s)); [|reflexivity].
    rewrite heartbeat_push by (intros; discriminate). reflexivity. }
  unfold connect. destruct ok.
  - rewrite <- H2.
    set (s2 := match ws (set_token tok s) with
               | Some _ => push (WsClose None) (set_token tok s)
               | None => set_token tok s
               end).
    change (heartbeat (push (NewWebSocket (wsUrl secure host tok)) s2)
            = heartbeat s2).
    apply heartbeat_push; intros; discriminate.
  - rewrite heartbeat_scheduleReconnect.
    rewrite heartbeat_push by (intros; discriminate). exact H2.
Qed.

Lemma heartbeat_stopPingInterval (s : @state W) :
  heartbeat (stopPingInterval s)
  = (false, isConnected s, interval_sets (log s),
     (interval_clears (log s) + if pingInterval s then 1 else 0)%nat).
Proof.
  unfold stopPingInterval, heartbeat.
  destruct (pingInterval s) eqn:E.
  - unfold set_pingInterval, push. cbn [pingInterval isConnected log].
    rewrite interval_sets_app, interval_clears_app. simpl.
    rewrite Nat.add_0_r. reflexivity.
  - rewrite E, Nat.add_0_r. reflexivity.
Qed.

Lemma heartbeat_fields (s s' : @state W) :
  heartbeat s' = heartbeat s ->
  pingInterval s' = pingInterval s /\ isConnected s' = isConnected s /\
  interval_sets (log s') = interval_sets (log s) /\
  interval_clears (log s') = interval_clears (log s).
Proof. unfold heartbeat. intros [= -> -> -> ->]. repeat split. Qed.

Lemma heartbeat_onopen (s : state) :
  heartbeat (onopen behaviour s)
  = (true, true, S (interval_sets (log s)),
     (interval_clears (log s) + if pingInterval s then 1 else 0)%nat).
Proof.
  unfold onopen, startPingInterval.
  set (s4 := emit behaviour "connected" PConnected _).
  assert (H4 : heartbeat s4
               = (pingInterval s, true, interval_sets (log s),
                  interval_clears (log s))).
  { subst s4. rewrite heartbeat_emit. unfold heartbeat.
    unfold set_reconnectAttempts, set_isConnected, push.
    cbn [pingInterval isConnected log].
    rewrite interval_sets_app, interval_clears_app. simpl.
    rewrite !Nat.add_0_r. reflexivity. }
  pose proof (heartbeat_stopPingInterval s4) as H5.
  unfold heartbeat in H4. injection H4 as Hp Hc Hs Hk.
  rewrite Hp, Hc, Hs, Hk in H5.
  unfold heartbeat in H5. injection H5 as Hp5 Hc5 Hs5 Hk5.
  unfold heartbeat, set_pingInterval, push.
  cbn [pingInterval isConnected log].
  rewrite interval_sets_app, interval_clears_app, Hc5, Hs5, Hk5. simpl.
  rewrite Nat.add_0_r, Nat.add_1_r. reflexivity.
Qed.

Lemma heartbeat_onclose (code : Z) (reason : string) (s : state) :
  heartbeat (onclose behaviour code reason s)
  = (false, false, interval_sets (log s),
     (interval_clears (log s) + if pingInterval s then 1 else 0)%nat).
Proof.
  unfold onclose.
  set (s2 := set_isConnected false _).
  assert (H4 : heartbeat (emit behaviour "disconnected"
                            (PDisconnected code reason) (stopPingInterval s2))
               = (false, false, interval_sets (log s),
                  (interval_clears (log s)
                   + if pingInterval s then 1 else 0)%nat)).
  { rewrite heartbeat_emit, heartbeat_stopPingInterval. subst s2.
    unfold set_isConnected, push. cbn [pingInterval isConnected log].
    rewrite interval_sets_app, interval_clears_app. simpl.
    rewrite !Nat.add_0_r. reflexivity. }
  destruct (negb (code =? 1000)); [|exact H4].
  rewrite heartbeat_scheduleReconnect. exact H4.
Qed.

Lemma heartbeat_disconnect (s : @state W) :
  heartbeat (disconnect s)
  = (false, false, interval_sets (log s),
     (interval_clears (log s) + if pingInterval s then 1 else 0)%nat).
Proof.
  destruct s as [sock l ra mx rd ic tk pi wo ti lg].
  unfold heartbeat.
  destruct pi, sock; reduce_setters;
    rewrite ?interval_sets_app, ?interval_clears_app; simpl;
    rewrite ?Nat.add_0_r; reflexivity.
Qed.

Lemma heartbeat_unsubscribe (ev : string) (h : nat) (s : @state W) :
  heartbeat (unsubscribe ev h s) = heartbeat s.
Proof. unfold unsubscribe. destruct (listeners s !! ev); reflexivity. Qed.

Lemma heartbeat_ok_of (s s' : @state W) (b : bool) :
  heartbeat_ok s ->
  heartbeat s' = (b, b, (interval_sets (log s) + if b then 1 else 0)%nat,
                  (interval_clears (log s)
                   + if pingInterval s then 1 else 0)%nat) ->
  heartbeat_ok s'.
Proof.
  unfold heartbeat_ok, one_heartbeat, heartbeat.
  intros [Hpc Hone] [= Hp Hc Hs Hk]. rewrite Hp, Hc, Hs, Hk.
  split; [reflexivity|]. rewrite Hone. destruct b; lia.
Qed.

Lemma heartbeat_ok_same (s s' : @state W) :
  heartbeat_ok s -> heartbeat s' = heartbeat s -> heartbeat_ok s'.
Proof.
  unfold heartbeat_ok, one_heartbeat.
  intros [Hpc Hone] H. apply heartbeat_fields in H as (-> & -> & -> & ->).
  split; assumption.
Qed.

Lemma heartbeat_ok_step (s : state) (e : event) :
  heartbeat_ok s -> heartbeat_ok (step behaviour secure host s e).
Proof.
  intros Hok.
  destruct e as [tok ok| |ev h|ev h|ev p| |code reason| |i ok]; cbn [step].
  - eapply heartbeat_ok_same; [exact Hok|apply heartbeat_connect].
  - apply (heartbeat_ok_of s _ false Hok).
    rewrite heartbeat_disconnect, Nat.add_0_r. reflexivity.
  - eapply heartbeat_ok_same; [exact Hok|reflexivity].
  - eapply heartbeat_ok_same; [exact Hok|apply heartbeat_unsubscribe].
  - eapply heartbeat_ok_same; [exact Hok|apply heartbeat_emit].
  - apply (heartbeat_ok_of s _ true Hok).
    rewrite heartbeat_onopen, Nat.add_1_r. reflexivity.
  - apply (heartbeat_ok_of s _ false Hok).
    rewrite heartbeat_onclose, Nat.add_0_r. reflexivity.
  - eapply heartbeat_ok_same; [exact Hok|].
    unfold onerror. rewrite heartbeat_emit.
    apply heartbeat_push; intros; discriminate.
  - destruct (timers s !! i); [|exact Hok].
    eapply heartbeat_ok_same; [exact Hok|].
    unfold reconnect_callback.
    destruct (negb (isConnected (set_timers (delete i (timers s)) s)));
      [|reflexivity].
    rewrite heartbeat_connect. reflexivity.
Qed.

Lemma heartbeat_ok_run (es : list event) (s : state) :
  heartbeat_ok s -> heartbeat_ok (run behaviour secure host es s).
Proof.
  revert s. induction es as [|e es IH]; intros s Hok; [exact Hok|].
  unfold run. cbn [fold_left]. apply IH, heartbeat_ok_step, Hok.
Qed.

(** X23. The heartbeat. Whatever happens to a service after its
    construction, the ping interval is installed exactly while the
    service considers itself connected, and the intervals set and not
    cleared are that one: an interval is never set over a running one
    and never left behind by a close or a [disconnect()]. *)
Theorem heartbeat_invariant (w : W) (es : list event) :
  let s := run behaviour secure host es (constructor w) in
  pingInterval s = isConnected s /\
  interval_sets (log s)
  = (interval_clears (log s) + if isConnected s then 1 else 0)%nat /\
  (interval_clears (log s) <= interval_sets (log s)
   <= S (interval_clears (log s)))%nat.
Proof.
  intros s.
  assert (H : heartbeat_ok s).
  { subst s. apply heartbeat_ok_run. split; reflexivity. }
  destruct H as [Hpc Hone]. unfold one_heartbeat in Hone.
  rewrite Hpc in Hone.
  split; [exact Hpc|]. split; [exact Hone|].
  rewrite Hone. destruct (isConnected s); lia.
Qed.

End Props.

Lemma deaf_after_disconnect_witness :
  Forall not_subscribe [Connect (Some "t0k3n"%string) true; OnOpen;
                        EmitEvent "new_post" PEmpty] /\
  world (run recorder false "localhost"
           [Connect (Some "t0k3n"%string) true; OnOpen;
            EmitEvent "new_post" PEmpty]
           (disconnect
              (fst (subscribe "new_post" 1%nat (constructor [])))))
  = [].
Proof.
  assert (H : Forall not_subscribe
                [Connect (Some "t0k3n"%string) true; OnOpen;
                 EmitEvent "new_post" PEmpty]).
  { repeat first [apply Forall_nil_2 | apply Forall_cons_2]; exact I. }
  split; [exact H|].
  destruct (deaf_after_disconnect recorder false "localhost"
              (fst (subscribe "new_post" 1%nat (constructor []))) _ H)
    as (_ & Hw & _).
  exact Hw.
Defined.

Lemma pending_timeout_witness :
  timers reconnecting !! 0%nat = Some 1000 /\
  sockets (log (step silent false "localhost" (disconnect reconnecting)
                  (TimerFires 0 true)))
  = ["ws://localhost/ws/feed?token=t0k3n"%string].
Proof.
  split; [reflexivity|].
  destruct (pending_timeout silent false "localhost" reconnecting 0 1000
              true true eq_refl)
    as (_ & _ & _ & _ & _ & _ & H & _).
  exact H.
Defined.

End LifecycleProps.

(** * Properties of the connection status provider *)

Module ProviderProps.
Import WebSocketService ServiceLog Lifecycle StatusProvider.

Section Props.

Variable secure : bool.
Variable host : string.

Lemma inert_foreign (h : nat) :
  own_event h = None -> inert behaviour h.
Proof.
  intros H p w. destruct h as [|[|[|[|h]]]]; try discriminate; reflexivity.
Qed.

Lemma own_event_inj (h k : nat) (name : string) :
  own_event h = Some name -> own_event k = Some name -> h = k.
Proof.
  destruct h as [|[|[|[|h]]]], k as [|[|[|[|k]]]]; simpl; intros H1 H2;
    first [reflexivity | congruence].
Qed.

Lemma behaviour_idem (k : nat) (p : payload) (w : status) :
  after (behaviour k p (after (behaviour k p w))) = after (behaviour k p w).
Proof. destruct k as [|[|[|[|k]]]]; reflexivity. Qed.

Lemma listeners_world_own (k : nat) (p : payload) (hs : list nat)
    (w : status) :
  (forall h, h ∈ hs -> h = k \/ own_event h = None) ->
  listeners_world behaviour p hs w
  = if bool_decide (k ∈ hs) then after (behaviour k p w) else w.
Proof.
  revert w. induction hs as [|h hs IH]; intros w Hall; [reflexivity|].
  cbn [listeners_world].
  rewrite IH by (intros h' Hh'; apply Hall; right; exact Hh').
  destruct (decide (h = k)) as [->|Hne].
  - rewrite behaviour_idem.
    rewrite (bool_decide_eq_true_2 (k ∈ k :: hs)) by left.
    destruct (bool_decide (k ∈ hs)); reflexivity.
  - destruct (Hall h) as [->|Hn]; [left|contradiction|].
    rewrite (inert_foreign h Hn p w). cbn [after].
    rewrite (bool_decide_ext (k ∈ h :: hs) (k ∈ hs)); [reflexivity|].
    rewrite elem_of_cons. split; [intros [->|H]|intros H; right];
      [contradiction|exact H|exact H].
Qed.

Lemma exclusive_same (s s' : @state status) :
  listeners s' = listeners s -> exclusive s -> exclusive s'.
Proof.
  intros Hl He ev h name Hin Hn.
  rewrite (LifecycleProps.registered_same ev _ _ Hl) in Hin.
  exact (He ev h name Hin Hn).
Qed.

Lemma wired_same (s s' : @state status) :
  listeners s' = listeners s -> wired s -> wired s'.
Proof.
  unfold wired. intros Hl.
  rewrite !(LifecycleProps.registered_same _ _ _ Hl). tauto.
Qed.

Lemma world_emit_own (k : nat) (name : string) (p : payload)
    (s : @state status) :
  own_event k = Some name -> exclusive s -> k ∈ registered name s ->
  world (emit behaviour name p s) = after (behaviour k p (world s)).
Proof.
  intros Hk He Hin. rewrite ServiceProps.emit_eq. cbn [world].
  rewrite (listeners_world_own k).
  - rewrite bool_decide_eq_true_2 by exact Hin. reflexivity.
  - intros h Hh. destruct (own_event h) as [name'|] eqn:E; [left|right].
    + pose proof (He name h name' Hh E) as <-.
      exact (own_event_inj h k name E Hk).
    + reflexivity.
Qed.

Lemma world_scheduleReconnect_wired (s : @state status) :
  wired s -> exclusive s ->
  world (scheduleReconnect behaviour s)
  = if maxReconnectAttempts s <=? reconnectAttempts s
    then mkStatus (p_isConnected (world s)) "failed"
    else world s.
Proof.
  intros (_ & _ & _ & Hw) He. unfold scheduleReconnect.
  destruct (maxReconnectAttempts s <=? reconnectAttempts s); [|reflexivity].
  rewrite (world_emit_own handleMaxReconnectAttempts); try reflexivity.
  - eapply exclusive_same; [|exact He]. reflexivity.
  - exact Hw.
Qed.

Lemma world_connect_wired (tok : option string) (ok : bool)
    (s : @state status) :
  wired s -> exclusive s ->
  p_isConnected (world (connect behaviour secure host tok ok s))
  = p_isConnected (world s).
Proof.
  intros Hw He. unfold connect. destruct ok.
  - destruct (ws (set_token tok s)); reflexivity.
  - set (s2 := push _ _).
    assert (Hl : listeners s2 = listeners s)
      by (subst s2; destruct (ws (set_token tok s)); reflexivity).
    assert (Hww : world s2 = world s)
      by (subst s2; destruct (ws (set_token tok s)); reflexivity).
    rewrite world_scheduleReconnect_wired;
      [|eapply wired_same; [exact Hl|exact Hw]
       |eapply exclusive_same; [exact Hl|exact He]].
    destruct (maxReconnectAttempts s2 <=? reconnectAttempts s2);
      rewrite Hww; reflexivity.
Qed.

Lemma world_onopen_wired (s : @state status) :
  wired s -> exclusive s ->
  world (onopen behaviour s) = mkStatus true "connected".
Proof.
  intros Hw He. unfold onopen, startPingInterval.
  unfold set_pingInterval, push. cbn [world].
  rewrite LifecycleProps.world_stopPingInterval.
  rewrite (world_emit_own handleConnected); try reflexivity.
  - eapply exclusive_same; [|exact He]. reflexivity.
  - exact (proj1 Hw).
Qed.

Lemma world_onclose_wired (code : Z) (reason : string) (s : @state status) :
  wired s -> exclusive s ->
  world (onclose behaviour code reason s)
  = mkStatus false
      (if negb (code =? 1000)
          && (maxReconnectAttempts s <=? reconnectAttempts s)
       then "failed" else "disconnected").
Proof.
  intros Hw He. unfold onclose.
  set (s3 := stopPingInterval _).
  assert (Hl3 : listeners s3 = listeners s).
  { subst s3. rewrite ServiceProps.listeners_stopPingInterval. reflexivity. }
  set (s4 := emit behaviour "disconnected" (PDisconnected code reason) s3).
  assert (H4 : world s4 = mkStatus false "disconnected").
  { subst s4. rewrite (world_emit_own handleDisconnected); try reflexivity.
    - eapply exclusive_same; [exact Hl3|exact He].
    - rewrite (LifecycleProps.registered_same _ _ _ Hl3).
      exact (proj1 (proj2 Hw)). }
  assert (Hl4 : listeners s4 = listeners s).
  { subst s4. rewrite ServiceProps.listeners_emit. exact Hl3. }
  assert (Hf : maxReconnectAttempts s4 = maxReconnectAttempts s /\
               reconnectAttempts s4 = reconnectAttempts s).
  { subst s4. rewrite ServiceProps.emit_eq.
    cbn [maxReconnectAttempts reconnectAttempts]. subst s3.
    destruct (ServiceProps.stopPingInterval_fields
                (set_isConnected false
                   (push (ConsoleLog "WebSocket disconnected:") s)))
      as (H1 & _ & H3 & _).
    rewrite H1, H3. split; reflexivity. }
  destruct Hf as [Hm Ha].
  destruct (negb (code =? 1000)); cbn [andb]; [|exact H4].
  rewrite world_scheduleReconnect_wired;
    [|eapply wired_same; [exact Hl4|exact Hw]
     |eapply exclusive_same; [exact Hl4|exact He]].
  rewrite Hm, Ha, H4.
  destruct (maxReconnectAttempts s <=? reconnectAttempts s); reflexivity.
Qed.

Lemma world_onerror_wired (s : @state status) :
  wired s -> exclusive s ->
  world (onerror behaviour s) = mkStatus (p_isConnected (world s)) "error".
Proof.
  intros Hw He. unfold onerror.
  rewrite (world_emit_own handleError); try reflexivity.
  - eapply exclusive_same; [|exact He]. reflexivity.
  - exact (proj1 (proj2 (proj2 Hw))).
Qed.

(** The provider's flag agrees with the service's, with the listeners in
    place. *)
Lemma tracking_step (s : @state status) (e : event) :
  wired s -> exclusive s -> p_isConnected (world s) = isConnected s ->
  transport_event e ->
  wired (step behaviour secure host s e) /\
  exclusive (step behaviour secure host s e) /\
  p_isConnected (world (step behaviour secure host s e))
  = isConnected (step behaviour secure host s e).
Proof.
  intros Hw He Hp Ht.
  pose proof (ServiceProps.listeners_step behaviour secure host s e) as Hl.
  destruct e as [tok ok| |ev h|ev h|ev p| |code reason| |i ok];
    try contradiction;
    (split; [eapply wired_same; [exact Hl|exact Hw]|]);
    (split; [eapply exclusive_same; [exact Hl|exact He]|]);
    cbn [step].
  - rewrite world_connect_wired by assumption.
    destruct (LifecycleProps.heartbeat_fields _ _
                (LifecycleProps.heartbeat_connect behaviour secure host
                   tok ok s)) as (_ & Hc' & _). rewrite Hc'.
    exact Hp.
  - rewrite world_onopen_wired by assumption.
    pose proof (LifecycleProps.heartbeat_onopen behaviour s) as H.
    apply (f_equal (fun t => snd (fst (fst t)))) in H.
    unfold heartbeat in H. cbn [fst snd] in H.
    rewrite H. reflexivity.
  - rewrite world_onclose_wired by assumption.
    pose proof (LifecycleProps.heartbeat_onclose behaviour code reason s)
      as H.
    apply (f_equal (fun t => snd (fst (fst t)))) in H.
    unfold heartbeat in H. cbn [fst snd] in H.
    rewrite H. reflexivity.
  - rewrite world_onerror_wired by assumption.
    unfold onerror. rewrite ServiceProps.emit_eq. cbn [isConnected].
    exact Hp.
  - destruct (timers s !! i); [|exact Hp].
    unfold reconnect_callback.
    destruct (negb (isConnected (set_timers (delete i (timers s)) s)));
      [|exact Hp].
    rewrite world_connect_wired by assumption.
    destruct (LifecycleProps.heartbeat_fields _ _
                (LifecycleProps.heartbeat_connect behaviour secure host
                   (token (set_timers (delete i (timers s)) s)) ok
                   (set_timers (delete i (timers s)) s))) as (_ & Hc' & _). rewrite Hc'.
    exact Hp.
Qed.

Lemma tracking_run (es : list event) (s : @state status) :
  wired s -> exclusive s -> p_isConnected (world s) = isConnected s ->
  Forall transport_event es ->
  wired (run behaviour secure host es s) /\
  exclusive (run behaviour secure host es s) /\
  p_isConnected (world (run behaviour secure host es s))
  = isConnected (run behaviour secure host es s).
Proof.
  revert s. induction es as [|e es IH]; intros s Hw He Hp Hf.
  - split; [exact Hw|split; [exact He|exact Hp]].
  - apply Forall_cons in Hf as [Ht Hf].
    destruct (tracking_step s e Hw He Hp Ht) as (Hw' & He' & Hp').
    unfold run. cbn [fold_left]. apply IH; assumption.
Qed.

Lemma status_effect_wires (s : @state status) :
  deaf s ->
  wired (run behaviour secure host status_effect s) /\
  exclusive (run behaviour secure host status_effect s) /\
  world (run behaviour secure host status_effect s) = world s /\
  isConnected (run behaviour secure host status_effect s) = isConnected s.
Proof.
  intros Hd.
  assert (Hr : forall ev,
             registered ev (run behaviour secure host status_effect s)
             = if decide ("max_reconnect_attempts"%string = ev)
               then [handleMaxReconnectAttempts]
               else if decide ("error"%string = ev) then [handleError]
               else if decide ("disconnected"%string = ev)
               then [handleDisconnected]
               else if decide ("connected"%string = ev)
               then [handleConnected] else []).
  { intros ev. unfold run, status_effect. cbn [fold_left step].
    rewrite !ServiceProps.registered_subscribe.
    cbn [decide]. rewrite !Hd.
    repeat case_decide; try reflexivity; try congruence. }
  split; [|split; [|split]].
  - unfold wired. rewrite !Hr. repeat split; vm_compute; left.
  - intros ev h name Hin Hn. rewrite Hr in Hin.
    repeat case_decide; subst;
      try (apply list_elem_of_singleton in Hin; subst h;
           simpl in Hn; congruence).
    inversion Hin.
  - unfold run, status_effect. cbn [fold_left step].
    rewrite !ServiceProps.subscribe_eq. reflexivity.
  - unfold run, status_effect. cbn [fold_left step].
    rewrite !ServiceProps.subscribe_eq. reflexivity.
Qed.

Lemma mount_wires (a : bool) (tok : option string) (ok : bool) :
  let s := run behaviour secure host (mount a tok ok) (constructor init) in
  wired s /\ exclusive s /\ p_isConnected (world s) = isConnected s.
Proof.
  intros s. subst s. unfold mount, run. rewrite fold_left_app.
  set (s1 := fold_left _ (connect_effect a tok false ok) _).
  assert (H1 : deaf s1 /\ world s1 = init /\ isConnected s1 = false).
  { subst s1. unfold connect_effect.
    destruct (a && token_truthy tok); cbn [fold_left step];
      [|repeat split].
    split; [|split].
    - intros ev. unfold registered.
      rewrite ServiceProps.listeners_connect. reflexivity.
    - rewrite LifecycleProps.world_connect_inert; [reflexivity|].
      apply LifecycleProps.deaf_all_inert. intros ev. reflexivity.
    - destruct (LifecycleProps.heartbeat_fields _ _
                  (LifecycleProps.heartbeat_connect behaviour secure host
                     tok ok (constructor init))) as (_ & Hc' & _). rewrite Hc'.
      reflexivity. }
  destruct H1 as (Hd & Hw & Hc).
  destruct (status_effect_wires s1 Hd) as (H2 & H3 & H4 & H5).
  unfold run in H2, H3, H4, H5.
  split; [exact H2|]. split; [exact H3|].
  rewrite H4, H5, Hw, Hc. reflexivity.
Qed.

(** X24. From the mount of the provider on, and as long as nothing but
    the transport acts on the service (connects, the socket opening,
    closing or failing, reconnect timeouts), the provider's [isConnected]
    is the service's, and each socket event sets the status it is meant
    to: an open gives [connected]; a close gives [disconnected], or
    [failed] when the close is abnormal and the reconnect budget is used
    up; an error gives [error] and keeps the flag. *)
Theorem provider_follows_transport (a : bool) (tok : option string)
    (ok : bool) (es : list event) (code : Z) (reason : string) :
  Forall transport_event es ->
  let s := run behaviour secure host es
             (run behaviour secure host (mount a tok ok) (constructor init)) in
  p_isConnected (world s) = isConnected s /\
  world (onopen behaviour s) = mkStatus true "connected" /\
  world (onclose behaviour code reason s)
  = mkStatus false
      (if negb (code =? 1000)
          && (maxReconnectAttempts s <=? reconnectAttempts s)
       then "failed" else "disconnected") /\
  world (onerror behaviour s) = mkStatus (isConnected s) "error".
Proof.
  intros Hf s.
  destruct (mount_wires a tok ok) as (Hw0 & He0 & Hp0).
  destruct (tracking_run es _ Hw0 He0 Hp0 Hf) as (Hw & He & Hp).
  fold s in Hw, He, Hp.
  split; [exact Hp|].
  split; [apply world_onopen_wired; assumption|].
  split; [apply world_onclose_wired; assumption|].
  rewrite world_onerror_wired by assumption. rewrite Hp. reflexivity.
Qed.

Lemma foreign_inert (es : list event) :
  foreign_subscriptions es ->
  forall ev h, Subscribe ev h ∈ es -> inert behaviour h.
Proof. intros Hf ev h Hin. apply inert_foreign, (Hf ev h Hin). Qed.

Lemma frozen_after_disconnect (s : @state status) (es : list event) :
  foreign_subscriptions es ->
  world (run behaviour secure host (Disconnect :: es) s) = world s.
Proof.
  intros Hf. unfold run. cbn [fold_left step].
  destruct (LifecycleProps.inert_run behaviour secure host es
              (disconnect s)) as [Hw _].
  - apply LifecycleProps.deaf_all_inert, LifecycleProps.deaf_disconnect.
  - apply foreign_inert, Hf.
  - unfold run in Hw. rewrite Hw. apply LifecycleProps.world_disconnect.
Qed.

(** X25. The provider goes blind at its first re-render. The cleanup of
    its connect effect calls [disconnect()], which also removes the four
    status listeners, and these are registered by an effect that runs
    once. So after a change of [isAuthenticated] or of the token, and
    likewise after [reconnect()], the provider's [isConnected] and
    [connectionStatus] stay what they were, whatever the service does
    later and whichever other listeners are subscribed. *)
Theorem status_frozen_after_rerender (s : @state status) (a : bool)
    (tok : option string) (isConn ok : bool) (es : list event) :
  foreign_subscriptions es ->
  world (run behaviour secure host (rerender a tok isConn ok ++ es) s)
  = world s /\
  world (run behaviour secure host (reconnect a tok ok ++ es) s) = world s.
Proof.
  intros Hf.
  assert (Hc : foreign_subscriptions (connect_effect a tok isConn ok ++ es)).
  { intros ev h Hin. apply elem_of_app in Hin as [Hin|Hin];
      [|exact (Hf ev h Hin)].
    exfalso. unfold connect_effect in Hin.
    destruct (a && token_truthy tok); [|destruct isConn];
      try (apply list_elem_of_singleton in Hin; discriminate).
    inversion Hin. }
  assert (Hr : foreign_subscriptions
                 ((if a && token_truthy tok then [Connect tok ok] else [])
                  ++ es)).
  { intros ev h Hin. apply elem_of_app in Hin as [Hin|Hin];
      [|exact (Hf ev h Hin)].
    exfalso. destruct (a && token_truthy tok);
      [apply list_elem_of_singleton in Hin; discriminate|inversion Hin]. }
  split.
  - unfold rerender, connect_cleanup. rewrite <- app_assoc.
    apply frozen_after_disconnect, Hc.
  - unfold reconnect. rewrite <- app_comm_cons.
    apply frozen_after_disconnect, Hr.
Qed.

End Props.

Lemma provider_follows_transport_witness :
  Forall transport_event [OnOpen; OnClose 1006 "Connection lost"] /\
  world (onopen behaviour
           (run behaviour false "localhost"
              [OnOpen; OnClose 1006 "Connection lost"]
              (run behaviour false "localhost"
                 (mount true (Some "t0k3n"%string) true)
                 (constructor init))))
  = mkStatus true "connected".
Proof.
  assert (H : Forall transport_event [OnOpen; OnClose 1006 "Connection lost"]).
  { repeat first [apply Forall_nil_2 | apply Forall_cons_2]; exact I. }
  split; [exact H|].
  destruct (provider_follows_transport false "localhost" true
              (Some "t0k3n"%string) true _ 1000 "bye" H)
    as (_ & Ho & _).
  exact Ho.
Defined.

Lemma status_frozen_after_rerender_witness :
  foreign_subscriptions [OnOpen] /\
  world (run behaviour false "localhost"
           (rerender true (Some "t0k3n"%string) false true ++ [OnOpen])
           mounted)
  = mkStatus false "disconnected".
Proof.
  assert (H : foreign_subscriptions [OnOpen]).
  { intros ev h Hin. apply list_elem_of_singleton in Hin. discriminate. }
  split; [exact H|].
  destruct (status_frozen_after_rerender false "localhost" mounted true
              (Some "t0k3n"%string) false true [OnOpen] H) as [Hw _].
  rewrite Hw. reflexivity.
Defined.

End ProviderProps.

(** * Properties of the form that creates a post *)

Module CreatePostProps.
Import CreatePost.

Lemma includes_elem (x : string) (l : list string) :
  includes x l = true -> x ∈ l.
Proof.
  unfold includes. induction l as [|a l IH]; simpl; [discriminate|].
  intros H. apply orb_true_iff in H as [H|H].
  - apply String.eqb_eq in H. subst a. left.
  - right. apply IH, H.
Qed.

Lemma elem_includes (x : string) (l : list string) :
  x ∈ l -> includes x l = true.
Proof.
  unfold includes. induction 1 as [x l|x y l _ IH]; simpl.
  - rewrite String.eqb_refl. reflexivity.
  - rewrite IH. apply orb_true_r.
Qed.

Lemma length_rev_onto (s acc : string) :
  String.length (rev_onto s acc)
  = (String.length s + String.length acc)%nat.
Proof.
  revert acc. induction s as [|c s IH]; intros acc; [reflexivity|].
  simpl. rewrite IH. simpl. lia.
Qed.

Lemma length_drop_blanks (s : string) :
  (String.length (drop_blanks s) <= String.length s)%nat.
Proof.
  induction s as [|c s IH]; simpl; [lia|].
  destruct (Ascii.eqb c (Ascii.ascii_of_nat 32)); simpl; lia.
Qed.

Lemma trim_blanks_length (s : string) :
  (String.length (trim_blanks s) <= String.length s)%nat.
Proof.
  unfold trim_blanks. rewrite length_rev_onto. simpl.
  pose proof (length_drop_blanks (rev_onto (drop_blanks s) EmptyString)) as H1.
  rewrite length_rev_onto in H1. simpl in H1.
  pose proof (length_drop_blanks s) as H2. lia.
Qed.

Section Props.

Variable trim : string -> string.

(** [trim] removes characters, it adds none. *)
Hypothesis trim_length :
  forall s, (String.length (trim s) <= String.length s)%nat.

(** X26. What the form sends. A request is made only with the trimmed
    content, which is then not empty and at most 500 characters long,
    together with the image currently attached; the form is marked as
    submitting and keeps its content meanwhile. Whenever the submit
    button is enabled the submission is not refused. After success the
    form is empty again; after a failure it keeps content and image, and
    in both cases it is no longer submitting. *)
Theorem submit_sends_valid_content (st : state) :
  (forall rq st', handleSubmit_start trim st = Sent rq st' ->
     r_content rq = trim (content st) /\
     r_content rq <> EmptyString /\
     len (r_content rq) <= 500 /\
     r_image rq = image st /\
     st' = mkState (content st) (image st) (imagePreview st) true) /\
  (submit_enabled trim st = true ->
   exists rq st', handleSubmit_start trim st = Sent rq st') /\
  handleSubmit_resolved st = mkState EmptyString None None false /\
  handleSubmit_rejected st
  = mkState (content st) (image st) (imagePreview st) false.
Proof.
  split; [|split; [|split; reflexivity]].
  - intros rq st'. unfold handleSubmit_start.
    destruct (String.eqb_spec (trim (content st)) EmptyString) as [|Hne];
      [discriminate|].
    destruct (Z.ltb_spec MAX_CONTENT_LENGTH (len (trim (content st))))
      as [|Hle]; [discriminate|].
    intros [= <- <-]. simpl. repeat split; assumption.
  - unfold submit_enabled, handleSubmit_start, remainingChars.
    intros He. apply negb_true_iff in He.
    apply orb_false_iff in He as [He _].
    apply orb_false_iff in He as [He1 He2].
    rewrite He1. apply Z.ltb_ge in He2.
    assert (Hl : (MAX_CONTENT_LENGTH <? len (trim (content st))) = false).
    { apply Z.ltb_ge. unfold len in *.
      pose proof (trim_length (content st)). lia. }
    rewrite Hl. eexists _, _. reflexivity.
Qed.

(** An attached image passed the checks when it was selected. *)
Lemma step_keeps_image_acceptable (st : state) (e : event) :
  (forall f, image st = Some f -> acceptable f) ->
  forall f, image (step trim st e) = Some f -> acceptable f.
Proof.
  intros Hi f.
  destruct e as [v|[file|]|result| | | |]; cbn [step]; try exact (Hi f);
    try discriminate.
  - unfold handleImageSelect.
    destruct (includes (f_type file) allowedTypes) eqn:Ht; cbn [negb];
      [|exact (Hi f)].
    destruct (Z.ltb_spec maxSize (f_size file)) as [|Hs]; [exact (Hi f)|].
    cbn [fst image]. intros [= <-]. split.
    + apply includes_elem, Ht.
    + exact Hs.
  - unfold handleSubmit_start.
    destruct (String.eqb (trim (content st)) EmptyString); [exact (Hi f)|].
    destruct (MAX_CONTENT_LENGTH <? len (trim (content st)));
      [exact (Hi f)|exact (Hi f)].
Qed.

Lemma run_keeps_image_acceptable (es : list event) (st : state) :
  (forall f, image st = Some f -> acceptable f) ->
  forall f, image (run trim es st) = Some f -> acceptable f.
Proof.
  revert st. induction es as [|e es IH]; intros st H0; [exact H0|].
  unfold run. cbn [fold_left]. apply IH.
  apply step_keeps_image_acceptable, H0.
Qed.

(** X27. Whatever the user does with the form (typing, selecting files
    that pass or fail the checks, removing the image, submitting with
    either outcome), an attached image is one of the four allowed types
    and at most 5 MiB large; so every request carries such an image or
    none. A file that fails a check leaves the form as it was. *)
Theorem attached_image_is_acceptable (es : list event) (file : file) :
  let st := run trim es init in
  (forall f, image st = Some f -> acceptable f) /\
  (forall rq st' f,
     handleSubmit_start trim st = Sent rq st' -> r_image rq = Some f ->
     acceptable f) /\
  (~ acceptable file -> fst (handleImageSelect (Some file) st) = st) /\
  (acceptable file ->
   image (fst (handleImageSelect (Some file) st)) = Some file).
Proof.
  intros st.
  assert (Hi : forall f, image st = Some f -> acceptable f).
  { subst st. apply run_keeps_image_acceptable. discriminate. }
  split; [exact Hi|]. split; [|split].
  - intros rq st' f. unfold handleSubmit_start.
    destruct (String.eqb (trim (content st)) EmptyString); [discriminate|].
    destruct (MAX_CONTENT_LENGTH <? len (trim (content st)));
      [discriminate|].
    intros [= <- _]. cbn [r_image]. apply Hi.
  - intros Hn. unfold handleImageSelect.
    destruct (includes (f_type file) allowedTypes) eqn:Ht; cbn [negb];
      [|reflexivity].
    destruct (Z.ltb_spec maxSize (f_size file)) as [|Hs]; [reflexivity|].
    exfalso. apply Hn. split; [apply includes_elem, Ht|exact Hs].
  - intros [Ht Hs]. unfold handleImageSelect.
    assert (Hin : includes (f_type file) allowedTypes = true).
    { apply elem_includes, Ht. }
    rewrite Hin. cbn [negb].
    destruct (Z.ltb_spec maxSize (f_size file)) as [Hlt|_];
      [unfold maxSize in Hlt; lia|reflexivity].
Qed.

End Props.

Lemma submit_sends_valid_content_witness :
  (forall s, (String.length (trim_blanks s) <= String.length s)%nat) /\
  exists rq st',
    handleSubmit_start trim_blanks (mkState "  hello " None None false)
    = Sent rq st'.
Proof.
  split; [exact trim_blanks_length|].
  destruct (submit_sends_valid_content trim_blanks trim_blanks_length
              (mkState "  hello " None None false)) as (_ & H & _).
  apply H. reflexivity.
Defined.

End CreatePostProps.

(** * Properties of the infinite scroll and of the posts hook *)

Module ScrollProps.
Import Data Feed InfiniteScroll.

(** X28. Loading further pages while scrolling. When the observer's
    callback starts a fetch, it asks for the page after the current one,
    in append mode, and until that fetch has settled no intersection
    starts another one. When the fetch succeeds the page's posts are
    added at the end and the page number moves on by one; it is the last
    one if the answer says that nothing is left. When it fails the list
    and the page number are what they were, and the next intersection
    asks for the same page again. *)
Theorem scroll_loads_next_page (c c' c'' : ctx) (b : bool) (r : response)
    (message : string) (n : Z) (st st1 : state) :
  1 <= page st ->
  on_intersect c true st = Some (n, st1) ->
  n = page st + 1 /\
  loadingMore st1 = true /\ posts st1 = posts st /\
  on_intersect c' b st1 = None /\
  (isMounted c'' = true ->
   let done := fetchPosts_resolve c'' n true r st1 in
   posts done = posts st ++ r_posts r /\
   page done = page st + 1 /\
   (has_more r = false -> on_intersect c' b done = None) /\
   (has_more r = true -> isMounted c' = true ->
    exists st2, on_intersect c' true done = Some (page st + 2, st2))) /\
  (isMounted c'' = true ->
   let failed := fetchPosts_reject c'' message st1 in
   posts failed = posts st /\ page failed = page st /\
   (isMounted c' = true ->
    exists st2, on_intersect c' true failed = Some (n, st2))).
Proof.
  intros Hp. unfold on_intersect at 1. unfold observing.
  destruct st as [ps l lm e pg hm np]. cbn [page] in Hp. simpl.
  destruct l, hm, lm, (isMounted c); simpl; try discriminate.
  intros [= <- <-].
  unfold fetchPosts_begin. simpl.
  assert (Hne : (pg + 1 =? 1) = false) by (apply Z.eqb_neq; lia).
  rewrite Hne. simpl.
  split; [reflexivity|]. split; [reflexivity|]. split; [reflexivity|].
  split.
  { unfold on_intersect, observing. simpl. destruct b; reflexivity. }
  split.
  - intros Hm. unfold fetchPosts_resolve, fetchPosts_finally. rewrite Hm.
    simpl.
    split; [reflexivity|]. split; [reflexivity|].
    split.
    + intros ->. unfold on_intersect, observing. simpl.
      destruct b; reflexivity.
    + intros -> Hm'. unfold on_intersect, observing. simpl. rewrite Hm'.
      replace (pg + 1 + 1) with (pg + 2) by lia.
      eexists. reflexivity.
  - intros Hm. unfold fetchPosts_reject, fetchPosts_finally. rewrite Hm.
    simpl.
    split; [reflexivity|]. split; [reflexivity|].
    intros Hm'. unfold on_intersect, observing. simpl. rewrite Hm'.
    eexists. reflexivity.
Qed.

Lemma scroll_loads_next_page_witness :
  1 <= page (with_posts [sample 2; sample 1]) /\
  on_intersect at_top true (with_posts [sample 2; sample 1])
  = Some (2, mkState [sample 2; sample 1] false true None 1 true 0) /\
  posts (fetchPosts_resolve at_top 2 true (mkResponse [sample 0] false)
           (mkState [sample 2; sample 1] false true None 1 true 0))
  = [sample 2; sample 1; sample 0].
Proof.
  assert (H1 : 1 <= page (with_posts [sample 2; sample 1]))
    by (simpl; lia).
  split; [exact H1|]. split; [reflexivity|].
  destruct (scroll_loads_next_page at_top at_top at_top true
              (mkResponse [sample 0] false) "Failed to load posts" 2
              (with_posts [sample 2; sample 1])
              (mkState [sample 2; sample 1] false true None 1 true 0)
              H1 eq_refl)
    as (_ & _ & _ & _ & H & _).
  destruct (H eq_refl) as [Hd _]. exact Hd.
Defined.

End ScrollProps.

Module UsePostsProps.
Import Data UsePosts.

(** X29. The hook and the feed component keep the same list. On a
    mounted feed the comment and deletion events give the same posts in
    both. A like event gives the same posts up to [is_liked], which the
    hook never changes while the feed sets it for the viewer's own like.
    A new post reaches the hook's list exactly as it reaches the list
    of an unscoped feed scrolled to the top. But the hook's [addPost],
    unlike the feed's local insertion, puts in a post whose id is
    already listed. *)
Theorem hook_agrees_with_feed (c : Feed.ctx) (st : Feed.state)
    (pid : option Z) (post_id : Z) (d : like_update) (p : post) :
  Feed.isMounted c = true ->
  Feed.posts (FeedEvents.on_new_comment c pid st)
  = on_new_comment pid (Feed.posts st) /\
  Feed.posts (FeedEvents.on_comment_deleted c pid st)
  = on_comment_deleted pid (Feed.posts st) /\
  Feed.posts (Feed.on_post_deleted c post_id st)
  = on_post_deleted post_id (Feed.posts st) /\
  map unflagged (Feed.posts (Feed.on_like_update c d st))
  = map unflagged (on_like_update d (Feed.posts st)) /\
  map is_liked (on_like_update d (Feed.posts st))
  = map is_liked (Feed.posts st) /\
  (Feed.userId c = None -> Feed.scrollY c < 100 ->
   Feed.posts (Feed.on_new_post c p st)
   = on_new_post None p (Feed.posts st)) /\
  (forall u, u <> 0 -> on_new_post (Some u) p (Feed.posts st)
                       = Feed.posts st) /\
  (id p ∈ ids (Feed.posts st) ->
   ~ NoDup (ids (addPost p (Feed.posts st))) /\
   Feed.posts (Feed.handleLocalPostCreated p st) = Feed.posts st).
Proof.
  intros Hm.
  unfold FeedEvents.on_new_comment, FeedEvents.on_comment_deleted,
    Feed.on_post_deleted, Feed.on_like_update, Feed.on_new_post.
  rewrite Hm. cbn [negb Feed.posts FeedEvents.set_posts].
  split; [reflexivity|]. split; [reflexivity|]. split; [reflexivity|].
  split.
  { unfold on_like_update. rewrite !map_map. apply map_ext. intros q.
    unfold Feed.like_mapper, Feed.apply_like, unflagged.
    destruct (id q =? lu_post_id d); reflexivity. }
  split.
  { unfold on_like_update. rewrite map_map. apply map_ext. intros q.
    destruct (id q =? lu_post_id d); reflexivity. }
  split.
  { intros Hu Hs. unfold Feed.shouldAdd, on_new_post. rewrite Hu.
    cbn [Feed.truthy negb orb]. unfold Feed.exists_id.
    apply Z.ltb_lt in Hs. rewrite Hs.
    destruct (existsb (fun q => id q =? id p) (Feed.posts st));
      reflexivity. }
  split.
  { intros u Hu. unfold on_new_post. simpl.
    apply Z.eqb_neq in Hu. rewrite Hu. reflexivity. }
  intros Hin. split.
  - unfold addPost. simpl. rewrite NoDup_cons. intros [Hn _].
    exact (Hn Hin).
  - unfold Feed.handleLocalPostCreated.
    apply FeedProps.exists_id_spec in Hin. rewrite Hin. reflexivity.
Qed.

Lemma hook_agrees_with_feed_witness :
  Feed.isMounted Feed.at_top = true /\
  map is_liked
    (Feed.posts (Feed.on_like_update Feed.at_top
                   (mkLikeUpdate 1 5 (Some (mkUser 7)) true)
                   (Feed.with_posts [Feed.sample 1]))) = [true] /\
  map is_liked
    (on_like_update (mkLikeUpdate 1 5 (Some (mkUser 7)) true)
       [Feed.sample 1]) = [false].
Proof.
  split; [reflexivity|]. split; [reflexivity|].
  destruct (hook_agrees_with_feed Feed.at_top
              (Feed.with_posts [Feed.sample 1]) None 1
              (mkLikeUpdate 1 5 (Some (mkUser 7)) true) (Feed.sample 1)
              eq_refl)
    as (_ & _ & _ & _ & H & _).
  exact H.
Defined.

End UsePostsProps.
